(** * geminimultilingual: the translation endpoint, its client and its forms

    A shallow embedding of
    - [src/app/api/translate/route.ts]  (the [POST] handler),
    - [src/utils/gemini.ts]             ([promptTemplate], [translateText]),
    - [src/components/ui/FullscreenTextInput.tsx]   ([handleSubmit]),
    - [src/components/ui/LanguageSelectionModal.tsx] ([toggleLanguage],
      the checkbox and button guards, the reset effect),
    - [src/app/page.tsx]                ([handleTextSubmit],
      [handleLanguagesSubmit], [handleStartOver], what is rendered),
    together with the part of the ECMAScript run time these functions
    rely on: strings of UTF-16 code units, numbers, the values that
    [JSON.parse] produces, truthiness, property access, the conversions
    behind [>], [!==] and template literals, [Array.prototype.join],
    [String.prototype.trim], [JSON.parse], [JSON.stringify] and the UTF-8
    coding of a body.

    All definitions come first; lemmas and theorems follow. *)

From Stdlib Require Import Ascii String List ZArith NArith Lia Bool.
From Stdlib Require Strings.Byte.
Import ListNotations.

Set Warnings "-register-all".
Open Scope Z_scope.

(* ================================================================== *)
(** * Part I.  The ECMAScript run time *)
(* ================================================================== *)

Module JS.

(** ** Strings

    An ECMAScript string is a finite sequence of UTF-16 code units and
    its [length] is the number of code units. *)

Definition jsstring := list N.

(** An ASCII literal of the source, as a sequence of code units. *)
Definition lit (s : string) : jsstring :=
  map N_of_ascii (list_ascii_of_string s).

(** The code unit of the double quote (U+0022). *)
Definition dquote : N := 34%N.

Fixpoint str_eqb (a b : jsstring) : bool :=
  match a, b with
  | [], [] => true
  | x :: a', y :: b' => (x =? y)%N && str_eqb a' b'
  | _, _ => false
  end.

(** [includes] of an array of strings. *)
Definition includes (l : list jsstring) (x : jsstring) : bool :=
  existsb (str_eqb x) l.

(** WhiteSpace and LineTerminator code points: what [trim] strips and
    what may surround a numeric string. *)
Definition is_white_space (c : N) : bool :=
  match c with
  | 9 | 10 | 11 | 12 | 13 | 32 | 160 | 5760
  | 8232 | 8233 | 8239 | 8287 | 12288 | 65279 => true
  | _ => (8192 <=? c) && (c <=? 8202)
  end%N.

Fixpoint trimStart (s : jsstring) : jsstring :=
  match s with
  | [] => []
  | c :: r => if is_white_space c then trimStart r else s
  end.

Definition trimEnd (s : jsstring) : jsstring := rev (trimStart (rev s)).

(** [String.prototype.trim]. *)
Definition trim (s : jsstring) : jsstring := trimEnd (trimStart s).

(** [sep]-separated concatenation, the string part of [join]. *)
Fixpoint join_strings (sep : jsstring) (l : list jsstring) : jsstring :=
  match l with
  | [] => []
  | [x] => x
  | x :: r => x ++ sep ++ join_strings sep r
  end.

(** ** Numbers

    A Number is NaN, an infinity or a finite value.  A finite value is
    kept as a signed dyadic rational [m * 2^e]; the sign is separate so
    that the negative zero exists.  The binary64 values are the dyadic
    rationals that [round_binary64] returns; every comparison below is
    made on the exact value. *)

Inductive number :=
| NaN
| Infinity (neg : bool)
| Finite (neg : bool) (m : N) (e : Z).

Definition number_of_nat (n : nat) : number := Finite false (N.of_nat n) 0.

(** [p/q * 2^n] and [p/q * 10^n] as fractions with positive denominator. *)
Definition scale2 (p q n : Z) : Z * Z :=
  if 0 <=? n then (p * 2 ^ n, q) else (p, q * 2 ^ (- n)).

Definition scale10 (p q n : Z) : Z * Z :=
  if 0 <=? n then (p * 10 ^ n, q) else (p, q * 10 ^ (- n)).

(** The exact value of a finite number, sign included. *)
Definition ratio (neg : bool) (m : N) (e : Z) : Z * Z :=
  scale2 (if neg then - Z.of_N m else Z.of_N m) 1 e.

(** [c < x] for an integer [c], as the relational operators decide it
    (false when [x] is NaN). *)
Definition number_gt_Z (x : number) (c : Z) : bool :=
  match x with
  | NaN => false
  | Infinity neg => negb neg
  | Finite neg m e => let '(p, q) := ratio neg m e in c * q <? p
  end.

(** [x === c] for an integer [c]. *)
Definition number_eq_Z (x : number) (c : Z) : bool :=
  match x with
  | Finite neg m e => let '(p, q) := ratio neg m e in p =? c * q
  | _ => false
  end.

(** ToBoolean of a Number: false for both zeros and NaN. *)
Definition number_truthy (x : number) : bool :=
  match x with
  | NaN => false
  | Infinity _ => true
  | Finite _ m _ => negb (m =? 0)%N
  end.

(** Quotient of two positive integers, rounded to nearest, ties to even. *)
Definition div_rne (num den : Z) : Z :=
  let d := num / den in
  match 2 * (num mod den) ?= den with
  | Lt => d
  | Gt => d + 1
  | Eq => if Z.even d then d else d + 1
  end.

(** The binary64 value nearest to [p/q] ([0 <= p], [0 < q]), ties to
    even, with gradual underflow and overflow to infinity. *)
Definition round_binary64 (neg : bool) (p q : Z) : number :=
  if p =? 0 then Finite neg 0 0
  else
    let e0 := Z.log2 p - Z.log2 q - 53 in
    let '(n0, d0) := scale2 p q (- e0) in
    let e1 := if 2 ^ 53 * d0 <=? n0 then e0 + 1 else e0 in
    let e := Z.max e1 (-1074) in
    let '(n, d) := scale2 p q (- e) in
    let m := div_rne n d in
    let '(m', e') := if m =? 2 ^ 53 then (2 ^ 52, e + 1) else (m, e) in
    if 971 <? e' then Infinity neg else Finite neg (Z.to_N m') e'.

(** *** Decimal digits *)

Definition is_digit (c : N) : bool := ((48 <=? c) && (c <=? 57))%N.

Definition digit_value (c : N) : Z := Z.of_N c - 48.

Definition hex_value (c : N) : option Z :=
  if is_digit c then Some (Z.of_N c - 48)
  else if ((97 <=? c) && (c <=? 102))%N then Some (Z.of_N c - 87)
  else if ((65 <=? c) && (c <=? 70))%N then Some (Z.of_N c - 55)
  else None.

(** The value of a digit sequence in the given radix; [None] when a
    character is not a digit of that radix. *)
Fixpoint digits_value (radix : Z) (acc : Z) (s : jsstring) : option Z :=
  match s with
  | [] => Some acc
  | c :: r =>
      match hex_value c with
      | Some d => if d <? radix then digits_value radix (acc * radix + d) r
                  else None
      | None => None
      end
  end.

(** The longest prefix of decimal digits, and what follows it. *)
Fixpoint span_digits (s : jsstring) : jsstring * jsstring :=
  match s with
  | c :: r => if is_digit c
              then let '(ds, rest) := span_digits r in (c :: ds, rest)
              else ([], s)
  | [] => ([], [])
  end.

Fixpoint uint_chars (d : Decimal.uint) : jsstring :=
  match d with
  | Decimal.Nil => []
  | Decimal.D0 r => 48%N :: uint_chars r
  | Decimal.D1 r => 49%N :: uint_chars r
  | Decimal.D2 r => 50%N :: uint_chars r
  | Decimal.D3 r => 51%N :: uint_chars r
  | Decimal.D4 r => 52%N :: uint_chars r
  | Decimal.D5 r => 53%N :: uint_chars r
  | Decimal.D6 r => 54%N :: uint_chars r
  | Decimal.D7 r => 55%N :: uint_chars r
  | Decimal.D8 r => 56%N :: uint_chars r
  | Decimal.D9 r => 57%N :: uint_chars r
  end.

(** The decimal digits of a non-negative integer. *)
Definition decimal_string (n : Z) : jsstring := uint_chars (N.to_uint (Z.to_N n)).


(** *** Number::toString (radix 10)

    The digits are the shortest decimal [s * 10^(n-k)], [s] of [k]
    digits, that rounds back to the number, and among those of equal
    length the one nearest to it. *)

(** [p/q < 10^n]. *)
Definition lt_pow10 (p q n : Z) : bool :=
  let '(a, b) := scale10 p q (- n) in a <? b.

(** The [n] with [10^(n-1) <= p/q < 10^n], for [0 < p/q]. *)
Definition decimal_exponent (p q : Z) : Z :=
  let est := (Z.log2 p - Z.log2 q) * 30103 / 100000 in
  match find (lt_pow10 p q)
             [est - 2; est - 1; est; est + 1; est + 2; est + 3] with
  | Some n => n
  | None => est + 4
  end.

(** Does [s * 10^d] round to the value [vp/vq]? *)
Definition rounds_to (s d vp vq : Z) : bool :=
  let '(a, b) := scale10 s 1 d in
  match round_binary64 false a b with
  | Finite _ m e => let '(rp, rq) := ratio false m e in rp * vq =? vp * rq
  | _ => false
  end.

(** [| s * 10^d - vp/vq |] as a fraction. *)
Definition distance (s d vp vq : Z) : Z * Z :=
  let '(a, b) := scale10 s 1 d in (Z.abs (a * vq - vp * b), b * vq).

(** The candidates with [k] digits and exponent [n]: the two integers
    around [vp/vq * 10^(k-n)] that have [k] digits and round back. *)
Definition candidates (vp vq k n : Z) : list (Z * Z) :=
  let '(a, b) := scale10 vp vq (k - n) in
  let lo := a / b in
  filter (fun sn => (10 ^ (k - 1) <=? fst sn) && (fst sn <? 10 ^ k)
                    && rounds_to (fst sn) (n - k) vp vq)
         [(lo, n); (lo + 1, n)].

(** The nearer of two candidates; the even one on a tie. *)
Definition nearer (vp vq k : Z) (x y : Z * Z) : Z * Z :=
  let '(dx, ex) := distance (fst x) (snd x - k) vp vq in
  let '(dy, ey) := distance (fst y) (snd y - k) vp vq in
  match dx * ey ?= dy * ex with
  | Lt => x
  | Gt => y
  | Eq => if Z.even (fst x) then x else y
  end.

Definition nearest (vp vq k : Z) (l : list (Z * Z)) : option (Z * Z) :=
  match l with
  | [] => None
  | x :: r => Some (fold_left (nearer vp vq k) r x)
  end.

(** Search for the least number of digits, [k = 1, 2, ...]; seventeen
    digits determine a binary64 value. *)
Fixpoint shortest_digits (fuel : nat) (vp vq n0 k : Z) : Z * Z * Z :=
  match fuel with
  | O => (fst (scale10 vp vq (k - n0)) / snd (scale10 vp vq (k - n0)), k, n0)
  | S fuel' =>
      match nearest vp vq k (candidates vp vq k n0
                             ++ candidates vp vq k (n0 + 1)) with
      | Some (s, n) => (s, k, n)
      | None => shortest_digits fuel' vp vq n0 (k + 1)
      end
  end.

Definition zeros (n : Z) : jsstring := repeat 48%N (Z.to_nat n).

(** Steps 6 to 10 of Number::toString: the layout of [s] ([k] digits)
    with the decimal point after the [n]-th digit. *)
Definition layout_digits (s k n : Z) : jsstring :=
  let ds := decimal_string s in
  if (-5 <=? n) && (n <=? 21) then
    if k <=? n then ds ++ zeros (n - k)
    else if 0 <? n then firstn (Z.to_nat n) ds ++ lit "." ++ skipn (Z.to_nat n) ds
    else lit "0." ++ zeros (- n) ++ ds
  else
    let c := n - 1 in
    let ex := (if c <? 0 then lit "e-" else lit "e+") ++ decimal_string (Z.abs c) in
    if k =? 1 then ds ++ ex
    else firstn 1 ds ++ lit "." ++ skipn 1 ds ++ ex.

Definition Number_toString (x : number) : jsstring :=
  match x with
  | NaN => lit "NaN"
  | Infinity neg => if neg then lit "-Infinity" else lit "Infinity"
  | Finite neg m e =>
      if (m =? 0)%N then lit "0"
      else
        let '(vp, vq) := ratio false m e in
        let '(s, k, n) := shortest_digits 17 vp vq (decimal_exponent vp vq) 1 in
        (if neg then lit "-" else []) ++ layout_digits s k n
  end.

(** *** StringToNumber, the ToNumber conversion of a string *)

(** [digits [. digits] [e [+-] digits]] with at least one digit before the
    exponent; the value as mantissa and decimal exponent. *)
Definition parse_exponent (s : jsstring) : option Z :=
  match s with
  | [] => Some 0
  | c :: r =>
      if (c =? 101)%N || (c =? 69)%N then
        let '(neg, r') :=
          match r with
          | 43%N :: r' => (false, r')
          | 45%N :: r' => (true, r')
          | _ => (false, r)
          end in
        match r', digits_value 10 0 r' with
        | _ :: _, Some v => Some (if neg then - v else v)
        | _, _ => None
        end
      else None
  end.

Definition parse_unsigned_decimal (s : jsstring) : option (Z * Z) :=
  let '(ip, r1) := span_digits s in
  let '(fp, r2) :=
    match r1 with
    | 46%N :: r => span_digits r
    | _ => ([], r1)
    end in
  match ip ++ fp, digits_value 10 0 (ip ++ fp), parse_exponent r2 with
  | _ :: _, Some d, Some ex => Some (d, ex - Z.of_nat (length fp))
  | _, _, _ => None
  end.

Definition decimal_to_number (neg : bool) (d ex : Z) : number :=
  let '(p, q) := scale10 d 1 ex in round_binary64 neg p q.

Definition parse_str_decimal (s : jsstring) : number :=
  let '(neg, r) :=
    match s with
    | 43%N :: r => (false, r)
    | 45%N :: r => (true, r)
    | _ => (false, s)
    end in
  if str_eqb r (lit "Infinity") then Infinity neg
  else match parse_unsigned_decimal r with
       | Some (d, ex) => decimal_to_number neg d ex
       | None => NaN
       end.

Definition parse_radix (radix : Z) (s : jsstring) : number :=
  match s, digits_value radix 0 s with
  | _ :: _, Some v => round_binary64 false v 1
  | _, _ => NaN
  end.

Definition StringToNumber (s : jsstring) : number :=
  match trim s with
  | [] => Finite false 0 0
  | 48%N :: c :: r =>
      if (c =? 120)%N || (c =? 88)%N then parse_radix 16 r
      else if (c =? 111)%N || (c =? 79)%N then parse_radix 8 r
      else if (c =? 98)%N || (c =? 66)%N then parse_radix 2 r
      else parse_str_decimal (trim s)
  | t => parse_str_decimal t
  end.

(** ** Values

    The values a program meets when all its data comes out of
    [JSON.parse]: primitives, arrays and plain objects, and [undefined]
    for what is absent.  An object is the list of its own properties in
    creation order; all its other properties are those of
    [Object.prototype].  The code modelled here reads properties by
    name and never enumerates them, so the order is not observed. *)

Inductive value :=
| VUndefined
| VNull
| VBool (b : bool)
| VNum (n : number)
| VStr (s : jsstring)
| VArr (elems : list value)
| VObj (props : list (jsstring * value)).

(** What a [throw] carries.  [External] stands for whatever the model
    SDK throws or rejects with. *)
Inductive exn :=
| TypeError
| SyntaxError
| Error (message : jsstring)
| External (detail : jsstring).

(** A completion: a value or a thrown exception. *)
Inductive completion (A : Type) :=
| Ok (a : A)
| Throw (e : exn).

Arguments Ok {A} a.
Arguments Throw {A} e.

Definition cbind {A B} (c : completion A) (f : A -> completion B) : completion B :=
  match c with
  | Ok a => f a
  | Throw e => Throw e
  end.

Fixpoint own_property (props : list (jsstring * value)) (k : jsstring) : option value :=
  match props with
  | [] => None
  | (k', v) :: r => if str_eqb k k' then Some v else own_property r k
  end.

(** CreateDataProperty on a plain object: an existing key keeps its
    place and takes the new value, a new key goes last. *)
Fixpoint define_property (props : list (jsstring * value)) (k : jsstring) (v : value)
  : list (jsstring * value) :=
  match props with
  | [] => [(k, v)]
  | (k', v') :: r => if str_eqb k k' then (k', v) :: r
                     else (k', v') :: define_property r k v
  end.

(** ToBoolean. *)
Definition ToBoolean (v : value) : bool :=
  match v with
  | VUndefined | VNull => false
  | VBool b => b
  | VNum n => number_truthy n
  | VStr s => negb (Nat.eqb (length s) 0)
  | VArr _ | VObj _ => true
  end.

(** [v.k] for the property names this program reads ([text],
    [targetLanguages], [length]): an own property of an object, the
    [length] of a string or an array, and [undefined] everywhere else.
    Reading a property of [null] or [undefined] throws. *)
Definition Get (v : value) (k : jsstring) : completion value :=
  match v with
  | VUndefined | VNull => Throw TypeError
  | VBool _ | VNum _ => Ok VUndefined
  | VStr s => if str_eqb k (lit "length")
              then Ok (VNum (number_of_nat (length s))) else Ok VUndefined
  | VArr l => if str_eqb k (lit "length")
              then Ok (VNum (number_of_nat (length l))) else Ok VUndefined
  | VObj props => match own_property props k with
                  | Some x => Ok x
                  | None => Ok VUndefined
                  end
  end.

(** ToString.  An array converts through [Array.prototype.join] with a
    comma, where [undefined] and [null] elements give the empty string.
    A plain object converts through [Object.prototype.toString], unless
    an own property hides that method: nothing callable comes out of
    [JSON.parse], and the conversion throws. *)
Fixpoint ToString (v : value) : completion jsstring :=
  match v with
  | VUndefined => Ok (lit "undefined")
  | VNull => Ok (lit "null")
  | VBool b => Ok (if b then lit "true" else lit "false")
  | VNum n => Ok (Number_toString n)
  | VStr s => Ok s
  | VArr l =>
      cbind
        ((fix elements (l : list value) : completion (list jsstring) :=
            match l with
            | [] => Ok []
            | x :: r =>
                cbind (match x with
                       | VUndefined | VNull => Ok []
                       | _ => ToString x
                       end)
                      (fun s => cbind (elements r) (fun ss => Ok (s :: ss)))
            end) l)
        (fun ss => Ok (join_strings (lit ",") ss))
  | VObj props =>
      match own_property props (lit "toString") with
      | Some _ => Throw TypeError
      | None => Ok (lit "[object Object]")
      end
  end.

(** The strings of the elements of an array, as [join] takes them. *)
Fixpoint element_strings (l : list value) : completion (list jsstring) :=
  match l with
  | [] => Ok []
  | x :: r =>
      cbind (match x with
             | VUndefined | VNull => Ok []
             | _ => ToString x
             end)
            (fun s => cbind (element_strings r) (fun ss => Ok (s :: ss)))
  end.

(** [Array.prototype.join]. *)
Definition Array_join (l : list value) (sep : jsstring) : completion jsstring :=
  cbind (element_strings l) (fun ss => Ok (join_strings sep ss)).

(** [v.join(sep)]: only an array has a [join] that can be called. *)
Definition call_join (v : value) (sep : jsstring) : completion jsstring :=
  match v with
  | VArr l => Array_join l sep
  | _ => Throw TypeError
  end.

(** ToNumber.  Arrays and objects go through ToPrimitive first, which
    for these values is ToString. *)
Definition ToNumber (v : value) : completion number :=
  match v with
  | VUndefined => Ok NaN
  | VNull => Ok (Finite false 0 0)
  | VBool b => Ok (Finite false (if b then 1 else 0) 0)
  | VNum n => Ok n
  | VStr s => Ok (StringToNumber s)
  | VArr _ | VObj _ => cbind (ToString v) (fun s => Ok (StringToNumber s))
  end.

(** [v > c] for an integer literal [c]. *)
Definition greater_than (v : value) (c : Z) : completion bool :=
  cbind (ToNumber v) (fun n => Ok (number_gt_Z n c)).

(** [v !== c] for an integer literal [c]. *)
Definition strict_not_equal (v : value) (c : Z) : bool :=
  match v with
  | VNum n => negb (number_eq_Z n c)
  | _ => true
  end.

(** ** JSON.parse

    The JSON grammar, read in two passes that each consume their input
    one item at a time: a lexer over code units and a push-down parser
    over tokens. *)

Inductive token :=
| TLBrace | TRBrace | TLBracket | TRBracket | TColon | TComma
| TString (s : jsstring)
| TNumber (n : number)
| TLiteral (v : value).

(** Where the lexer is inside a number: an optional minus sign; a zero
    or a digit sequence without leading zero; optionally a dot and at
    least one digit; optionally [e] or [E], a sign and at least one
    digit. *)
Inductive num_state :=
| NMinus | NZero | NInt | NDot | NFrac | NExp | NExpSign | NExpDigits.

(** The digits read so far: sign, mantissa, number of fraction digits,
    sign and value of the exponent. *)
Record num_acc := mk_num_acc {
  n_neg : bool; n_mant : Z; n_frac : Z; n_eneg : bool; n_exp : Z }.

Inductive lex_state :=
| LStart
| LString (acc : jsstring)
| LEscape (acc : jsstring)
| LUnicode (acc : jsstring) (k : nat) (code : Z)
| LLiteral (rest : jsstring) (v : value)
| LNumber (st : num_state) (a : num_acc).

Definition num_accepting (st : num_state) : bool :=
  match st with
  | NZero | NInt | NFrac | NExpDigits => true
  | _ => false
  end.

Definition num_token (a : num_acc) : token :=
  TNumber (decimal_to_number (n_neg a) (n_mant a)
             ((if n_eneg a then - n_exp a else n_exp a) - n_frac a)).

Definition add_mant (a : num_acc) (c : N) : num_acc :=
  mk_num_acc (n_neg a) (n_mant a * 10 + digit_value c) (n_frac a) (n_eneg a) (n_exp a).

Definition add_frac (a : num_acc) (c : N) : num_acc :=
  mk_num_acc (n_neg a) (n_mant a * 10 + digit_value c) (n_frac a + 1) (n_eneg a) (n_exp a).

Definition add_exp (a : num_acc) (c : N) : num_acc :=
  mk_num_acc (n_neg a) (n_mant a) (n_frac a) (n_eneg a) (n_exp a * 10 + digit_value c).

Definition neg_exp (a : num_acc) : num_acc :=
  mk_num_acc (n_neg a) (n_mant a) (n_frac a) true (n_exp a).

Definition is_e (c : N) : bool := ((c =? 101) || (c =? 69))%N.

(** One more code unit of a number; [None] when [c] is not part of it. *)
Definition num_step (st : num_state) (a : num_acc) (c : N) : option lex_state :=
  match st with
  | NMinus => if (c =? 48)%N then Some (LNumber NZero a)
              else if is_digit c then Some (LNumber NInt (add_mant a c))
              else None
  | NZero => if (c =? 46)%N then Some (LNumber NDot a)
             else if is_e c then Some (LNumber NExp a)
             else None
  | NInt => if is_digit c then Some (LNumber NInt (add_mant a c))
            else if (c =? 46)%N then Some (LNumber NDot a)
            else if is_e c then Some (LNumber NExp a)
            else None
  | NDot => if is_digit c then Some (LNumber NFrac (add_frac a c)) else None
  | NFrac => if is_digit c then Some (LNumber NFrac (add_frac a c))
             else if is_e c then Some (LNumber NExp a)
             else None
  | NExp => if (c =? 43)%N then Some (LNumber NExpSign a)
            else if (c =? 45)%N then Some (LNumber NExpSign (neg_exp a))
            else if is_digit c then Some (LNumber NExpDigits (add_exp a c))
            else None
  | NExpSign => if is_digit c then Some (LNumber NExpDigits (add_exp a c)) else None
  | NExpDigits => if is_digit c then Some (LNumber NExpDigits (add_exp a c)) else None
  end.

Definition num_start (neg : bool) : num_acc := mk_num_acc neg 0 0 false 0.

(** A code unit where a token may start. *)
Definition lex_start (c : N) : option (list token * lex_state) :=
  match c with
  | 9 | 10 | 13 | 32 => Some ([], LStart)
  | 123 => Some ([TLBrace], LStart)
  | 125 => Some ([TRBrace], LStart)
  | 91 => Some ([TLBracket], LStart)
  | 93 => Some ([TRBracket], LStart)
  | 58 => Some ([TColon], LStart)
  | 44 => Some ([TComma], LStart)
  | 34 => Some ([], LString [])
  | 45 => Some ([], LNumber NMinus (num_start true))
  | 48 => Some ([], LNumber NZero (num_start false))
  | 116 => Some ([], LLiteral (lit "rue") (VBool true))
  | 102 => Some ([], LLiteral (lit "alse") (VBool false))
  | 110 => Some ([], LLiteral (lit "ull") VNull)
  | _ => if is_digit c
         then Some ([], LNumber NInt (add_mant (num_start false) c))
         else None
  end%N.

Definition escape_char (c : N) : option N :=
  match c with
  | 34 => Some 34 | 92 => Some 92 | 47 => Some 47
  | 98 => Some 8 | 102 => Some 12 | 110 => Some 10
  | 114 => Some 13 | 116 => Some 9
  | _ => None
  end%N.

(** The lexer's transition on one code unit; [None] is a SyntaxError.
    String contents are accumulated in reverse. *)
Definition lex_step (st : lex_state) (c : N) : option (list token * lex_state) :=
  match st with
  | LStart => lex_start c
  | LString acc =>
      if (c =? 34)%N then Some ([TString (rev acc)], LStart)
      else if (c =? 92)%N then Some ([], LEscape acc)
      else if (c <? 32)%N then None
      else Some ([], LString (c :: acc))
  | LEscape acc =>
      if (c =? 117)%N then Some ([], LUnicode acc 3 0)
      else match escape_char c with
           | Some x => Some ([], LString (x :: acc))
           | None => None
           end
  | LUnicode acc k code =>
      match hex_value c, k with
      | Some d, O => Some ([], LString (Z.to_N (code * 16 + d) :: acc))
      | Some d, S k' => Some ([], LUnicode acc k' (code * 16 + d))
      | None, _ => None
      end
  | LLiteral rest v =>
      match rest with
      | [x] => if (c =? x)%N then Some ([TLiteral v], LStart) else None
      | x :: rest' => if (c =? x)%N then Some ([], LLiteral rest' v) else None
      | [] => None
      end
  | LNumber ns a =>
      match num_step ns a c with
      | Some st' => Some ([], st')
      | None =>
          if num_accepting ns then
            match lex_start c with
            | Some (ts, st') => Some (num_token a :: ts, st')
            | None => None
            end
          else None
      end
  end.

Fixpoint lex (st : lex_state) (s : jsstring) : option (list token) :=
  match s with
  | [] =>
      match st with
      | LStart => Some []
      | LNumber ns a => if num_accepting ns then Some [num_token a] else None
      | _ => None
      end
  | c :: r =>
      match lex_step st c with
      | Some (ts, st') =>
          match lex st' r with
          | Some ts' => Some (ts ++ ts')
          | None => None
          end
      | None => None
      end
  end.

(** The containers that are open around the point being parsed. *)
Inductive frame :=
| FArray (done : list value)
| FObject (done : list (jsstring * value)) (key : jsstring).

Inductive parse_state :=
| PValue (stack : list frame)
| PArrayFirst (stack : list frame)
| PObjectFirst (stack : list frame)
| PKey (done : list (jsstring * value)) (stack : list frame)
| PColon (done : list (jsstring * value)) (key : jsstring) (stack : list frame)
| PAfter (v : value) (stack : list frame).

Definition parse_value_start (stack : list frame) (t : token) : option parse_state :=
  match t with
  | TLBracket => Some (PArrayFirst stack)
  | TLBrace => Some (PObjectFirst stack)
  | TString s => Some (PAfter (VStr s) stack)
  | TNumber n => Some (PAfter (VNum n) stack)
  | TLiteral v => Some (PAfter v stack)
  | _ => None
  end.

(** The parser's transition on one token; [None] is a SyntaxError.
    Array elements are accumulated in reverse. *)
Definition parse_step (st : parse_state) (t : token) : option parse_state :=
  match st with
  | PValue stack => parse_value_start stack t
  | PArrayFirst stack =>
      match t with
      | TRBracket => Some (PAfter (VArr []) stack)
      | _ => parse_value_start (FArray [] :: stack) t
      end
  | PObjectFirst stack =>
      match t with
      | TRBrace => Some (PAfter (VObj []) stack)
      | TString k => Some (PColon [] k stack)
      | _ => None
      end
  | PKey done stack =>
      match t with
      | TString k => Some (PColon done k stack)
      | _ => None
      end
  | PColon done k stack =>
      match t with
      | TColon => Some (PValue (FObject done k :: stack))
      | _ => None
      end
  | PAfter v (FArray done :: stack) =>
      match t with
      | TComma => Some (PValue (FArray (v :: done) :: stack))
      | TRBracket => Some (PAfter (VArr (rev (v :: done))) stack)
      | _ => None
      end
  | PAfter v (FObject done k :: stack) =>
      match t with
      | TComma => Some (PKey (define_property done k v) stack)
      | TRBrace => Some (PAfter (VObj (define_property done k v)) stack)
      | _ => None
      end
  | PAfter v [] => None
  end.

Fixpoint parse_tokens (st : parse_state) (ts : list token) : option value :=
  match ts with
  | [] => match st with
          | PAfter v [] => Some v
          | _ => None
          end
  | t :: r => match parse_step st t with
              | Some st' => parse_tokens st' r
              | None => None
              end
  end.

(** [JSON.parse(text)]; it throws a SyntaxError on anything that is not
    one JSON value. *)
Definition JSON_parse (text : jsstring) : completion value :=
  match lex LStart text with
  | Some ts => match parse_tokens (PValue []) ts with
               | Some v => Ok v
               | None => Throw SyntaxError
               end
  | None => Throw SyntaxError
  end.

(** ** JSON.stringify *)

Definition is_high_surrogate (c : N) : bool := ((55296 <=? c) && (c <=? 56319))%N.

Definition is_low_surrogate (c : N) : bool := ((56320 <=? c) && (c <=? 57343))%N.

(** A lower-case hexadecimal digit. *)
Definition hex_digit (d : N) : N := (if d <? 10 then 48 + d else 87 + d)%N.

(** The escape [\uXXXX] of a code unit. *)
Definition unicode_escape (c : N) : jsstring :=
  [92; 117; hex_digit (c / 4096); hex_digit ((c / 256) mod 16);
   hex_digit ((c / 16) mod 16); hex_digit (c mod 16)]%N.

(** QuoteJSONString on one code unit that is not the first half of a
    surrogate pair. *)
Definition quote_unit (c : N) : jsstring :=
  (if c =? 8 then [92; 98]
   else if c =? 9 then [92; 116]
   else if c =? 10 then [92; 110]
   else if c =? 12 then [92; 102]
   else if c =? 13 then [92; 114]
   else if c =? 34 then [92; 34]
   else if c =? 92 then [92; 92]
   else if (c <? 32) || is_high_surrogate c || is_low_surrogate c then unicode_escape c
   else [c])%N.

(** The code points of the string, one after the other: a surrogate
    pair is copied, a lone surrogate is escaped. *)
Fixpoint quote_units (s : jsstring) : jsstring :=
  match s with
  | [] => []
  | c :: r =>
      match r with
      | d :: r' =>
          if is_high_surrogate c && is_low_surrogate d
          then c :: d :: quote_units r'
          else quote_unit c ++ quote_units r
      | [] => quote_unit c
      end
  end.

Definition QuoteJSONString (s : jsstring) : jsstring :=
  dquote :: quote_units s ++ [dquote].

(** An array index: the canonical decimal form of an integer below
    [2^32 - 1]. *)
Definition array_index (k : jsstring) : option Z :=
  match k with
  | [] => None
  | c :: r =>
      if forallb is_digit k && (negb (c =? 48)%N || Nat.eqb (length r) 0) then
        match digits_value 10 0 k with
        | Some i => if i <? 2 ^ 32 - 1 then Some i else None
        | None => None
        end
      else None
  end.

Fixpoint insert_by_index {A} (i : Z) (x : A) (l : list (Z * A)) : list (Z * A) :=
  match l with
  | [] => [(i, x)]
  | (j, y) :: r => if i <? j then (i, x) :: l else (j, y) :: insert_by_index i x r
  end.

(** The order in which the own properties of an object are enumerated:
    array indices first, in ascending order, then the other keys in
    creation order. *)
Definition enumeration_order {A} (props : list (jsstring * A)) : list (jsstring * A) :=
  map snd
    (fold_right (fun kv acc => match array_index (fst kv) with
                               | Some i => insert_by_index i kv acc
                               | None => acc
                               end) [] props)
  ++ filter (fun kv => match array_index (fst kv) with
                       | Some _ => false
                       | None => true
                       end) props.

(** [JSON.stringify(v)] without replacer and indentation; [None] is
    [undefined].  An [undefined] element of an array is written as
    [null], an [undefined] property is left out, and a number that is
    not finite is written as [null]. *)
Fixpoint JSON_stringify (v : value) : option jsstring :=
  match v with
  | VUndefined => None
  | VNull => Some (lit "null")
  | VBool b => Some (if b then lit "true" else lit "false")
  | VNum n =>
      match n with
      | Finite _ _ _ => Some (Number_toString n)
      | _ => Some (lit "null")
      end
  | VStr s => Some (QuoteJSONString s)
  | VArr l =>
      Some (lit "[" ++ join_strings (lit ",")
                         (map (fun x => match JSON_stringify x with
                                        | Some t => t
                                        | None => lit "null"
                                        end) l)
            ++ lit "]")
  | VObj props =>
      Some (lit "{" ++ join_strings (lit ",")
                         (flat_map (fun kt => match snd kt with
                                              | Some t => [QuoteJSONString (fst kt) ++ lit ":" ++ t]
                                              | None => []
                                              end)
                            (enumeration_order
                               (map (fun kv => (fst kv, JSON_stringify (snd kv))) props)))
            ++ lit "}")
  end.

(** ** UTF-8 on the wire

    A body travels as bytes.  The string that a client hands to [fetch]
    is encoded as UTF-8, after a surrogate without its partner has been
    replaced by U+FFFD; [json()] decodes the bytes, drops a byte order
    mark at their start, and parses the text. *)

Definition is_surrogate (c : N) : bool := is_high_surrogate c || is_low_surrogate c.

(** The scalar values of a string: a surrogate pair is one code point,
    and a surrogate without its partner is U+FFFD. *)
Fixpoint scalar_values (s : jsstring) : list N :=
  match s with
  | [] => []
  | c :: r =>
      match r with
      | d :: r' =>
          if is_high_surrogate c && is_low_surrogate d
          then (65536 + (c - 55296) * 1024 + (d - 56320))%N :: scalar_values r'
          else (if is_surrogate c then 65533%N else c) :: scalar_values r
      | [] => [if is_surrogate c then 65533%N else c]
      end
  end.

(** The code units of a code point. *)
Definition code_units (cp : N) : jsstring :=
  (if cp <? 65536 then [cp]
   else [55296 + (cp - 65536) / 1024; 56320 + (cp - 65536) mod 1024])%N.

Definition byte_of_N (n : N) : Byte.byte :=
  match Byte.of_N n with
  | Some b => b
  | None => Byte.x00
  end.

(** The UTF-8 encoder on one scalar value: one to four bytes. *)
Definition utf8_encode_scalar (cp : N) : list Byte.byte :=
  map byte_of_N
    (if cp <? 128 then [cp]
     else if cp <? 2048 then [192 + cp / 64; 128 + cp mod 64]
     else if cp <? 65536 then [224 + cp / 4096; 128 + (cp / 64) mod 64; 128 + cp mod 64]
     else [240 + cp / 262144; 128 + (cp / 4096) mod 64; 128 + (cp / 64) mod 64;
           128 + cp mod 64])%N.

(** The bytes that carry a string. *)
Definition UTF8_encode (s : jsstring) : list Byte.byte :=
  flat_map utf8_encode_scalar (scalar_values s).

(** The UTF-8 decoder between two bytes: nothing is pending, or the
    bits read so far of a code point, the number of bytes needed after
    the next one, and the bounds of the next one. *)
Inductive utf8_state :=
| UStart
| UMore (code_point : N) (needed : nat) (lower upper : N).

(** A byte where a code point may start.  The bounds of the second byte
    keep out the encodings that are longer than needed, the surrogates
    and what lies above U+10FFFF. *)
Definition utf8_start (b : N) : jsstring * utf8_state :=
  (if b <=? 127 then ([b], UStart)
   else if (194 <=? b) && (b <=? 223) then ([], UMore (b mod 32) 0 128 191)
   else if (224 <=? b) && (b <=? 239) then
     ([], UMore (b mod 16) 1 (if b =? 224 then 160 else 128) (if b =? 237 then 159 else 191))
   else if (240 <=? b) && (b <=? 244) then
     ([], UMore (b mod 8) 2 (if b =? 240 then 144 else 128) (if b =? 244 then 143 else 191))
   else ([65533], UStart))%N.

(** The decoder's transition on one byte, with the code units it emits.
    A byte that cannot continue the pending code point gives U+FFFD and
    is read again as a first byte. *)
Definition utf8_step (st : utf8_state) (b : N) : jsstring * utf8_state :=
  match st with
  | UStart => utf8_start b
  | UMore cp needed lower upper =>
      if ((lower <=? b) && (b <=? upper))%N then
        match needed with
        | O => (code_units (cp * 64 + b mod 64), UStart)
        | S k => ([], UMore (cp * 64 + b mod 64) k 128 191)
        end
      else let '(out, st') := utf8_start b in (65533%N :: out, st')
  end.

(** A code point that is pending at the end gives U+FFFD. *)
Fixpoint utf8_decode_from (st : utf8_state) (bytes : list Byte.byte) : jsstring :=
  match bytes with
  | [] => match st with
          | UStart => []
          | UMore _ _ _ _ => [65533%N]
          end
  | b :: r => let '(out, st') := utf8_step st (Byte.to_N b) in out ++ utf8_decode_from st' r
  end.

(** UTF-8 decode: the byte order mark EF BB BF at the start is dropped,
    and what is not UTF-8 is replaced by U+FFFD. *)
Definition UTF8_decode (bytes : list Byte.byte) : jsstring :=
  match bytes with
  | b1 :: b2 :: b3 :: r =>
      if ((Byte.to_N b1 =? 239) && (Byte.to_N b2 =? 187) && (Byte.to_N b3 =? 191))%N
      then utf8_decode_from UStart r
      else utf8_decode_from UStart bytes
  | _ => utf8_decode_from UStart bytes
  end.

(** The string with U+FFFD in the place of every surrogate that has no
    partner. *)
Fixpoint to_well_formed (s : jsstring) : jsstring :=
  match s with
  | [] => []
  | c :: r =>
      match r with
      | d :: r' =>
          if is_high_surrogate c && is_low_surrogate d
          then c :: d :: to_well_formed r'
          else (if is_surrogate c then 65533%N else c) :: to_well_formed r
      | [] => [if is_surrogate c then 65533%N else c]
      end
  end.

(** The text that arrives when the string [s] was sent: what
    [UTF8_decode] gives for the bytes of [UTF8_encode s], said on the
    string itself.  Every surrogate without a partner has become U+FFFD,
    and a byte order mark U+FEFF at the start is gone. *)
Definition UTF8_text (s : jsstring) : jsstring :=
  match to_well_formed s with
  | c :: r => if (c =? 65279)%N then r else c :: r
  | [] => []
  end.

End JS.

Import JS.

(* ================================================================== *)
(** * Part II.  Effects: the external model, the console, exceptions *)
(* ================================================================== *)

(** What [chatSession.sendMessage] resolves to: an object whose
    [response.text()] returns the reply or throws. *)
Record GenerateContentResult := mk_result { response_text : completion jsstring }.

(** The external model: for each prompt, the promise of [sendMessage]
    is rejected or resolves to a result.  The program cannot tell
    anything else about the service, and calls it at most once per
    request. *)
Definition Model := jsstring -> completion GenerateContentResult.

(** What a run leaves behind, in order.  [EvTranslateText] marks an
    entry into [translateText] with its two arguments; [EvSendMessage]
    is a request sent to the external model; [EvConsoleError] is a line
    of the server log. *)
Inductive event :=
| EvTranslateText (userMessage targetLanguages : value)
| EvSendMessage (prompt : jsstring)
| EvConsoleError (label : jsstring) (error : exn).

(** A computation runs against the model and yields its events and its
    completion. *)
Definition M (A : Type) := Model -> list event * completion A.

Definition ret {A} (a : A) : M A := fun _ => ([], Ok a).

Definition throw {A} (e : exn) : M A := fun _ => ([], Throw e).

Definition bind {A B} (m : M A) (f : A -> M B) : M B :=
  fun model =>
    match m model with
    | (t1, Ok a) => let '(t2, r) := f a model in (t1 ++ t2, r)
    | (t1, Throw e) => (t1, Throw e)
    end.

(** [try { m } catch (error) { handler }]. *)
Definition try_catch {A} (m : M A) (handler : exn -> M A) : M A :=
  fun model =>
    match m model with
    | (t1, Ok a) => (t1, Ok a)
    | (t1, Throw e) => let '(t2, r) := handler e model in (t1 ++ t2, r)
    end.

Definition lift {A} (c : completion A) : M A := fun _ => ([], c).

Definition emit (ev : event) : M unit := fun _ => ([ev], Ok tt).

Definition console_error (label : jsstring) (error : exn) : M unit :=
  emit (EvConsoleError label error).

(** [await chatSession.sendMessage(prompt)]. *)
Definition sendMessage (prompt : jsstring) : M GenerateContentResult :=
  fun model => ([EvSendMessage prompt], model prompt).

Declare Scope monad_scope.
Delimit Scope monad_scope with monad.
Notation "x <- c ;; k" := (bind c (fun x => k))
  (at level 61, c at next level, right associativity) : monad_scope.
Notation "c ;; k" := (bind c (fun _ => k))
  (at level 61, right associativity) : monad_scope.
Open Scope monad_scope.

(** Observations on a trace. *)
Definition translateText_calls (t : list event) : list (value * value) :=
  flat_map (fun ev => match ev with
                      | EvTranslateText u l => [(u, l)]
                      | _ => []
                      end) t.

Definition model_requests (t : list event) : list jsstring :=
  flat_map (fun ev => match ev with
                      | EvSendMessage p => [p]
                      | _ => []
                      end) t.

(* ================================================================== *)
(** * Part III.  src/utils/gemini.ts *)
(* ================================================================== *)

Module Gemini.

(** The template literal of [promptTemplate]: the message between
    double quotes, then the languages joined by a comma and a space. *)
Definition prompt_text (userMessage languages : jsstring) : jsstring :=
  lit "Translate the following text: " ++ [dquote] ++ userMessage ++ [dquote]
  ++ lit " into the following languages: " ++ languages
  ++ lit ". Provide the translations as a JSON object with language codes as keys and translated texts as values.".

(** [promptTemplate(userMessage, targetLanguages)].  The two
    substitutions convert what they are given: the types of the
    parameters are not checked at run time. *)
Definition promptTemplate (userMessage targetLanguages : value) : completion jsstring :=
  cbind (ToString userMessage) (fun message =>
  cbind (call_join targetLanguages (lit ", ")) (fun languages =>
  Ok (prompt_text message languages))).

(** [translateText(userMessage, targetLanguages)].  The prompt is built
    before the [try]; the two awaits and [JSON.parse] are inside it. *)
Definition translateText (userMessage targetLanguages : value) : M value :=
  emit (EvTranslateText userMessage targetLanguages) ;;
  prompt <- lift (promptTemplate userMessage targetLanguages) ;;
  try_catch
    (result <- sendMessage prompt ;;
     responseText <- lift (response_text result) ;;
     translations <- lift (JSON_parse responseText) ;;
     ret translations)
    (fun error =>
       console_error (lit "Error during translation:") error ;;
       throw (Error (lit "Translation failed"))).

End Gemini.

(* ================================================================== *)
(** * Part IV.  src/app/api/translate/route.ts *)
(* ================================================================== *)

Module Route.

(** A request, as far as the handler looks at it: its body, given by
    the string that the client sent.  The body is the UTF-8 coding of
    that string; bytes that are not UTF-8 read as the string that has
    U+FFFD in their place. *)
Record Request := mk_request { request_body : jsstring }.

(** A response: the status and the value that [NextResponse.json]
    serialises as the body. *)
Record Response := mk_response { status : Z; body : value }.

(** [await request.json()]: the bytes of the body are decoded as UTF-8,
    without the byte order mark that may start them, and the text is
    parsed.  [UTF8_text] is that decoding, said on the string that was
    sent (lemma [UTF8_decode_encode]); no body is left out by this
    (lemma [every_body_reads_as_a_string]). *)
Definition request_json (request : Request) : completion value :=
  JSON_parse (UTF8_text (request_body request)).

(** [NextResponse.json(body, { status })]; the status is 200 when none
    is given. *)
Definition NextResponse_json (body : value) (status : Z) : Response :=
  mk_response status body.

(** [{ error: message }]. *)
Definition error_body (message : jsstring) : value :=
  VObj [(lit "error", VStr message)].

(** [{ translations }]. *)
Definition translations_body (translations : value) : value :=
  VObj [(lit "translations", translations)].

(** Line 15: [!text || text.length > 140]. *)
Definition text_rule_fails (text : value) : completion bool :=
  if negb (ToBoolean text) then Ok true
  else cbind (Get text (lit "length")) (fun len => greater_than len 140).

(** Line 22: [!targetLanguages || targetLanguages.length !== 3]. *)
Definition language_rule_fails (targetLanguages : value) : completion bool :=
  if negb (ToBoolean targetLanguages) then Ok true
  else cbind (Get targetLanguages (lit "length"))
             (fun len => Ok (strict_not_equal len 3)).

Definition POST (request : Request) : M Response :=
  try_catch
    (body <- lift (request_json request) ;;
     text <- lift (Get body (lit "text")) ;;
     targetLanguages <- lift (Get body (lit "targetLanguages")) ;;
     invalidText <- lift (text_rule_fails text) ;;
     if invalidText then
       ret (NextResponse_json
              (error_body (lit "Text is required and must be up to 140 characters."))
              400)
     else
       invalidLanguages <- lift (language_rule_fails targetLanguages) ;;
       if invalidLanguages then
         ret (NextResponse_json
                (error_body (lit "Please select exactly 3 target languages."))
                400)
       else
         translations <- Gemini.translateText text targetLanguages ;;
         ret (NextResponse_json (translations_body translations) 200))
    (fun error =>
       console_error (lit "API Translation Error:") error ;;
       ret (NextResponse_json
              (error_body (lit "An error occurred during translation."))
              500)).

End Route.

(* ================================================================== *)
(** * Part V.  src/components/ui/FullscreenTextInput.tsx *)
(* ================================================================== *)

Module FullscreenTextInput.

(** [handleSubmit] on the current [text] of the form: [Some t] when it
    calls [onSubmit(t)], [None] when it returns without calling it. *)
Definition handleSubmit (text : jsstring) : option jsstring :=
  if Nat.eqb (length (trim text)) 0 || Nat.ltb 140 (length text) then None
  else Some (trim text).

End FullscreenTextInput.

(* ================================================================== *)
(** * Part VI.  src/components/ui/LanguageSelectionModal.tsx *)
(* ================================================================== *)

Module LanguageSelectionModal.

Record Language := mk_language { code : jsstring; name : jsstring }.

Definition COMMON_LANGUAGES : list Language :=
  [ mk_language (lit "en") (lit "English");
    mk_language (lit "es") (lit "Spanish");
    mk_language (lit "zh") (lit "Chinese");
    mk_language (lit "hi") (lit "Hindi");
    mk_language (lit "ar") (lit "Arabic");
    mk_language (lit "bn") (lit "Bengali");
    mk_language (lit "fr") (lit "French");
    mk_language (lit "ru") (lit "Russian");
    mk_language (lit "pt") (lit "Portuguese");
    mk_language (lit "de") (lit "German");
    mk_language (lit "ja") (lit "Japanese");
    mk_language (lit "sw") (lit "Swahili");
    mk_language (lit "mwu") (lit "Murrinh-Patha");
    mk_language (lit "fa") (lit "Persian");
    mk_language (lit "ur") (lit "Urdu");
    mk_language (lit "it") (lit "Italian");
    mk_language (lit "ko") (lit "Korean");
    mk_language (lit "vi") (lit "Vietnamese");
    mk_language (lit "ta") (lit "Tamil") ].

(** The component between two events: the [isOpen] prop and the
    [selectedLanguages] state. *)
Record State := mk_state { isOpen : bool; selectedLanguages : list jsstring }.

(** [useState<string[]>([])], in a page that starts with the modal
    closed. *)
Definition initial : State := mk_state false [].

(** The updater that [toggleLanguage(code)] hands to
    [setSelectedLanguages]. *)
Definition toggleLanguage (code : jsstring) (prev : list jsstring) : list jsstring :=
  if includes prev code
  then filter (fun c => negb (str_eqb c code)) prev
  else prev ++ [code].

(** The [disabled] attribute of the checkbox of [code]. *)
Definition checkbox_disabled (selected : list jsstring) (code : jsstring) : bool :=
  negb (includes selected code) && Nat.leb 3 (length selected).

(** The [disabled] attribute of the Submit button. *)
Definition submit_disabled (selected : list jsstring) : bool :=
  negb (Nat.eqb (length selected) 3).

(** [handleSubmit]: [Some l] when it calls [onSelectLanguages(l)] and
    [onClose()], [None] when it does nothing. *)
Definition handleSubmit (selected : list jsstring) : option (list jsstring) :=
  if Nat.eqb (length selected) 3 then Some selected else None.

(** The effect on [isOpen]: a closed modal forgets its selection. *)
Definition reset_effect (s : State) : State :=
  if isOpen s then s else mk_state false [].

(** What can happen to the component: the page opens it, the user
    clicks a checkbox, Submit or Cancel. *)
Inductive action :=
| OpenModal
| ClickCheckbox (lang : Language)
| ClickSubmit
| ClickCancel.

(** The state after an action.  Nothing is rendered while the modal is
    closed, and a disabled control does not fire its handler.  Both
    [onClose] and [onSelectLanguages] make the page close the modal. *)
Definition perform (a : action) (s : State) : State :=
  match a with
  | OpenModal => reset_effect (mk_state true (selectedLanguages s))
  | ClickCheckbox lang =>
      if isOpen s && negb (checkbox_disabled (selectedLanguages s) (code lang))
      then mk_state (isOpen s) (toggleLanguage (code lang) (selectedLanguages s))
      else s
  | ClickSubmit =>
      if isOpen s && negb (submit_disabled (selectedLanguages s)) then
        match handleSubmit (selectedLanguages s) with
        | Some _ => reset_effect (mk_state false (selectedLanguages s))
        | None => s
        end
      else s
  | ClickCancel =>
      if isOpen s then reset_effect (mk_state false (selectedLanguages s)) else s
  end.

(** The actions the rendered component offers: a checkbox exists for
    each catalogue entry only. *)
Definition offered (a : action) : Prop :=
  match a with
  | ClickCheckbox lang => In lang COMMON_LANGUAGES
  | _ => True
  end.

Inductive reachable : State -> Prop :=
| reachable_initial : reachable initial
| reachable_step : forall s a, reachable s -> offered a -> reachable (perform a s).

End LanguageSelectionModal.

(* ================================================================== *)
(** * Part VII.  src/app/page.tsx *)
(* ================================================================== *)

Module Home.

(** The six state variables of the component.  [translations] and
    [error] hold whatever the response gave; [VNull] is [null]. *)
Record State := mk_state {
  inputText : jsstring;
  isModalOpen : bool;
  selectedLanguages : list jsstring;
  translations : value;
  isLoading : bool;
  error : value }.

Definition initial : State := mk_state [] false [] VNull false VNull.

(** What [fetch] is called with. *)
Record FetchRequest := mk_fetch {
  url : jsstring;
  method : jsstring;
  content_type : jsstring;
  body : option jsstring }.

(** What [fetch] resolves to, as far as the page looks at it: the [ok]
    flag and the outcome of [response.json()]. *)
Record FetchResponse := mk_fetch_response {
  ok : bool;
  json : completion value }.

Definition handleTextSubmit (text : jsstring) (s : State) : State :=
  mk_state text true (selectedLanguages s) (translations s) (isLoading s) (error s).

(** [handleLanguagesSubmit] up to its first [await]: the four state
    updates and the call of [fetch]. *)
Definition handleLanguagesSubmit_start (languages : list jsstring) (s : State)
  : State * FetchRequest :=
  (mk_state (inputText s) false languages (translations s) true VNull,
   mk_fetch (lit "/api/translate") (lit "POST") (lit "application/json")
     (JSON_stringify
        (VObj [(lit "text", VStr (inputText s));
               (lit "targetLanguages", VArr (map VStr languages))]))).

(** The body of the [try] after [fetch] has settled: [Ok s'] is the
    state it leaves when it ends or returns, [Throw e] what it throws. *)
Definition after_fetch (outcome : completion FetchResponse) (s : State) : completion State :=
  cbind outcome (fun response =>
  cbind (json response) (fun data =>
    if negb (ok response) then
      cbind (Get data (lit "error")) (fun e =>
        Ok (mk_state (inputText s) (isModalOpen s) (selectedLanguages s) (translations s)
              false
              (if ToBoolean e then e else VStr (lit "An unexpected error occurred."))))
    else
      cbind (Get data (lit "translations")) (fun t =>
        Ok (mk_state (inputText s) (isModalOpen s) (selectedLanguages s) t
              (isLoading s) (error s))))).

(** [handleLanguagesSubmit] from the moment [fetch] settles: the [try],
    the [catch] and the [finally]. *)
Definition handleLanguagesSubmit_finish (outcome : completion FetchResponse) (s : State)
  : list event * State :=
  match after_fetch outcome s with
  | Ok s' =>
      ([], mk_state (inputText s') (isModalOpen s') (selectedLanguages s')
             (translations s') false (error s'))
  | Throw err =>
      ([EvConsoleError (lit "Fetch Error:") err],
       mk_state (inputText s) (isModalOpen s) (selectedLanguages s) (translations s)
         false (VStr (lit "Failed to fetch translations.")))
  end.

(** The [onClose] that the page gives to the modal. *)
Definition onClose (s : State) : State :=
  mk_state (inputText s) false (selectedLanguages s) (translations s) (isLoading s) (error s).

Definition handleStartOver (s : State) : State :=
  mk_state [] (isModalOpen s) [] VNull (isLoading s) VNull.

(** The conditions of the JSX that [Home] returns (lines 65, 69, 75 and
    88): whether the input form, the loading notice, [TranslationDisplay]
    and the error banner are in the tree that [Home] hands to React.
    What a child makes of its place is the child's: [TranslationDisplay]
    is not embedded, and React refuses a translation that is an object
    where it expects a text. *)
Definition shows_input (s : State) : bool :=
  negb (ToBoolean (translations s)) && negb (isLoading s).

Definition shows_loading (s : State) : bool := isLoading s.

Definition shows_display (s : State) : bool := ToBoolean (translations s).

Definition shows_error (s : State) : bool := ToBoolean (error s).

End Home.

(* ================================================================== *)
(** * Part VIII.  The page with its three components, and the wire *)
(* ================================================================== *)

Module Page.

(** The page between two events: the state of [Home], the text in the
    textarea of [FullscreenTextInput] and the selection of
    [LanguageSelectionModal]. *)
Record State := mk_page {
  home : Home.State;
  draft : jsstring;
  picked : list jsstring }.

Definition initial : State := mk_page Home.initial [] [].

(** What the user and the network can do. *)
Inductive action :=
| TypeText (text : jsstring)
| SubmitText
| ClickCheckbox (lang : LanguageSelectionModal.Language)
| ClickSubmit
| ClickCancel
| FetchSettles (outcome : completion Home.FetchResponse)
| ClickStartOver.

(** What an action sends out. *)
Inductive output :=
| Fetch (request : Home.FetchRequest)
| Log (ev : event).

(** The modal as the page renders it. *)
Definition modal (p : State) : LanguageSelectionModal.State :=
  LanguageSelectionModal.mk_state (Home.isModalOpen (home p)) (picked p).

(** The page after [Home] has changed and everything is rendered again:
    [FullscreenTextInput] loses its text when it is unmounted, and the
    effect of the modal runs. *)
Definition render (h : Home.State) (draft : jsstring) (picked : list jsstring) : State :=
  mk_page h
    (if Home.shows_input h then draft else [])
    (LanguageSelectionModal.selectedLanguages
       (LanguageSelectionModal.reset_effect
          (LanguageSelectionModal.mk_state (Home.isModalOpen h) picked))).

(** One event.  A control that is not rendered, or is disabled, does
    not fire its handler; a settled [fetch] is only awaited while the
    page is loading. *)
Definition step (a : action) (p : State) : State * list output :=
  let h := home p in
  match a with
  | TypeText text =>
      if Home.shows_input h then (mk_page h text (picked p), []) else (p, [])
  | SubmitText =>
      if Home.shows_input h then
        match FullscreenTextInput.handleSubmit (draft p) with
        | Some t => (render (Home.handleTextSubmit t h) (draft p) (picked p), [])
        | None => (p, [])
        end
      else (p, [])
  | ClickCheckbox lang =>
      (mk_page h (draft p)
         (LanguageSelectionModal.selectedLanguages
            (LanguageSelectionModal.perform
               (LanguageSelectionModal.ClickCheckbox lang) (modal p))), [])
  | ClickSubmit =>
      if Home.isModalOpen h && negb (LanguageSelectionModal.submit_disabled (picked p)) then
        match LanguageSelectionModal.handleSubmit (picked p) with
        | Some languages =>
            let '(h', request) := Home.handleLanguagesSubmit_start languages h in
            (render (Home.onClose h') (draft p) (picked p), [Fetch request])
        | None => (p, [])
        end
      else (p, [])
  | ClickCancel =>
      if Home.isModalOpen h then (render (Home.onClose h) (draft p) (picked p), [])
      else (p, [])
  | FetchSettles outcome =>
      if Home.isLoading h then
        let '(log, h') := Home.handleLanguagesSubmit_finish outcome h in
        (render h' (draft p) (picked p), map Log log)
      else (p, [])
  | ClickStartOver =>
      if Home.shows_display h then (render (Home.handleStartOver h) (draft p) (picked p), [])
      else (p, [])
  end.

(** A checkbox exists for each catalogue entry only. *)
Definition offered (a : action) : Prop :=
  match a with
  | ClickCheckbox lang => In lang LanguageSelectionModal.COMMON_LANGUAGES
  | _ => True
  end.

Inductive reachable : State -> Prop :=
| reachable_initial : reachable initial
| reachable_step : forall p a, reachable p -> offered a -> reachable (fst (step a p)).

(** The requests among the outputs. *)
Definition fetches (out : list output) : list Home.FetchRequest :=
  flat_map (fun o => match o with Fetch r => [r] | Log _ => [] end) out.

End Page.

(** ** The wire between the page and the handler

    What [fetch] resolves to when the handler has answered: [ok] for a
    status from 200 to 299, and [response.json()] decodes and parses
    the bytes of the text that [NextResponse.json] wrote with
    [JSON.stringify]. *)
Definition deliver (r : Route.Response) : Home.FetchResponse :=
  Home.mk_fetch_response
    ((200 <=? Route.status r) && (Route.status r <=? 299))
    (match JSON_stringify (Route.body r) with
     | Some text => JSON_parse (UTF8_text text)
     | None => Throw SyntaxError
     end).

(* ================================================================== *)
(** * Part IX.  The vocabulary of the properties, and sample data *)
(* ================================================================== *)

(** The text of a body is missing, empty or longer than 140. *)
Definition text_missing_empty_or_long (text : value) : Prop :=
  text = VUndefined \/ text = VNull \/
  exists s, text = VStr s /\ (length s = 0 \/ 140 < length s)%nat.

(** The language list of a body is missing or not of length 3. *)
Definition languages_missing_or_not_three (targetLanguages : value) : Prop :=
  targetLanguages = VUndefined \/ targetLanguages = VNull \/
  exists l, targetLanguages = VArr l /\ length l <> 3%nat.

(** A flat mapping from strings to strings. *)
Definition flat_string_mapping (v : value) : Prop :=
  exists props, v = VObj props /\
                forall k x, In (k, x) props -> exists s, x = VStr s.


(** What the [try] block of [translateText] yields for a prompt: the
    parsed reply, or what one of its three steps threw. *)
Definition model_answer (model : Model) (prompt : jsstring) : completion value :=
  cbind (model prompt) (fun r => cbind (response_text r) JSON_parse).

(** The three responses that report a failure. *)
Definition InvalidText_response : Route.Response :=
  Route.mk_response 400
    (Route.error_body (lit "Text is required and must be up to 140 characters.")).

Definition InvalidLanguageCount_response : Route.Response :=
  Route.mk_response 400
    (Route.error_body (lit "Please select exactly 3 target languages.")).

Definition TranslationFailed_response : Route.Response :=
  Route.mk_response 500
    (Route.error_body (lit "An error occurred during translation.")).

(** ** The vocabulary of the further properties *)

(** What [console.error] was called with, in order. *)
Definition console_errors (t : list event) : list (jsstring * exn) :=
  flat_map (fun ev => match ev with
                      | EvConsoleError label e => [(label, e)]
                      | _ => []
                      end) t.

(** The six ways through the handler. *)
Inductive POST_path (request : Route.Request) (model : Model)
  : list event * completion Route.Response -> Prop :=
| path_caught_early e :
    POST_path request model
      ([EvConsoleError (lit "API Translation Error:") e], Ok TranslationFailed_response)
| path_invalid_text :
    POST_path request model ([], Ok InvalidText_response)
| path_invalid_languages :
    POST_path request model ([], Ok InvalidLanguageCount_response)
| path_prompt_throws body text targetLanguages e :
    Route.request_json request = Ok body ->
    Get body (lit "text") = Ok text ->
    Get body (lit "targetLanguages") = Ok targetLanguages ->
    Route.text_rule_fails text = Ok false ->
    Route.language_rule_fails targetLanguages = Ok false ->
    Gemini.promptTemplate text targetLanguages = Throw e ->
    POST_path request model
      ([EvTranslateText text targetLanguages;
        EvConsoleError (lit "API Translation Error:") e],
       Ok TranslationFailed_response)
| path_translation_fails body text targetLanguages prompt e :
    Route.request_json request = Ok body ->
    Get body (lit "text") = Ok text ->
    Get body (lit "targetLanguages") = Ok targetLanguages ->
    Route.text_rule_fails text = Ok false ->
    Route.language_rule_fails targetLanguages = Ok false ->
    Gemini.promptTemplate text targetLanguages = Ok prompt ->
    model_answer model prompt = Throw e ->
    POST_path request model
      ([EvTranslateText text targetLanguages;
        EvSendMessage prompt;
        EvConsoleError (lit "Error during translation:") e;
        EvConsoleError (lit "API Translation Error:") (Error (lit "Translation failed"))],
       Ok TranslationFailed_response)
| path_translated body text targetLanguages prompt translations :
    Route.request_json request = Ok body ->
    Get body (lit "text") = Ok text ->
    Get body (lit "targetLanguages") = Ok targetLanguages ->
    Route.text_rule_fails text = Ok false ->
    Route.language_rule_fails targetLanguages = Ok false ->
    Gemini.promptTemplate text targetLanguages = Ok prompt ->
    model_answer model prompt = Ok translations ->
    POST_path request model
      ([EvTranslateText text targetLanguages; EvSendMessage prompt],
       Ok (Route.mk_response 200 (Route.translations_body translations))).

(** Nothing but white space. *)
Definition blank (s : jsstring) : Prop := Forall (fun c => is_white_space c = true) s.

(** The first and the last code unit, if any, are not white space. *)
Definition tight (s : jsstring) : Prop :=
  (forall c r, s = c :: r -> is_white_space c = false)
  /\ (forall r c, s = r ++ [c] -> is_white_space c = false).

(** The codes of the catalogue of the modal. *)
Definition catalogue_codes : list jsstring :=
  map LanguageSelectionModal.code LanguageSelectionModal.COMMON_LANGUAGES.

(** What every reachable state of the modal satisfies. *)
Definition picker_invariant (s : LanguageSelectionModal.State) : Prop :=
  NoDup (LanguageSelectionModal.selectedLanguages s)
  /\ (forall c, In c (LanguageSelectionModal.selectedLanguages s) -> In c catalogue_codes)
  /\ (LanguageSelectionModal.isOpen s = false
      -> LanguageSelectionModal.selectedLanguages s = []).

(** What every reachable state of the page satisfies. *)
Definition page_invariant (p : Page.State) : Prop :=
  let h := Page.home p in
  (Home.isModalOpen h = true ->
   ToBoolean (Home.translations h) = false /\ Home.isLoading h = false
   /\ tight (Home.inputText h) /\ (1 <= length (Home.inputText h) <= 140)%nat)
  /\ (Home.isLoading h = true -> ToBoolean (Home.translations h) = false)
  /\ picker_invariant (Page.modal p)
  /\ (length (Page.picked p) <= 3)%nat.

(** A string in which every surrogate has its partner. *)
Inductive well_formed : jsstring -> Prop :=
| well_formed_empty : well_formed []
| well_formed_unit c s :
    is_surrogate c = false -> well_formed s -> well_formed (c :: s)
| well_formed_pair c d s :
    is_high_surrogate c = true -> is_low_surrogate d = true ->
    well_formed s -> well_formed (c :: d :: s).

(** What is pending in the decoder can only end in a scalar value. *)
Fixpoint utf8_pending (cp : N) (needed : nat) (lower upper : N) : Prop :=
  match needed with
  | O => forall b, (lower <= b <= upper)%N ->
                   (cp * 64 + b mod 64 < 1114112)%N
                   /\ is_surrogate (cp * 64 + b mod 64) = false
  | S k => forall b, (lower <= b <= upper)%N -> utf8_pending (cp * 64 + b mod 64) k 128 191
  end.

(** A state of the decoder from which only scalar values come. *)
Definition utf8_state_sound (st : utf8_state) : Prop :=
  match st with
  | UStart => True
  | UMore cp needed lower upper => utf8_pending cp needed lower upper
  end.

(** A text as the decoder gives it. *)
Definition decoded (s : jsstring) : Prop :=
  well_formed s /\ Forall (fun c => (c < 65536)%N) s.

(** A token that does not hold [undefined]. *)
Definition token_defined (t : token) : Prop :=
  match t with
  | TLiteral v => v <> VUndefined
  | _ => True
  end.

(** The same for what the lexer and the parser hold. *)
Definition lex_state_defined (st : lex_state) : Prop :=
  match st with
  | LLiteral _ v => v <> VUndefined
  | _ => True
  end.

Definition parse_state_defined (st : parse_state) : Prop :=
  match st with
  | PAfter v _ => v <> VUndefined
  | _ => True
  end.

(** The tokens of a text that starts with one token. *)
Definition lex_after (tok : token) (rest : jsstring) : option (list token) :=
  option_map (cons tok) (lex LStart rest).

(** The tokens of an array of strings between its brackets. *)
Fixpoint string_tokens (l : list jsstring) : list token :=
  match l with
  | [] => []
  | [x] => [TString x]
  | x :: r => TString x :: TComma :: string_tokens r
  end.

(** The text that [JSON.stringify] writes for the body of the page. *)
Definition request_wire (text : jsstring) (languages : list jsstring) : jsstring :=
  lit "{" ++ QuoteJSONString (lit "text") ++ lit ":" ++ QuoteJSONString text ++ lit ","
  ++ QuoteJSONString (lit "targetLanguages") ++ lit ":" ++ lit "["
  ++ join_strings (lit ",") (map QuoteJSONString languages) ++ lit "]}".

(** The object whose properties are the given pairs of strings. *)
Definition string_object (pairs : list (jsstring * jsstring)) : value :=
  VObj (map (fun kv => (fst kv, VStr (snd kv))) pairs).

(** One member of such an object, as [JSON.stringify] writes it. *)
Definition member_text (kv : jsstring * jsstring) : jsstring :=
  QuoteJSONString (fst kv) ++ lit ":" ++ QuoteJSONString (snd kv).

(** The tokens of the members, commas included. *)
Fixpoint member_tokens (pairs : list (jsstring * jsstring)) : list token :=
  match pairs with
  | [] => []
  | [kv] => [TString (fst kv); TColon; TString (snd kv)]
  | kv :: r => TString (fst kv) :: TColon :: TString (snd kv) :: TComma :: member_tokens r
  end.

(** No key is an array index. *)
Definition named_keys {A} (props : list (jsstring * A)) : Prop :=
  forall kv, In kv props -> array_index (fst kv) = None.

Module Sample.

(** A JSON string literal without escapes. *)
Definition quoted (s : string) : jsstring := dquote :: lit s ++ [dquote].

(** The body [{"text": <text>, "targetLanguages": <languages>}]. *)
Definition request_of (text languages : jsstring) : Route.Request :=
  Route.mk_request
    (lit "{" ++ quoted "text" ++ lit ":" ++ text ++ lit ","
     ++ quoted "targetLanguages" ++ lit ":" ++ languages ++ lit "}").

Definition es_fr_de : jsstring :=
  lit "[" ++ quoted "es" ++ lit "," ++ quoted "fr" ++ lit "," ++ quoted "de" ++ lit "]".

(** [{"text":"Hello World","targetLanguages":["es","fr","de"]}] *)
Definition hello_request : Route.Request := request_of (quoted "Hello World") es_fr_de.

(** [{"es":"Hola Mundo","fr":"Bonjour le monde","de":"Hallo Welt"}] *)
Definition hello_reply : jsstring :=
  lit "{" ++ quoted "es" ++ lit ":" ++ quoted "Hola Mundo" ++ lit ","
  ++ quoted "fr" ++ lit ":" ++ quoted "Bonjour le monde" ++ lit ","
  ++ quoted "de" ++ lit ":" ++ quoted "Hallo Welt" ++ lit "}".

(** A model that answers every prompt with the same text. *)
Definition replying (reply : jsstring) : Model :=
  fun _ => Ok (mk_result (Ok reply)).

(** A model whose [sendMessage] is rejected. *)
Definition unreachable_model : Model :=
  fun _ => Throw (External (lit "fetch failed")).

(** The body with an empty string as [text] and an empty array as
    [targetLanguages]: both rules fail. *)
Definition empty_text_no_languages : Route.Request :=
  request_of [dquote; dquote] (lit "[]").

(** [{"text":"Hi","targetLanguages":["es","fr"]}] *)
Definition two_languages : Route.Request :=
  request_of (quoted "Hi") (lit "[" ++ quoted "es" ++ lit "," ++ quoted "fr" ++ lit "]").

(** [{"text":"Hi","targetLanguages":["es","es","es"]}] *)
Definition same_language_thrice : Route.Request :=
  request_of (quoted "Hi")
    (lit "[" ++ quoted "es" ++ lit "," ++ quoted "es" ++ lit "," ++ quoted "es" ++ lit "]").

(** [{"text":"   "}]: three spaces, and no language list. *)
Definition blank_text_only : Route.Request :=
  Route.mk_request (lit "{" ++ quoted "text" ++ lit ":" ++ quoted "   " ++ lit "}").

(** [{"text":"   ","targetLanguages":["es","fr","de"]}] *)
Definition blank_request : Route.Request := request_of (quoted "   ") es_fr_de.

(** The body [null]. *)
Definition null_request : Route.Request := Route.mk_request (lit "null").

(** [{"text":] is not JSON. *)
Definition truncated_request : Route.Request :=
  Route.mk_request (lit "{" ++ quoted "text" ++ lit ":").

(** A text of 141 code units. *)
Definition long_text : jsstring := repeat 97%N 141.

Definition long_request : Route.Request :=
  request_of (dquote :: long_text ++ [dquote]) es_fr_de.

(** The modal with English, Spanish and Chinese ticked. *)
Definition three_ticked : LanguageSelectionModal.State :=
  LanguageSelectionModal.perform
    (LanguageSelectionModal.ClickCheckbox
       (LanguageSelectionModal.mk_language (lit "zh") (lit "Chinese")))
    (LanguageSelectionModal.perform
       (LanguageSelectionModal.ClickCheckbox
          (LanguageSelectionModal.mk_language (lit "es") (lit "Spanish")))
       (LanguageSelectionModal.perform
          (LanguageSelectionModal.ClickCheckbox
             (LanguageSelectionModal.mk_language (lit "en") (lit "English")))
          (LanguageSelectionModal.perform LanguageSelectionModal.OpenModal
             LanguageSelectionModal.initial))).

(** The page after the user has typed "  Hello World ", submitted the
    form and ticked English, Spanish and Chinese. *)
Definition ready_page : Page.State :=
  fold_left (fun p a => fst (Page.step a p))
    [Page.TypeText (lit "  Hello World ");
     Page.SubmitText;
     Page.ClickCheckbox (LanguageSelectionModal.mk_language (lit "en") (lit "English"));
     Page.ClickCheckbox (LanguageSelectionModal.mk_language (lit "es") (lit "Spanish"));
     Page.ClickCheckbox (LanguageSelectionModal.mk_language (lit "zh") (lit "Chinese"))]
    Page.initial.

(** The value of [Sample.hello_reply]. *)
Definition hello_translations : value :=
  VObj [(lit "es", VStr (lit "Hola Mundo"));
        (lit "fr", VStr (lit "Bonjour le monde"));
        (lit "de", VStr (lit "Hallo Welt"))].

(** [{"text":true,"targetLanguages":["es","fr","de"]}] *)
Definition true_request : Route.Request := Sample.request_of (lit "true") Sample.es_fr_de.

(** The page that shows the translation of "Hello World" into Spanish. *)
Definition translated_page : Page.State :=
  fold_left (fun p a => fst (Page.step a p))
    [Page.ClickSubmit;
     Page.FetchSettles
       (Ok (Home.mk_fetch_response true
              (Ok (VObj [(lit "translations",
                          VObj [(lit "es", VStr (lit "Hola Mundo"))])]))))]
    ready_page.

End Sample.

(* ================================================================== *)
(** * Part X.  Lemmas and theorems *)
(* ================================================================== *)

(** Closed facts about the sample data are settled by evaluation. *)
Ltac evaluate := vm_compute; reflexivity.

(** ** Strings and numbers *)

Lemma str_eqb_refl s : str_eqb s s = true.
Proof. induction s as [|c s IH]; simpl; [reflexivity|]. now rewrite N.eqb_refl. Qed.

Lemma str_eqb_eq a b : str_eqb a b = true <-> a = b.
Proof.
  split; [|intros ->; apply str_eqb_refl].
  revert b; induction a as [|x a IH]; intros [|y b]; simpl; try discriminate; auto.
  rewrite andb_true_iff, N.eqb_eq. intros [-> H]. f_equal. now apply IH.
Qed.

Lemma number_gt_Z_of_nat n c : number_gt_Z (number_of_nat n) c = (c <? Z.of_nat n).
Proof.
  unfold number_gt_Z, number_of_nat, ratio, scale2. simpl.
  rewrite nat_N_Z. f_equal; lia.
Qed.

Lemma number_eq_Z_of_nat n c : number_eq_Z (number_of_nat n) c = (Z.of_nat n =? c).
Proof.
  unfold number_eq_Z, number_of_nat, ratio, scale2. simpl.
  rewrite nat_N_Z. f_equal; lia.
Qed.

Lemma trimStart_blank s :
  Forall (fun c => is_white_space c = true) s -> trimStart s = [].
Proof. induction 1 as [|c s Hc _ IH]; simpl; [reflexivity|]. now rewrite Hc. Qed.

Lemma trim_blank s :
  Forall (fun c => is_white_space c = true) s -> trim s = [].
Proof. intros H. unfold trim. now rewrite (trimStart_blank s H). Qed.

(** Reading one property succeeds exactly when reading another does:
    only [null] and [undefined] refuse. *)
Lemma Get_defined v k x k' : Get v k = Ok x -> exists y, Get v k' = Ok y.
Proof.
  destruct v; simpl; try discriminate; intros _; eauto.
  - destruct (str_eqb k' (lit "length")); eauto.
  - destruct (str_eqb k' (lit "length")); eauto.
  - destruct (own_property props k'); eauto.
Qed.

Lemma JSON_parse_throws s e : JSON_parse s = Throw e -> e = SyntaxError.
Proof.
  unfold JSON_parse. destruct (lex LStart s) as [ts|]; [|congruence].
  destruct (parse_tokens (PValue []) ts); congruence.
Qed.

(** ** The two rules of the handler *)

(** On a string the text rule is the length test of the specification. *)
Lemma text_rule_string s :
  Route.text_rule_fails (VStr s) = Ok (Nat.eqb (length s) 0 || Nat.ltb 140 (length s)).
Proof.
  unfold Route.text_rule_fails. simpl ToBoolean. rewrite negb_involutive.
  destruct (Nat.eqb (length s) 0) eqn:E; [reflexivity|].
  unfold Get. rewrite str_eqb_refl. unfold cbind, greater_than, ToNumber, cbind.
  rewrite number_gt_Z_of_nat. simpl orb. f_equal.
  destruct (Nat.ltb_spec 140 (length s)); [apply Z.ltb_lt | apply Z.ltb_ge]; lia.
Qed.

Lemma text_rule_passes s :
  (1 <= length s <= 140)%nat -> Route.text_rule_fails (VStr s) = Ok false.
Proof.
  intros H. rewrite text_rule_string.
  destruct (Nat.eqb_spec (length s) 0); [lia|].
  destruct (Nat.ltb_spec 140 (length s)); [lia|reflexivity].
Qed.

Lemma text_rule_passed s :
  Route.text_rule_fails (VStr s) = Ok false -> (1 <= length s <= 140)%nat.
Proof.
  rewrite text_rule_string. intros H. injection H as H.
  apply orb_false_iff in H as [H1 H2].
  apply Nat.eqb_neq in H1. apply Nat.ltb_ge in H2. lia.
Qed.

(** On an array the language rule is the count test. *)
Lemma language_rule_array l :
  Route.language_rule_fails (VArr l) = Ok (negb (Nat.eqb (length l) 3)).
Proof.
  unfold Route.language_rule_fails. simpl ToBoolean. simpl negb. cbv iota.
  unfold Get. rewrite str_eqb_refl. unfold cbind, strict_not_equal.
  rewrite number_eq_Z_of_nat. do 2 f_equal.
  destruct (Nat.eqb_spec (length l) 3); [apply Z.eqb_eq | apply Z.eqb_neq]; lia.
Qed.

Lemma language_rule_passed l :
  Route.language_rule_fails (VArr l) = Ok false -> length l = 3%nat.
Proof.
  rewrite language_rule_array. intros H. injection H as H.
  apply negb_false_iff in H. now apply Nat.eqb_eq.
Qed.

(** The language rule never throws. *)
Lemma language_rule_total l : exists b, Route.language_rule_fails l = Ok b.
Proof.
  unfold Route.language_rule_fails.
  destruct (negb (ToBoolean l)) eqn:E; [eauto|].
  destruct l; simpl in E; try discriminate; unfold Get;
    repeat match goal with
           | |- context [match ?x with _ => _ end] => destruct x
           | |- context [if ?x then _ else _] => destruct x
           end; simpl; eauto.
Qed.

(** ** The translation client *)

Lemma element_strings_strs l : element_strings (map VStr l) = Ok l.
Proof. induction l as [|x l IH]; simpl; [reflexivity|]. now rewrite IH. Qed.

Lemma promptTemplate_strings text langs :
  Gemini.promptTemplate (VStr text) (VArr (map VStr langs))
  = Ok (Gemini.prompt_text text (join_strings (lit ", ") langs)).
Proof.
  unfold Gemini.promptTemplate, call_join, Array_join. simpl ToString.
  unfold cbind at 1. rewrite element_strings_strs. reflexivity.
Qed.

(** Every run of [translateText], on any two values and any model. *)
Lemma translateText_run u l model :
  Gemini.translateText u l model =
  match Gemini.promptTemplate u l with
  | Throw e => ([EvTranslateText u l], Throw e)
  | Ok prompt =>
      match model_answer model prompt with
      | Ok v => ([EvTranslateText u l; EvSendMessage prompt], Ok v)
      | Throw e =>
          ([EvTranslateText u l; EvSendMessage prompt;
            EvConsoleError (lit "Error during translation:") e],
           Throw (Error (lit "Translation failed")))
      end
  end.
Proof.
  unfold Gemini.translateText, model_answer, bind, try_catch, lift, emit,
    sendMessage, console_error, throw, ret, cbind.
  destruct (Gemini.promptTemplate u l) as [prompt|e]; [|reflexivity].
  destruct (model prompt) as [r|e]; [|reflexivity].
  destruct (response_text r) as [reply|e]; [|reflexivity].
  destruct (JSON_parse reply); reflexivity.
Qed.

Lemma translateText_called_once u l model :
  translateText_calls (fst (Gemini.translateText u l model)) = [(u, l)].
Proof.
  rewrite translateText_run.
  destruct (Gemini.promptTemplate u l) as [prompt|e]; [|reflexivity].
  destruct (model_answer model prompt); reflexivity.
Qed.

Lemma translateText_calls_app t1 t2 :
  translateText_calls (t1 ++ t2) = translateText_calls t1 ++ translateText_calls t2.
Proof. unfold translateText_calls. apply flat_map_app. Qed.

(** ** The handler, stage by stage *)

Section Handler.

Variables (request : Route.Request) (model : Model).

Lemma POST_unparseable e :
  Route.request_json request = Throw e ->
  Route.POST request model
  = ([EvConsoleError (lit "API Translation Error:") e], Ok TranslationFailed_response).
Proof.
  intros H. unfold Route.POST, try_catch, bind, lift. rewrite H. reflexivity.
Qed.

Variables (body text targetLanguages : value).
Hypothesis Hbody : Route.request_json request = Ok body.
Hypothesis Htext : Get body (lit "text") = Ok text.
Hypothesis Hlangs : Get body (lit "targetLanguages") = Ok targetLanguages.

Lemma POST_text_rule_fails :
  Route.text_rule_fails text = Ok true ->
  Route.POST request model = ([], Ok InvalidText_response).
Proof.
  intros H. unfold Route.POST, try_catch, bind, lift.
  rewrite Hbody, Htext, Hlangs, H. reflexivity.
Qed.

Lemma POST_text_rule_throws e :
  Route.text_rule_fails text = Throw e ->
  Route.POST request model
  = ([EvConsoleError (lit "API Translation Error:") e], Ok TranslationFailed_response).
Proof.
  intros H. unfold Route.POST, try_catch, bind, lift.
  rewrite Hbody, Htext, Hlangs, H. reflexivity.
Qed.

Lemma POST_language_rule_fails :
  Route.text_rule_fails text = Ok false ->
  Route.language_rule_fails targetLanguages = Ok true ->
  Route.POST request model = ([], Ok InvalidLanguageCount_response).
Proof.
  intros H1 H2. unfold Route.POST, try_catch, bind, lift.
  rewrite Hbody, Htext, Hlangs, H1, H2. reflexivity.
Qed.

Lemma POST_forwards :
  Route.text_rule_fails text = Ok false ->
  Route.language_rule_fails targetLanguages = Ok false ->
  Route.POST request model
  = match Gemini.translateText text targetLanguages model with
    | (t, Ok translations) =>
        (t, Ok (Route.mk_response 200 (Route.translations_body translations)))
    | (t, Throw e) =>
        (t ++ [EvConsoleError (lit "API Translation Error:") e],
         Ok TranslationFailed_response)
    end.
Proof.
  intros H1 H2. unfold Route.POST, try_catch, bind, lift.
  rewrite Hbody, Htext, Hlangs, H1, H2. cbn [app].
  destruct (Gemini.translateText text targetLanguages model) as [t [v|e]];
    cbn; rewrite ?app_nil_r; reflexivity.
Qed.

Lemma POST_forwards_once :
  Route.text_rule_fails text = Ok false ->
  Route.language_rule_fails targetLanguages = Ok false ->
  translateText_calls (fst (Route.POST request model)) = [(text, targetLanguages)].
Proof.
  intros H1 H2. rewrite (POST_forwards H1 H2).
  pose proof (translateText_called_once text targetLanguages model) as Hc.
  destruct (Gemini.translateText text targetLanguages model) as [t [v|e]];
    cbn [fst] in *; [exact Hc|].
  rewrite translateText_calls_app, Hc. reflexivity.
Qed.

End Handler.

(** Either the handler never enters [translateText], or the body gave
    it a text and a language list that passed both rules, and it
    entered once, with exactly these. *)
Lemma POST_calls request model :
  translateText_calls (fst (Route.POST request model)) = []
  \/ exists body text targetLanguages,
       Route.request_json request = Ok body
       /\ Get body (lit "text") = Ok text
       /\ Get body (lit "targetLanguages") = Ok targetLanguages
       /\ Route.text_rule_fails text = Ok false
       /\ Route.language_rule_fails targetLanguages = Ok false
       /\ translateText_calls (fst (Route.POST request model)) = [(text, targetLanguages)].
Proof.
  destruct (Route.request_json request) as [body|e] eqn:Hbody;
    [|left; now rewrite (POST_unparseable _ _ _ Hbody)].
  destruct (Get body (lit "text")) as [text|e] eqn:Htext.
  2:{ left. unfold Route.POST, try_catch, bind, lift. rewrite Hbody, Htext. reflexivity. }
  destruct (Get_defined _ _ _ (lit "targetLanguages") Htext) as [tl Hlangs].
  destruct (Route.text_rule_fails text) as [[|]|e] eqn:H1.
  - left. now rewrite (POST_text_rule_fails _ _ _ _ _ Hbody Htext Hlangs H1).
  - destruct (language_rule_total tl) as [[|] H2].
    + left. now rewrite (POST_language_rule_fails _ _ _ _ _ Hbody Htext Hlangs H1 H2).
    + right. exists body, text, tl.
      repeat (split; [first [assumption | reflexivity]|]).
      apply (POST_forwards_once _ _ body); assumption.
  - left. now rewrite (POST_text_rule_throws _ _ _ _ _ Hbody Htext Hlangs _ H1).
Qed.

(** A body that is [null] has no properties to read: the destructuring
    throws and the request ends in the [catch]. *)
Remark POST_null_body :
  Route.POST (Route.mk_request (lit "null")) Sample.unreachable_model
  = ([EvConsoleError (lit "API Translation Error:") TypeError],
     Ok TranslationFailed_response).
Proof. evaluate. Qed.

(** A byte order mark before the body is not part of the text that is
    parsed: the request is answered as the one without it. *)
Remark POST_byte_order_mark :
  Route.POST (Route.mk_request (65279%N :: Route.request_body Sample.hello_request))
    (Sample.replying Sample.hello_reply)
  = Route.POST Sample.hello_request (Sample.replying Sample.hello_reply).
Proof. evaluate. Qed.

(** ** What [JSON.parse] returns *)

Lemma lex_start_defined c ts st :
  lex_start c = Some (ts, st) -> Forall token_defined ts /\ lex_state_defined st.
Proof.
  unfold lex_start.
  destruct c as [|p]; [cbn; discriminate|].
  do 7 (try destruct p as [p|p|]);
    try (intros H; injection H as <- <-; split; [repeat constructor | cbn; trivial; discriminate]);
    try (destruct (is_digit _); [|discriminate];
         intros H; injection H as <- <-; split; [constructor | exact I]).
Qed.

Lemma lex_step_defined st c ts st' :
  lex_state_defined st -> lex_step st c = Some (ts, st') ->
  Forall token_defined ts /\ lex_state_defined st'.
Proof.
  intros Hst. destruct st as [|acc|acc|acc k code|rest v|ns a]; cbn [lex_step].
  - apply lex_start_defined.
  - destruct (c =? 34)%N; [intros H; injection H as <- <-; repeat constructor|].
    destruct (c =? 92)%N; [intros H; injection H as <- <-; repeat constructor|].
    destruct (c <? 32)%N; [discriminate|].
    intros H; injection H as <- <-; repeat constructor.
  - destruct (c =? 117)%N; [intros H; injection H as <- <-; repeat constructor|].
    destruct (escape_char c); [|discriminate].
    intros H; injection H as <- <-; repeat constructor.
  - destruct (hex_value c); [|discriminate].
    destruct k; intros H; injection H as <- <-; repeat constructor.
  - destruct rest as [|x [|y rest]]; [discriminate| |];
      (destruct (c =? x)%N; [|discriminate]); intros H; injection H as <- <-.
    + split; [repeat constructor; exact Hst | exact I].
    + split; [constructor | exact Hst].
  - destruct (num_step ns a c) as [st1|] eqn:E.
    + intros H; injection H as <- <-. split; [constructor|].
      destruct ns; cbn in E;
        repeat match type of E with
               | (if ?b then _ else _) = _ => destruct b
               end; try discriminate; injection E as <-; exact I.
    + destruct (num_accepting ns); [|discriminate].
      destruct (lex_start c) as [[ts1 st1]|] eqn:E1; [|discriminate].
      intros H; injection H as <- <-.
      destruct (lex_start_defined _ _ _ E1) as [H1 H2].
      split; [constructor; [exact I | exact H1] | exact H2].
Qed.

Lemma lex_defined s : forall st ts,
  lex_state_defined st -> lex st s = Some ts -> Forall token_defined ts.
Proof.
  induction s as [|c r IH]; intros st ts Hst; cbn [lex].
  - destruct st; try discriminate.
    + intros H; injection H as <-. constructor.
    + destruct (num_accepting st); [|discriminate].
      intros H; injection H as <-. repeat constructor.
  - destruct (lex_step st c) as [[ts1 st1]|] eqn:E; [|discriminate].
    destruct (lex_step_defined _ _ _ _ Hst E) as [H1 H2].
    destruct (lex st1 r) as [ts2|] eqn:E2; [|discriminate].
    intros H; injection H as <-. apply Forall_app. split; [exact H1 | now apply (IH st1)].
Qed.

Lemma parse_value_start_defined stack t st :
  token_defined t -> parse_value_start stack t = Some st -> parse_state_defined st.
Proof.
  destruct t; cbn; intros Ht H; try discriminate; injection H as <-; cbn; trivial;
    discriminate.
Qed.

Lemma parse_step_defined st t st' :
  token_defined t -> parse_step st t = Some st' -> parse_state_defined st'.
Proof.
  intros Ht. destruct st as [stack|stack|stack|done stack|done k stack|v [|[done|done k] stack]];
    cbn [parse_step].
  - now apply parse_value_start_defined.
  - destruct t; try (now apply parse_value_start_defined).
    intros H; injection H as <-. discriminate.
  - destruct t; try discriminate; intros H; injection H as <-; cbn; trivial. discriminate.
  - destruct t; try discriminate; intros H; injection H as <-; exact I.
  - destruct t; try discriminate; intros H; injection H as <-; exact I.
  - discriminate.
  - destruct t; try discriminate; intros H; injection H as <-; cbn; trivial. discriminate.
  - destruct t; try discriminate; intros H; injection H as <-; cbn; trivial. discriminate.
Qed.

Lemma parse_tokens_defined ts : forall st v,
  Forall token_defined ts -> parse_state_defined st ->
  parse_tokens st ts = Some v -> v <> VUndefined.
Proof.
  induction ts as [|t r IH]; intros st v Hts Hst; cbn [parse_tokens].
  - destruct st as [| | | | |x [|f stack]]; try discriminate.
    intros H; injection H as <-. exact Hst.
  - destruct (parse_step st t) as [st1|] eqn:E; [|discriminate].
    apply (IH st1); [now apply Forall_inv_tail in Hts|].
    apply (parse_step_defined _ _ _ (Forall_inv Hts) E).
Qed.

(** [JSON.parse] never returns [undefined]. *)
Lemma JSON_parse_defined s v : JSON_parse s = Ok v -> v <> VUndefined.
Proof.
  unfold JSON_parse. destruct (lex LStart s) as [ts|] eqn:E; [|discriminate].
  destruct (parse_tokens (PValue []) ts) as [x|] eqn:E1; [|discriminate].
  intros H; injection H as <-.
  apply (parse_tokens_defined ts (PValue []) x); [|exact I | exact E1].
  apply (lex_defined s LStart ts I E).
Qed.

(** A body that [request.json()] accepts is [null], or a [text] can be
    read from it. *)
Lemma parsed_body_gives_text (request : Route.Request) (body : value) :
  Route.request_json request = Ok body -> body <> VNull ->
  exists text, Get body (lit "text") = Ok text.
Proof.
  intros H Hn. apply JSON_parse_defined in H.
  destruct body as [| | b | n | x | l | props]; try (now elim H); try (now elim Hn);
    cbn [Get]; eauto.
  - destruct (str_eqb (lit "text") (lit "length")); eauto.
  - destruct (str_eqb (lit "text") (lit "length")); eauto.
  - destruct (own_property props (lit "text")); eauto.
Qed.

(** ** The language picker *)

Section Picker.

Import LanguageSelectionModal.

Lemma filter_length_bound (f : jsstring -> bool) l :
  (length (filter f l) <= length l)%nat.
Proof. induction l as [|x l IH]; simpl; [lia|]. destruct (f x); simpl; lia. Qed.

Lemma toggleLanguage_bound c sel :
  (length sel <= 3)%nat -> checkbox_disabled sel c = false ->
  (length (toggleLanguage c sel) <= 3)%nat.
Proof.
  unfold checkbox_disabled, toggleLanguage. intros Hle Hen.
  destruct (includes sel c).
  - pose proof (filter_length_bound (fun x => negb (str_eqb x c)) sel). lia.
  - cbn [negb andb] in Hen. apply Nat.leb_gt in Hen. rewrite length_app. simpl. lia.
Qed.

Lemma perform_bound a s :
  (length (selectedLanguages s) <= 3)%nat ->
  (length (selectedLanguages (perform a s)) <= 3)%nat.
Proof.
  intros Hle. destruct s as [o sel]. destruct a as [|lang| |]; simpl in *.
  - exact Hle.
  - destruct o; simpl; [|exact Hle].
    destruct (checkbox_disabled sel (code lang)) eqn:E; simpl; [exact Hle|].
    now apply toggleLanguage_bound.
  - destruct o; simpl; [|exact Hle].
    destruct (submit_disabled sel); simpl; [exact Hle|].
    unfold handleSubmit. destruct (Nat.eqb (length sel) 3); simpl; [lia|exact Hle].
  - destruct o; simpl; [lia|exact Hle].
Qed.

(** The updater alone has no cap: it is the [disabled] attribute of the
    checkbox that keeps a fourth language out. *)
Remark toggleLanguage_alone_has_no_cap :
  toggleLanguage (lit "hi") [lit "en"; lit "es"; lit "zh"]
  = [lit "en"; lit "es"; lit "zh"; lit "hi"].
Proof. reflexivity. Qed.

End Picker.

(** ** The run-time model on known values *)

(** Numeric strings, converted to numbers and printed back the way
    ECMAScript prints them. *)
Example numbers_print_as_in_ECMAScript :
  map (fun s => Number_toString (StringToNumber (lit s)))
      ["0.1"; "5"; "1e21"; "1e20"; "5e-324"; "0.0000001"; "123.456"; "-1.5";
       "-0"; "1e400"; "0x10"; " 12 "; "abc"; "9007199254740993";
       "0.30000000000000004"; "1.7976931348623157e308"]%string
  = map lit
      ["0.1"; "5"; "1e+21"; "100000000000000000000"; "5e-324"; "1e-7"; "123.456"; "-1.5";
       "0"; "Infinity"; "16"; "12"; "NaN"; "9007199254740992";
       "0.30000000000000004"; "1.7976931348623157e+308"]%string.
Proof. evaluate. Qed.

Example JSON_parse_rejects :
  forallb (fun s => match JSON_parse (lit s) with Throw _ => true | Ok _ => false end)
          [""; " "; "01"; "1."; ".5"; "+1"; "1e"; "[1,]"; "[,1]"; "{,}"; "[1 2]";
           "nul"; "tRue"; "[[]"; "[]]"; "0x10"; "NaN"; "{1:2}"]%string
  = true.
Proof. evaluate. Qed.

Example JSON_parse_accepts :
  JSON_parse (lit " {" ++ Sample.quoted "a" ++ lit " : [1, -0, 2.5e1, true, null, {}, []], "
              ++ Sample.quoted "bA\n" ++ lit ":" ++ Sample.quoted "x" ++ lit ", "
              ++ Sample.quoted "a" ++ lit ":false} ")
  = Ok (VObj [(lit "a", VBool false); (lit "bA" ++ [10%N], VStr (lit "x"))]).
Proof. evaluate. Qed.

(** The rules look at truthiness and [length] only, not at types: a
    number as [text] is forwarded and printed into the prompt, and a
    string of length 3 as [targetLanguages] passes the language rule
    and makes [promptTemplate] throw, outside the [try] of
    [translateText]. *)
Example POST_number_as_text :
  model_requests
    (fst (Route.POST (Sample.request_of (lit "5") Sample.es_fr_de)
            (Sample.replying Sample.hello_reply)))
  = [Gemini.prompt_text (lit "5") (lit "es, fr, de")].
Proof. evaluate. Qed.

Example POST_string_as_languages :
  Route.POST (Sample.request_of (Sample.quoted "Hi") (Sample.quoted "abc"))
    (Sample.replying Sample.hello_reply)
  = ([EvTranslateText (VStr (lit "Hi")) (VStr (lit "abc"));
      EvConsoleError (lit "API Translation Error:") TypeError],
     Ok TranslationFailed_response).
Proof. evaluate. Qed.

(* ================================================================== *)
(** * Part XI.  The properties of the specification *)
(* ================================================================== *)

(** ** C1: a valid request is translated *)



(** ** C2: the text rule comes first *)

(** As stated for every body whose text is missing, the property fails:
    the body [null] is JSON and has no [text], but there is nothing to
    read a [text] from.  The destructuring of line 13 throws before the
    text rule is reached, and the [catch] answers 500 with the generic
    message, not 400 with the message of the text rule. *)
Lemma C2_counterexample :
  Route.request_json Sample.null_request = Ok VNull
  /\ (forall text, Get VNull (lit "text") <> Ok text)
  /\ Route.POST Sample.null_request Sample.unreachable_model
     = ([EvConsoleError (lit "API Translation Error:") TypeError],
        Ok (Route.mk_response 500
              (VObj [(lit "error", VStr (lit "An error occurred during translation."))])))
  /\ snd (Route.POST Sample.null_request Sample.unreachable_model)
     <> Ok (Route.mk_response 400
              (VObj [(lit "error",
                      VStr (lit "Text is required and must be up to 140 characters."))])).
Proof.
  split; [evaluate|].
  split; [intros text; discriminate|].
  split; [evaluate | vm_compute; discriminate].
Qed.

(** C2, amended.  For every request whose body is a JSON value other
    than [null], from which a [text] can therefore be read (lemma
    [parsed_body_gives_text]), and gives no text ([undefined] or
    [null]), an empty text or a text longer than 140 code units,
    whatever [targetLanguages] is, the handler returns status 400 with
    the body [{ error: "Text is required and must be up to 140
    characters." }], leaves no event behind and never enters
    [translateText]: the text rule is decided before the language rule
    is looked at. *)
Theorem C2_invalid_text_is_rejected_first
  (request : Route.Request) (model : Model) (body text : value) :
  Route.request_json request = Ok body ->
  Get body (lit "text") = Ok text ->
  text_missing_empty_or_long text ->
  Route.POST request model
    = ([], Ok (Route.mk_response 400
                 (VObj [(lit "error",
                         VStr (lit "Text is required and must be up to 140 characters."))])))
  /\ translateText_calls (fst (Route.POST request model)) = [].
Proof.
  intros Hbody Htext Hbad.
  destruct (Get_defined _ _ _ (lit "targetLanguages") Htext) as [tl Hlangs].
  assert (Hrule : Route.text_rule_fails text = Ok true).
  { destruct Hbad as [->|[->|(s & -> & Hs)]]; try reflexivity.
    rewrite text_rule_string. f_equal. apply orb_true_iff.
    destruct Hs as [Hs|Hs]; [left; now apply Nat.eqb_eq | right; now apply Nat.ltb_lt]. }
  rewrite (POST_text_rule_fails request model body text tl Hbody Htext Hlangs Hrule).
  split; reflexivity.
Qed.

(** A text of 141 code units with three good languages. *)
Lemma C2_witness :
  Route.POST Sample.long_request (Sample.replying Sample.hello_reply)
    = ([], Ok (Route.mk_response 400
                 (VObj [(lit "error",
                         VStr (lit "Text is required and must be up to 140 characters."))])))
  /\ translateText_calls
       (fst (Route.POST Sample.long_request (Sample.replying Sample.hello_reply))) = [].
Proof.
  apply (C2_invalid_text_is_rejected_first Sample.long_request
           (Sample.replying Sample.hello_reply)
           (VObj [(lit "text", VStr Sample.long_text);
                  (lit "targetLanguages", VArr (map VStr [lit "es"; lit "fr"; lit "de"]))])
           (VStr Sample.long_text)).
  - evaluate.
  - evaluate.
  - right; right. exists Sample.long_text. split; [reflexivity|].
    right. vm_compute. repeat constructor.
Defined.

(** ** C3: a wrong language count *)

(** As stated for every body whose language list is missing or not of
    length 3, the property fails: the body whose [text] is the empty
    string and whose [targetLanguages] is the empty array has a
    language list of length 0 and is answered with the message of the
    text rule, which is checked first. *)
Lemma C3_counterexample :
  Route.request_json Sample.empty_text_no_languages
    = Ok (VObj [(lit "text", VStr []); (lit "targetLanguages", VArr [])])
  /\ languages_missing_or_not_three (VArr [])
  /\ Route.POST Sample.empty_text_no_languages Sample.unreachable_model
     = ([], Ok (Route.mk_response 400
                  (VObj [(lit "error",
                          VStr (lit "Text is required and must be up to 140 characters."))])))
  /\ snd (Route.POST Sample.empty_text_no_languages Sample.unreachable_model)
     <> Ok (Route.mk_response 400
              (VObj [(lit "error", VStr (lit "Please select exactly 3 target languages."))])).
Proof.
  split; [evaluate|].
  split; [right; right; exists []; split; [reflexivity | discriminate]|].
  split; [evaluate | vm_compute; discriminate].
Qed.

(** C3, amended.  For every request whose body has a text of 1 to 140
    code units and whose [targetLanguages] is missing ([undefined] or
    [null]) or an array of a length other than 3, the handler returns
    status 400 with the body [{ error: "Please select exactly 3 target
    languages." }], leaves no event behind and never enters
    [translateText]. *)
Theorem C3_wrong_language_count_is_rejected
  (request : Route.Request) (model : Model) (body targetLanguages : value)
  (text : jsstring) :
  Route.request_json request = Ok body ->
  Get body (lit "text") = Ok (VStr text) ->
  (1 <= length text <= 140)%nat ->
  Get body (lit "targetLanguages") = Ok targetLanguages ->
  languages_missing_or_not_three targetLanguages ->
  Route.POST request model
    = ([], Ok (Route.mk_response 400
                 (VObj [(lit "error", VStr (lit "Please select exactly 3 target languages."))])))
  /\ translateText_calls (fst (Route.POST request model)) = [].
Proof.
  intros Hbody Htext Hlen Hlangs Hbad.
  pose proof (text_rule_passes text Hlen) as H1.
  assert (H2 : Route.language_rule_fails targetLanguages = Ok true).
  { destruct Hbad as [->|[->|(l & -> & Hl)]]; try reflexivity.
    rewrite language_rule_array. f_equal. apply negb_true_iff.
    now apply Nat.eqb_neq. }
  rewrite (POST_language_rule_fails request model body _ _ Hbody Htext Hlangs H1 H2).
  split; reflexivity.
Qed.

(** "Hi" with two languages only. *)
Lemma C3_witness :
  Route.POST Sample.two_languages Sample.unreachable_model
    = ([], Ok (Route.mk_response 400
                 (VObj [(lit "error", VStr (lit "Please select exactly 3 target languages."))])))
  /\ translateText_calls
       (fst (Route.POST Sample.two_languages Sample.unreachable_model)) = [].
Proof.
  apply (C3_wrong_language_count_is_rejected Sample.two_languages Sample.unreachable_model
           (VObj [(lit "text", VStr (lit "Hi"));
                  (lit "targetLanguages", VArr [VStr (lit "es"); VStr (lit "fr")])])
           (VArr [VStr (lit "es"); VStr (lit "fr")]) (lit "Hi")).
  - evaluate.
  - evaluate.
  - simpl; lia.
  - evaluate.
  - right; right. eexists; split; [reflexivity|]. simpl; lia.
Defined.

(** ** C4: the client does not check the shape of the reply *)

(** As stated, the property fails: the reply [{"es":["Hola"]}] parses
    as JSON, is not a flat mapping from strings to strings, and
    [translateText] returns it. *)
Lemma C4_counterexample :
  JSON_parse (lit "{" ++ Sample.quoted "es" ++ lit ":[" ++ Sample.quoted "Hola" ++ lit "]}")
    = Ok (VObj [(lit "es", VArr [VStr (lit "Hola")])])
  /\ ~ flat_string_mapping (VObj [(lit "es", VArr [VStr (lit "Hola")])])
  /\ snd (Gemini.translateText (VStr (lit "Hello World"))
            (VArr [VStr (lit "es"); VStr (lit "fr"); VStr (lit "de")])
            (Sample.replying
               (lit "{" ++ Sample.quoted "es" ++ lit ":[" ++ Sample.quoted "Hola" ++ lit "]}")))
     = Ok (VObj [(lit "es", VArr [VStr (lit "Hola")])]).
Proof.
  split; [evaluate|]. split; [|evaluate].
  intros (props & Heq & Hflat). injection Heq as <-.
  destruct (Hflat (lit "es") (VArr [VStr (lit "Hola")])) as [s Hs];
    [now left | discriminate].
Qed.

(** C4, amended.  For every text and every list of language codes,
    [translateText] throws [Error("Translation failed")] when
    [sendMessage] is rejected, when [response.text()] throws and when
    the reply is not JSON; every reply that parses as JSON is returned
    as parsed, whatever its shape. *)
Theorem C4_translateText_returns_whatever_parses
  (text : jsstring) (languages : list jsstring) (model : Model) :
  snd (Gemini.translateText (VStr text) (VArr (map VStr languages)) model)
  = match model (Gemini.prompt_text text (join_strings (lit ", ") languages)) with
    | Throw _ => Throw (Error (lit "Translation failed"))
    | Ok result =>
        match response_text result with
        | Throw _ => Throw (Error (lit "Translation failed"))
        | Ok reply =>
            match JSON_parse reply with
            | Ok v => Ok v
            | Throw _ => Throw (Error (lit "Translation failed"))
            end
        end
    end.
Proof.
  rewrite translateText_run, promptTemplate_strings. unfold model_answer, cbind.
  destruct (model _) as [result|e]; [|reflexivity].
  destruct (response_text result) as [reply|e]; [|reflexivity].
  destruct (JSON_parse reply); reflexivity.
Qed.

(** ** C5: any failure of the client is one generic 500 *)

(** C5.  Whenever the [translateText] that the handler has entered
    throws, whatever it throws, the handler logs the exception and
    returns status 500 with exactly the body [{ error: "An error
    occurred during translation." }]: the response does not depend on
    the exception, which goes to the server log only. *)
Theorem C5_translation_failure_is_a_generic_500
  (request : Route.Request) (model : Model) (userMessage targetLanguages : value)
  (e : exn) :
  In (userMessage, targetLanguages)
     (translateText_calls (fst (Route.POST request model))) ->
  snd (Gemini.translateText userMessage targetLanguages model) = Throw e ->
  snd (Route.POST request model)
    = Ok (Route.mk_response 500
            (VObj [(lit "error", VStr (lit "An error occurred during translation."))]))
  /\ fst (Route.POST request model)
     = fst (Gemini.translateText userMessage targetLanguages model)
       ++ [EvConsoleError (lit "API Translation Error:") e].
Proof.
  intros Hin Hfail.
  destruct (POST_calls request model)
    as [Hnone|(body & text & tl & Hbody & Htext & Hlangs & H1 & H2 & Hone)].
  - rewrite Hnone in Hin. destruct Hin.
  - rewrite Hone in Hin. destruct Hin as [Heq|[]]. injection Heq as <- <-.
    rewrite (POST_forwards request model body _ _ Hbody Htext Hlangs H1 H2).
    destruct (Gemini.translateText text tl model) as [t [v|e']]; cbn [snd] in Hfail;
      [discriminate|].
    injection Hfail as ->. split; reflexivity.
Qed.

(** "Hello World" when the model cannot be reached. *)
Lemma C5_witness :
  snd (Route.POST Sample.hello_request Sample.unreachable_model)
    = Ok (Route.mk_response 500
            (VObj [(lit "error", VStr (lit "An error occurred during translation."))]))
  /\ fst (Route.POST Sample.hello_request Sample.unreachable_model)
     = fst (Gemini.translateText (VStr (lit "Hello World"))
              (VArr [VStr (lit "es"); VStr (lit "fr"); VStr (lit "de")])
              Sample.unreachable_model)
       ++ [EvConsoleError (lit "API Translation Error:") (Error (lit "Translation failed"))].
Proof.
  apply (C5_translation_failure_is_a_generic_500 Sample.hello_request
           Sample.unreachable_model).
  - vm_compute. left. reflexivity.
  - evaluate.
Defined.

(** ** C6: what reaches the client *)

(** As stated, the property fails: the body
    [{"text":"Hi","targetLanguages":["es","es","es"]}] passes both
    rules and is forwarded with its three equal codes. *)
Lemma C6_counterexample :
  translateText_calls
    (fst (Route.POST Sample.same_language_thrice (Sample.replying Sample.hello_reply)))
  = [(VStr (lit "Hi"), VArr [VStr (lit "es"); VStr (lit "es"); VStr (lit "es")])]
  /\ ~ NoDup [lit "es"; lit "es"; lit "es"].
Proof.
  split; [evaluate|].
  intros H. inversion H as [|x l Hin _]; subst. apply Hin. now left.
Qed.

(** C6, amended.  Whatever the handler hands to [translateText] is the
    [text] and the [targetLanguages] of the body; a text that is a
    string has 1 to 140 code units and a [targetLanguages] that is an
    array has exactly 3 elements.  Nothing is required of the elements:
    they need not be distinct. *)
Theorem C6_forwarded_requests_passed_both_rules
  (request : Route.Request) (model : Model) (userMessage targetLanguages : value) :
  In (userMessage, targetLanguages)
     (translateText_calls (fst (Route.POST request model))) ->
  (exists body, Route.request_json request = Ok body
                /\ Get body (lit "text") = Ok userMessage
                /\ Get body (lit "targetLanguages") = Ok targetLanguages)
  /\ (forall s, userMessage = VStr s -> (1 <= length s <= 140)%nat)
  /\ (forall l, targetLanguages = VArr l -> length l = 3%nat).
Proof.
  intros Hin.
  destruct (POST_calls request model)
    as [Hnone|(body & text & tl & Hbody & Htext & Hlangs & H1 & H2 & Hone)].
  - rewrite Hnone in Hin. destruct Hin.
  - rewrite Hone in Hin. destruct Hin as [Heq|[]]. injection Heq as <- <-.
    split; [exists body; auto|]. split.
    + intros s ->. now apply text_rule_passed.
    + intros l ->. now apply language_rule_passed.
Qed.

(** The request with three equal codes again: it is forwarded, and it
    meets the amended property. *)
Lemma C6_witness :
  (exists body, Route.request_json Sample.same_language_thrice = Ok body
                /\ Get body (lit "text") = Ok (VStr (lit "Hi"))
                /\ Get body (lit "targetLanguages")
                   = Ok (VArr [VStr (lit "es"); VStr (lit "es"); VStr (lit "es")]))
  /\ (forall s, VStr (lit "Hi") = VStr s -> (1 <= length s <= 140)%nat)
  /\ (forall l, VArr [VStr (lit "es"); VStr (lit "es"); VStr (lit "es")] = VArr l ->
                length l = 3%nat).
Proof.
  apply (C6_forwarded_requests_passed_both_rules Sample.same_language_thrice
           (Sample.replying Sample.hello_reply)).
  vm_compute. left. reflexivity.
Defined.

(** ** C7: the language picker *)

(** C7.  From the initial, empty selection, no state that the modal
    reaches by being opened, by clicks on its checkboxes, on Submit or
    on Cancel has more than 3 selected languages; and when 3 languages
    are selected, a click on the checkbox of a language that is not
    among them leaves the state as it is. *)
Theorem C7_never_more_than_three_selected (s : LanguageSelectionModal.State) :
  LanguageSelectionModal.reachable s ->
  (length (LanguageSelectionModal.selectedLanguages s) <= 3)%nat
  /\ (forall lang,
        length (LanguageSelectionModal.selectedLanguages s) = 3%nat ->
        includes (LanguageSelectionModal.selectedLanguages s)
                 (LanguageSelectionModal.code lang) = false ->
        LanguageSelectionModal.perform (LanguageSelectionModal.ClickCheckbox lang) s = s).
Proof.
  intros Hs. split.
  - induction Hs as [|s a _ IH _]; [simpl; lia | now apply perform_bound].
  - intros lang H3 Hnot.
    unfold LanguageSelectionModal.perform, LanguageSelectionModal.checkbox_disabled.
    rewrite Hnot, H3. simpl. now rewrite andb_false_r.
Qed.

(** The modal after it is opened and English, Spanish and Chinese are
    ticked. *)
Lemma C7_witness :
  (length (LanguageSelectionModal.selectedLanguages Sample.three_ticked) <= 3)%nat
  /\ (forall lang,
        length (LanguageSelectionModal.selectedLanguages Sample.three_ticked) = 3%nat ->
        includes (LanguageSelectionModal.selectedLanguages Sample.three_ticked)
                 (LanguageSelectionModal.code lang) = false ->
        LanguageSelectionModal.perform (LanguageSelectionModal.ClickCheckbox lang)
          Sample.three_ticked = Sample.three_ticked).
Proof.
  apply (C7_never_more_than_three_selected Sample.three_ticked).
  unfold Sample.three_ticked.
  repeat (apply LanguageSelectionModal.reachable_step; [|simpl; tauto]).
  apply LanguageSelectionModal.reachable_initial.
Defined.

(** ** C8: one prompt, one request *)


(** ** C9: a blank text *)

(** As stated for every blank text, the property fails: the body
    [{"text":"   "}] has a text of three spaces and no language list;
    it is stopped by the language rule and nothing is forwarded. *)
Lemma C9_counterexample :
  Route.request_json Sample.blank_text_only = Ok (VObj [(lit "text", VStr (lit "   "))])
  /\ Forall (fun c => is_white_space c = true) (lit "   ")
  /\ Route.POST Sample.blank_text_only (Sample.replying Sample.hello_reply)
     = ([], Ok (Route.mk_response 400
                  (VObj [(lit "error", VStr (lit "Please select exactly 3 target languages."))])))
  /\ translateText_calls
       (fst (Route.POST Sample.blank_text_only (Sample.replying Sample.hello_reply))) = [].
Proof.
  split; [evaluate|].
  split; [repeat constructor|].
  split; evaluate.
Qed.

(** C9, amended.  For every text of 1 to 140 code units that are all
    white space, the handler does not answer with the error of the text
    rule, and when the [targetLanguages] of the body passes the
    language rule it hands the text to [translateText] as it is,
    untrimmed; the form of [FullscreenTextInput] does not submit such a
    text. *)
Theorem C9_blank_text_passes_the_text_rule
  (request : Route.Request) (model : Model) (body : value) (text : jsstring) :
  Route.request_json request = Ok body ->
  Get body (lit "text") = Ok (VStr text) ->
  (1 <= length text <= 140)%nat ->
  Forall (fun c => is_white_space c = true) text ->
  snd (Route.POST request model)
    <> Ok (Route.mk_response 400
             (VObj [(lit "error",
                     VStr (lit "Text is required and must be up to 140 characters."))]))
  /\ (forall targetLanguages,
        Get body (lit "targetLanguages") = Ok targetLanguages ->
        Route.language_rule_fails targetLanguages = Ok false ->
        translateText_calls (fst (Route.POST request model))
        = [(VStr text, targetLanguages)])
  /\ FullscreenTextInput.handleSubmit text = None.
Proof.
  intros Hbody Htext Hlen Hblank.
  pose proof (text_rule_passes text Hlen) as H1.
  destruct (Get_defined _ _ _ (lit "targetLanguages") Htext) as [tl Hlangs].
  split; [|split].
  - destruct (language_rule_total tl) as [[|] H2].
    + rewrite (POST_language_rule_fails _ model _ _ _ Hbody Htext Hlangs H1 H2).
      vm_compute. discriminate.
    + rewrite (POST_forwards _ model _ _ _ Hbody Htext Hlangs H1 H2).
      destruct (Gemini.translateText (VStr text) tl model) as [t [v|e]];
        cbn [snd]; intros H; injection H as H; discriminate.
  - intros tl' Hlangs' H2.
    apply (POST_forwards_once _ _ body); assumption.
  - unfold FullscreenTextInput.handleSubmit. now rewrite (trim_blank text Hblank).
Qed.

(** Three spaces with three good languages. *)
Lemma C9_witness :
  snd (Route.POST Sample.blank_request (Sample.replying Sample.hello_reply))
    <> Ok (Route.mk_response 400
             (VObj [(lit "error",
                     VStr (lit "Text is required and must be up to 140 characters."))]))
  /\ (forall targetLanguages,
        Get (VObj [(lit "text", VStr (lit "   "));
                   (lit "targetLanguages",
                    VArr [VStr (lit "es"); VStr (lit "fr"); VStr (lit "de")])])
            (lit "targetLanguages") = Ok targetLanguages ->
        Route.language_rule_fails targetLanguages = Ok false ->
        translateText_calls
          (fst (Route.POST Sample.blank_request (Sample.replying Sample.hello_reply)))
        = [(VStr (lit "   "), targetLanguages)])
  /\ FullscreenTextInput.handleSubmit (lit "   ") = None.
Proof.
  apply (C9_blank_text_passes_the_text_rule Sample.blank_request
           (Sample.replying Sample.hello_reply)
           (VObj [(lit "text", VStr (lit "   "));
                  (lit "targetLanguages",
                   VArr [VStr (lit "es"); VStr (lit "fr"); VStr (lit "de")])])
           (lit "   ")).
  - evaluate.
  - evaluate.
  - simpl; lia.
  - repeat constructor.
Defined.

(** ** C10: a body that is not JSON *)

(** C10.  For every request whose body is not parseable as JSON, that
    is, for which [request.json()] gives no value, the handler returns
    status 500 with the body [{ error: "An error occurred during
    translation." }], not a 400, logs the SyntaxError and never enters
    [translateText]: the rejection of [request.json()] is caught by the
    one [catch] of the handler. *)
Theorem C10_unparseable_body_is_a_500
  (request : Route.Request) (model : Model) :
  (forall v, Route.request_json request <> Ok v) ->
  Route.POST request model
    = ([EvConsoleError (lit "API Translation Error:") SyntaxError],
       Ok (Route.mk_response 500
             (VObj [(lit "error", VStr (lit "An error occurred during translation."))])))
  /\ translateText_calls (fst (Route.POST request model)) = [].
Proof.
  intros H.
  destruct (Route.request_json request) as [v|e] eqn:E; [now elim (H v)|].
  pose proof (JSON_parse_throws _ _ E) as ->.
  rewrite (POST_unparseable request model SyntaxError E). split; reflexivity.
Qed.

(** A body that stops after [{"text":]. *)
Lemma C10_witness :
  Route.POST Sample.truncated_request (Sample.replying Sample.hello_reply)
    = ([EvConsoleError (lit "API Translation Error:") SyntaxError],
       Ok (Route.mk_response 500
             (VObj [(lit "error", VStr (lit "An error occurred during translation."))])))
  /\ translateText_calls
       (fst (Route.POST Sample.truncated_request (Sample.replying Sample.hello_reply))) = [].
Proof.
  apply (C10_unparseable_body_is_a_500 Sample.truncated_request).
  intros v. vm_compute. discriminate.
Defined.

(* ================================================================== *)
(** * Part XII.  Further properties of the code *)
(* ================================================================== *)

(** ** The handler, path by path *)

(** The whole handler, path by path. *)
Lemma POST_run request model :
  Route.POST request model =
  match Route.request_json request with
  | Throw e => ([EvConsoleError (lit "API Translation Error:") e], Ok TranslationFailed_response)
  | Ok body =>
  match Get body (lit "text") with
  | Throw e => ([EvConsoleError (lit "API Translation Error:") e], Ok TranslationFailed_response)
  | Ok text =>
  match Get body (lit "targetLanguages") with
  | Throw e => ([EvConsoleError (lit "API Translation Error:") e], Ok TranslationFailed_response)
  | Ok targetLanguages =>
  match Route.text_rule_fails text with
  | Throw e => ([EvConsoleError (lit "API Translation Error:") e], Ok TranslationFailed_response)
  | Ok true => ([], Ok InvalidText_response)
  | Ok false =>
  match Route.language_rule_fails targetLanguages with
  | Throw e => ([EvConsoleError (lit "API Translation Error:") e], Ok TranslationFailed_response)
  | Ok true => ([], Ok InvalidLanguageCount_response)
  | Ok false =>
  match Gemini.translateText text targetLanguages model with
  | (t, Ok translations) =>
      (t, Ok (Route.mk_response 200 (Route.translations_body translations)))
  | (t, Throw e) =>
      (t ++ [EvConsoleError (lit "API Translation Error:") e], Ok TranslationFailed_response)
  end end end end end end.
Proof.
  unfold Route.POST, try_catch, bind, lift.
  destruct (Route.request_json request) as [body|e]; [|reflexivity].
  destruct (Get body (lit "text")) as [text|e]; [|reflexivity].
  destruct (Get body (lit "targetLanguages")) as [tl|e]; [|reflexivity].
  destruct (Route.text_rule_fails text) as [[|]|e]; try reflexivity.
  destruct (Route.language_rule_fails tl) as [[|]|e]; try reflexivity.
  cbn [app].
  destruct (Gemini.translateText text tl model) as [t [v|e]];
    cbn; rewrite ?app_nil_r; reflexivity.
Qed.


Lemma POST_follows_a_path request model :
  POST_path request model (Route.POST request model).
Proof.
  rewrite POST_run.
  destruct (Route.request_json request) as [body|e] eqn:Hbody; [|constructor].
  destruct (Get body (lit "text")) as [text|e] eqn:Htext; [|constructor].
  destruct (Get body (lit "targetLanguages")) as [tl|e] eqn:Hlangs; [|constructor].
  destruct (Route.text_rule_fails text) as [[|]|e] eqn:H1; try constructor.
  destruct (Route.language_rule_fails tl) as [[|]|e] eqn:H2; try constructor.
  rewrite translateText_run.
  destruct (Gemini.promptTemplate text tl) as [prompt|e] eqn:Hprompt.
  - destruct (model_answer model prompt) as [v|e] eqn:Hanswer.
    + eapply path_translated; eassumption.
    + eapply path_translation_fails; eassumption.
  - eapply path_prompt_throws; eassumption.
Qed.

(** X1.  Whatever the body of the request and whatever the model does,
    [POST] returns a response and throws nothing, and the status of the
    response is 200, 400 or 500. *)
Theorem POST_always_answers (request : Route.Request) (model : Model) :
  exists r, snd (Route.POST request model) = Ok r
            /\ (Route.status r = 200 \/ Route.status r = 400 \/ Route.status r = 500).
Proof.
  destruct (POST_follows_a_path request model); eexists; (split; [reflexivity|]);
    cbn; auto.
Qed.

(** X2.  When [POST] answers with status 500, the last thing it did was to
    call [console.error] with the label [API Translation Error:]; when it
    answers with another status, [console.error] was not called at all,
    neither by the handler nor by [translateText]. *)
Theorem POST_logs_exactly_the_500s (request : Route.Request) (model : Model)
  (r : Route.Response) :
  snd (Route.POST request model) = Ok r ->
  (Route.status r = 500 ->
   exists t e, fst (Route.POST request model)
               = t ++ [EvConsoleError (lit "API Translation Error:") e])
  /\ (Route.status r <> 500 -> console_errors (fst (Route.POST request model)) = []).
Proof.
  destruct (POST_follows_a_path request model); cbn [fst snd];
    intros Hr; injection Hr as <-; (split; [intros Hs|intros Hs]);
    try (cbn in Hs; congruence); try reflexivity.
  - exists [], e. reflexivity.
  - eexists [_], e. reflexivity.
  - eexists [_; _; _], _. reflexivity.
Qed.

Lemma POST_logs_exactly_the_500s_witness :
  (Route.status TranslationFailed_response = 500 ->
   exists t e, fst (Route.POST Sample.hello_request Sample.unreachable_model)
               = t ++ [EvConsoleError (lit "API Translation Error:") e])
  /\ (Route.status TranslationFailed_response <> 500 ->
      console_errors (fst (Route.POST Sample.hello_request Sample.unreachable_model)) = []).
Proof.
  apply (POST_logs_exactly_the_500s Sample.hello_request Sample.unreachable_model).
  evaluate.
Defined.

(** X3.  [POST] sends the model either nothing, or exactly one prompt: the
    one that [promptTemplate] builds from the [text] and the
    [targetLanguages] of the parsed body, after one call of
    [translateText] with these two values. *)
Theorem POST_sends_at_most_the_prompt_of_the_body (request : Route.Request) (model : Model) :
  model_requests (fst (Route.POST request model)) = []
  \/ exists body text targetLanguages prompt,
       Route.request_json request = Ok body
       /\ Get body (lit "text") = Ok text
       /\ Get body (lit "targetLanguages") = Ok targetLanguages
       /\ Gemini.promptTemplate text targetLanguages = Ok prompt
       /\ translateText_calls (fst (Route.POST request model)) = [(text, targetLanguages)]
       /\ model_requests (fst (Route.POST request model)) = [prompt].
Proof.
  destruct (POST_follows_a_path request model); cbn [fst]; try (left; reflexivity);
    right; exists body, text, targetLanguages, prompt; auto 10.
Qed.

(** X4.  When [POST] answers with status 200, it sent exactly one prompt, the
    model answered it, the text of the answer parsed as JSON, the body of
    the response is [{ translations }] with the parsed value, whatever
    that value is, and nothing was logged. *)
Theorem POST_200_is_a_parsed_reply (request : Route.Request) (model : Model)
  (r : Route.Response) :
  snd (Route.POST request model) = Ok r ->
  Route.status r = 200 ->
  exists prompt result reply translations,
    model_requests (fst (Route.POST request model)) = [prompt]
    /\ model prompt = Ok result
    /\ response_text result = Ok reply
    /\ JSON_parse reply = Ok translations
    /\ Route.body r = VObj [(lit "translations", translations)]
    /\ console_errors (fst (Route.POST request model)) = [].
Proof.
  destruct (POST_follows_a_path request model) as [| | | | |? ? ? prompt v _ _ _ _ _ _ Hans];
    cbn [fst snd]; intros Hr; injection Hr as <-; intros Hs; try (cbn in Hs; congruence).
  unfold model_answer, cbind in Hans.
  destruct (model prompt) as [result|] eqn:Hm; [|discriminate].
  destruct (response_text result) as [reply|] eqn:Ht; [|discriminate].
  exists prompt, result, reply, v. auto 10.
Qed.

Lemma POST_200_is_a_parsed_reply_witness :
  exists prompt result reply translations,
    model_requests (fst (Route.POST Sample.hello_request (Sample.replying Sample.hello_reply)))
    = [prompt]
    /\ Sample.replying Sample.hello_reply prompt = Ok result
    /\ response_text result = Ok reply
    /\ JSON_parse reply = Ok translations
    /\ Route.body (Route.mk_response 200 (Route.translations_body Sample.hello_translations))
       = VObj [(lit "translations", translations)]
    /\ console_errors
         (fst (Route.POST Sample.hello_request (Sample.replying Sample.hello_reply))) = [].
Proof.
  apply (POST_200_is_a_parsed_reply Sample.hello_request (Sample.replying Sample.hello_reply)).
  - evaluate.
  - reflexivity.
Defined.

(** Induction on values, through the elements of arrays and the
    properties of objects. *)
Lemma value_induction (P : value -> Prop) :
  P VUndefined -> P VNull -> (forall b, P (VBool b)) -> (forall n, P (VNum n)) ->
  (forall s, P (VStr s)) ->
  (forall l, Forall P l -> P (VArr l)) ->
  (forall props, Forall (fun kv => P (snd kv)) props -> P (VObj props)) ->
  forall v, P v.
Proof.
  intros Hu Hn Hb Hnum Hs Ha Ho. fix IH 1.
  intros [| | b | n | s | l | props];
    [exact Hu | exact Hn | apply Hb | apply Hnum | apply Hs | | ].
  - apply Ha. induction l as [|x l IHl]; constructor; [apply IH | exact IHl].
  - apply Ho. induction props as [|[k x] props IHp]; constructor; [apply IH | exact IHp].
Qed.

Lemma ToString_array l : ToString (VArr l) = Array_join l (lit ",").
Proof.
  reflexivity.
Qed.

(** ToString throws nothing but a TypeError. *)
Lemma ToString_throws v : forall e, ToString v = Throw e -> e = TypeError.
Proof.
  induction v as [| | b | n | s | l IHl | props _] using value_induction;
    try discriminate.
  - rewrite ToString_array. unfold Array_join.
    assert (Hl : forall e', element_strings l = Throw e' -> e' = TypeError).
    { induction IHl as [|x l Hx _ IH]; intros e'; [discriminate|]. simpl.
      assert (Hx' : forall e1, match x with
                               | VUndefined | VNull => Ok []
                               | _ => ToString x
                               end = Throw e1 -> e1 = TypeError).
      { destruct x; try discriminate; exact Hx. }
      destruct (match x with VUndefined | VNull => Ok [] | _ => ToString x end)
        as [sx|e1]; simpl.
      - destruct (element_strings l) as [ss|e2]; simpl; [discriminate|].
        intros H; injection H as <-. now apply IH.
      - intros H; injection H as <-. now apply Hx'. }
    intros e. destruct (element_strings l) as [ss|e1]; simpl; [discriminate|].
    intros H; injection H as <-. now apply Hl.
  - intros e. simpl. destruct (own_property props (lit "toString")); [|discriminate].
    now intros H; injection H as <-.
Qed.

Lemma element_strings_throws l e : element_strings l = Throw e -> e = TypeError.
Proof.
  intros H. apply (ToString_throws (VArr l)). rewrite ToString_array.
  unfold Array_join. now rewrite H.
Qed.

Lemma promptTemplate_throws u l e : Gemini.promptTemplate u l = Throw e -> e = TypeError.
Proof.
  unfold Gemini.promptTemplate.
  destruct (ToString u) as [m|e1] eqn:E1; simpl.
  - destruct l; simpl; try (now intros H; injection H as <-).
    unfold Array_join. destruct (element_strings elems) as [ss|e2] eqn:E2; simpl;
      [discriminate|]. intros H; injection H as <-. now apply (element_strings_throws _ _ E2).
  - intros H; injection H as <-. now apply (ToString_throws _ _ E1).
Qed.

Lemma promptTemplate_not_an_array u l :
  (forall elems, l <> VArr elems) -> Gemini.promptTemplate u l = Throw TypeError.
Proof.
  intros Hl. unfold Gemini.promptTemplate.
  destruct (ToString u) as [m|e1] eqn:E1; simpl.
  - destruct l; try reflexivity. now elim (Hl elems).
  - now rewrite (ToString_throws _ _ E1).
Qed.

(** X5.  [translateText] throws in two ways only.  Either building the prompt
    threw a [TypeError], and then nothing was sent to the model and
    nothing was logged; or the prompt was built and sent, the failure was
    logged once with the label [Error during translation:], and what is
    thrown is [Error] with the message [Translation failed], whatever the
    cause was. *)
Theorem translateText_fails_in_two_ways
  (userMessage targetLanguages : value) (model : Model) (t : list event) (e : exn) :
  Gemini.translateText userMessage targetLanguages model = (t, Throw e) ->
  (e = TypeError /\ model_requests t = [] /\ console_errors t = [])
  \/ (e = Error (lit "Translation failed")
      /\ exists prompt cause,
           Gemini.promptTemplate userMessage targetLanguages = Ok prompt
           /\ model_requests t = [prompt]
           /\ console_errors t = [(lit "Error during translation:", cause)]).
Proof.
  rewrite translateText_run.
  destruct (Gemini.promptTemplate userMessage targetLanguages) as [prompt|e1] eqn:Hp.
  - destruct (model_answer model prompt) as [v|cause]; [discriminate|].
    intros H; injection H as <- <-. right. split; [reflexivity|].
    exists prompt, cause. auto.
  - intros H; injection H as <- <-. left.
    split; [now apply (promptTemplate_throws _ _ _ Hp) | auto].
Qed.

Lemma translateText_fails_in_two_ways_witness :
  (Error (lit "Translation failed") = TypeError
   /\ model_requests
        [EvTranslateText (VStr (lit "Hi")) (VArr [VStr (lit "es")]);
         EvSendMessage (Gemini.prompt_text (lit "Hi") (lit "es"));
         EvConsoleError (lit "Error during translation:") (External (lit "fetch failed"))] = []
   /\ console_errors
        [EvTranslateText (VStr (lit "Hi")) (VArr [VStr (lit "es")]);
         EvSendMessage (Gemini.prompt_text (lit "Hi") (lit "es"));
         EvConsoleError (lit "Error during translation:") (External (lit "fetch failed"))] = [])
  \/ (Error (lit "Translation failed") = Error (lit "Translation failed")
      /\ exists prompt cause,
           Gemini.promptTemplate (VStr (lit "Hi")) (VArr [VStr (lit "es")]) = Ok prompt
           /\ model_requests
                [EvTranslateText (VStr (lit "Hi")) (VArr [VStr (lit "es")]);
                 EvSendMessage (Gemini.prompt_text (lit "Hi") (lit "es"));
                 EvConsoleError (lit "Error during translation:")
                   (External (lit "fetch failed"))] = [prompt]
           /\ console_errors
                [EvTranslateText (VStr (lit "Hi")) (VArr [VStr (lit "es")]);
                 EvSendMessage (Gemini.prompt_text (lit "Hi") (lit "es"));
                 EvConsoleError (lit "Error during translation:")
                   (External (lit "fetch failed"))]
              = [(lit "Error during translation:", cause)]).
Proof.
  apply (translateText_fails_in_two_ways (VStr (lit "Hi")) (VArr [VStr (lit "es")])
           Sample.unreachable_model).
  evaluate.
Defined.

(** X6.  When the body passes both rules and its [targetLanguages] is not an
    array (a string of length 3, say), [promptTemplate] throws a
    [TypeError] outside the [try] of [translateText]: the handler answers
    500 with the generic message, nothing is sent to the model, and the
    only log entry is that of the handler. *)
Theorem POST_language_list_that_is_not_an_array
  (request : Route.Request) (model : Model) (body text targetLanguages : value) :
  Route.request_json request = Ok body ->
  Get body (lit "text") = Ok text ->
  Get body (lit "targetLanguages") = Ok targetLanguages ->
  Route.text_rule_fails text = Ok false ->
  Route.language_rule_fails targetLanguages = Ok false ->
  (forall elems, targetLanguages <> VArr elems) ->
  Route.POST request model
  = ([EvTranslateText text targetLanguages;
      EvConsoleError (lit "API Translation Error:") TypeError],
     Ok (Route.mk_response 500
           (VObj [(lit "error", VStr (lit "An error occurred during translation."))]))).
Proof.
  intros Hbody Htext Hlangs H1 H2 Hna.
  rewrite (POST_forwards request model body _ _ Hbody Htext Hlangs H1 H2).
  rewrite translateText_run, (promptTemplate_not_an_array _ _ Hna). reflexivity.
Qed.

Lemma POST_language_list_that_is_not_an_array_witness :
  Route.POST (Sample.request_of (Sample.quoted "Hi") (Sample.quoted "abc"))
    (Sample.replying Sample.hello_reply)
  = ([EvTranslateText (VStr (lit "Hi")) (VStr (lit "abc"));
      EvConsoleError (lit "API Translation Error:") TypeError],
     Ok (Route.mk_response 500
           (VObj [(lit "error", VStr (lit "An error occurred during translation."))]))).
Proof.
  apply (POST_language_list_that_is_not_an_array _ _
           (VObj [(lit "text", VStr (lit "Hi")); (lit "targetLanguages", VStr (lit "abc"))])).
  - evaluate.
  - evaluate.
  - evaluate.
  - evaluate.
  - evaluate.
  - discriminate.
Defined.

(** A truthy value without a [length] passes the text rule. *)
Lemma text_rule_no_length text :
  ToBoolean text = true -> Get text (lit "length") = Ok VUndefined ->
  Route.text_rule_fails text = Ok false.
Proof.
  intros Ht Hl. unfold Route.text_rule_fails. rewrite Ht, Hl. reflexivity.
Qed.

(** X7.  The text rule is no type check.  When the [text] of the body is
    [true] or a number other than 0 and NaN, and [targetLanguages] is an
    array of three strings, the handler calls [translateText] with that
    value, and the prompt it sends holds the value converted to a
    string. *)
Theorem POST_forwards_a_text_that_is_no_string
  (request : Route.Request) (model : Model) (body text : value)
  (languages : list jsstring) :
  Route.request_json request = Ok body ->
  Get body (lit "text") = Ok text ->
  Get body (lit "targetLanguages") = Ok (VArr (map VStr languages)) ->
  length languages = 3%nat ->
  text = VBool true \/ (exists n, text = VNum n /\ number_truthy n = true) ->
  exists message,
    ToString text = Ok message
    /\ translateText_calls (fst (Route.POST request model))
       = [(text, VArr (map VStr languages))]
    /\ model_requests (fst (Route.POST request model))
       = [Gemini.prompt_text message (join_strings (lit ", ") languages)].
Proof.
  intros Hbody Htext Hlangs H3 Hcase.
  assert (H1 : Route.text_rule_fails text = Ok false).
  { destruct Hcase as [->|(n & -> & Hn)]; apply text_rule_no_length;
      try reflexivity; exact Hn. }
  assert (H2 : Route.language_rule_fails (VArr (map VStr languages)) = Ok false)
    by (rewrite language_rule_array, length_map, H3; reflexivity).
  assert (Hs : exists message, ToString text = Ok message).
  { destruct Hcase as [->|(n & -> & _)]; eexists; reflexivity. }
  destruct Hs as [message Hs]. exists message. split; [exact Hs|].
  split; [exact (POST_forwards_once _ model _ _ _ Hbody Htext Hlangs H1 H2)|].
  rewrite (POST_forwards _ model _ _ _ Hbody Htext Hlangs H1 H2), translateText_run.
  assert (Hp : Gemini.promptTemplate text (VArr (map VStr languages))
               = Ok (Gemini.prompt_text message (join_strings (lit ", ") languages))).
  { unfold Gemini.promptTemplate, call_join, Array_join. rewrite Hs.
    unfold cbind at 1. rewrite element_strings_strs. reflexivity. }
  rewrite Hp. destruct (model_answer model _); reflexivity.
Qed.

Lemma POST_forwards_a_text_that_is_no_string_witness :
  exists message,
    ToString (VBool true) = Ok message
    /\ translateText_calls (fst (Route.POST Sample.true_request Sample.unreachable_model))
       = [(VBool true, VArr (map VStr [lit "es"; lit "fr"; lit "de"]))]
    /\ model_requests (fst (Route.POST Sample.true_request Sample.unreachable_model))
       = [Gemini.prompt_text message (join_strings (lit ", ") [lit "es"; lit "fr"; lit "de"])].
Proof.
  apply (POST_forwards_a_text_that_is_no_string Sample.true_request Sample.unreachable_model
           (VObj [(lit "text", VBool true);
                  (lit "targetLanguages", VArr (map VStr [lit "es"; lit "fr"; lit "de"]))])).
  - evaluate.
  - evaluate.
  - evaluate.
  - reflexivity.
  - left. reflexivity.
Defined.

(** X8.  The prompt does not determine the arguments it was built from: a
    list of one language that contains a comma and a space gives the
    prompt of a list of two, and a text that contains a double quote and
    the words of the template gives the prompt of a shorter text with a
    longer language. *)
Theorem promptTemplate_is_ambiguous (text a b : jsstring) :
  Gemini.promptTemplate (VStr text) (VArr [VStr (a ++ lit ", " ++ b)])
  = Gemini.promptTemplate (VStr text) (VArr [VStr a; VStr b])
  /\ Gemini.promptTemplate
       (VStr (text ++ [dquote] ++ lit " into the following languages: " ++ a))
       (VArr [VStr b])
     = Gemini.promptTemplate (VStr text)
         (VArr [VStr (a ++ [dquote] ++ lit " into the following languages: " ++ b)]).
Proof.
  split.
  - transitivity (Ok (Gemini.prompt_text text (a ++ lit ", " ++ b)));
      [exact (promptTemplate_strings text [_])
      | symmetry; exact (promptTemplate_strings text [a; b])].
  - transitivity
      (Ok (Gemini.prompt_text
             (text ++ [dquote] ++ lit " into the following languages: " ++ a) b));
      [exact (promptTemplate_strings _ [b])|].
    transitivity
      (Ok (Gemini.prompt_text text
             (a ++ [dquote] ++ lit " into the following languages: " ++ b)));
      [|symmetry; exact (promptTemplate_strings text [_])].
    unfold Gemini.prompt_text. f_equal.
    repeat rewrite <- app_assoc. reflexivity.
Qed.

(** ** The form: [trim] and [handleSubmit] *)

Lemma trimStart_split s :
  exists a, s = a ++ trimStart s /\ blank a.
Proof.
  induction s as [|c s (a & Hs & Ha)]; [exists []; split; [reflexivity|constructor]|].
  simpl. destruct (is_white_space c) eqn:Hc.
  - exists (c :: a). split; [simpl; now rewrite <- Hs | now constructor].
  - exists []. split; [reflexivity | constructor].
Qed.

Lemma trimStart_head s c r : trimStart s = c :: r -> is_white_space c = false.
Proof.
  induction s as [|x s IH]; simpl; [discriminate|].
  destruct (is_white_space x) eqn:Hx; [exact IH|].
  intros H; injection H as <- _. exact Hx.
Qed.

Lemma trimStart_fixed s :
  (forall c r, s = c :: r -> is_white_space c = false) -> trimStart s = s.
Proof.
  destruct s as [|c r]; [reflexivity|]. intros H. simpl. now rewrite (H c r eq_refl).
Qed.

Lemma trimStart_snoc l c :
  is_white_space c = false -> trimStart (l ++ [c]) = trimStart l ++ [c].
Proof.
  intros Hc. induction l as [|x l IH]; simpl; [now rewrite Hc|].
  destruct (is_white_space x); [exact IH | reflexivity].
Qed.

Lemma blank_rev s : blank s -> blank (rev s).
Proof. unfold blank. intros H. apply Forall_forall. intros c Hc.
  apply in_rev in Hc. revert c Hc. now apply Forall_forall. Qed.

Lemma trimEnd_split s :
  exists b, s = trimEnd s ++ b /\ blank b.
Proof.
  unfold trimEnd. destruct (trimStart_split (rev s)) as (a & Hs & Ha).
  exists (rev a). split; [|now apply blank_rev].
  rewrite <- rev_app_distr, <- Hs. now rewrite rev_involutive.
Qed.

Lemma trimEnd_last s r c : trimEnd s = r ++ [c] -> is_white_space c = false.
Proof.
  unfold trimEnd. intros H. apply (f_equal (@rev N)) in H.
  rewrite rev_involutive, rev_app_distr in H. simpl in H.
  exact (trimStart_head _ _ _ H).
Qed.

Lemma trimEnd_fixed s :
  (forall r c, s = r ++ [c] -> is_white_space c = false) -> trimEnd s = s.
Proof.
  intros H. unfold trimEnd. rewrite trimStart_fixed; [apply rev_involutive|].
  intros c r Hr. apply (H (rev r) c).
  rewrite <- (rev_involutive s), Hr. reflexivity.
Qed.

(** Trimming the end keeps a first code unit that is not white space. *)
Lemma trimEnd_head c r :
  is_white_space c = false -> exists r', trimEnd (c :: r) = c :: r'.
Proof.
  intros Hc. unfold trimEnd. simpl rev.
  rewrite (trimStart_snoc _ _ Hc), rev_app_distr. simpl. eauto.
Qed.

Lemma trim_tight s : tight (trim s).
Proof.
  unfold trim. split.
  - intros c r H. destruct (trimStart s) as [|x xs] eqn:E; [discriminate|].
    pose proof (trimStart_head _ _ _ E) as Hx.
    destruct (trimEnd_head x xs Hx) as [r' Hr']. rewrite Hr' in H.
    injection H as <- _. exact Hx.
  - intros r c H. exact (trimEnd_last _ _ _ H).
Qed.

Lemma trim_fixed s : tight s -> trim s = s.
Proof.
  intros [H1 H2]. unfold trim. rewrite (trimStart_fixed s H1). now apply trimEnd_fixed.
Qed.

Lemma trim_split s :
  exists a b, s = a ++ trim s ++ b /\ blank a /\ blank b.
Proof.
  destruct (trimStart_split s) as (a & Hs & Ha).
  destruct (trimEnd_split (trimStart s)) as (b & Ht & Hb).
  exists a, b. unfold trim. rewrite <- Ht. auto.
Qed.

Lemma trim_length s : (length (trim s) <= length s)%nat.
Proof.
  destruct (trim_split s) as (a & b & Hs & _).
  rewrite Hs at 2. rewrite !length_app. lia.
Qed.

Lemma trim_empty_iff s : trim s = [] <-> blank s.
Proof.
  split; [|apply trim_blank].
  intros H. destruct (trim_split s) as (a & b & Hs & Ha & Hb).
  rewrite H in Hs. rewrite Hs. apply Forall_app. auto.
Qed.

(** When the form submits, it submits the trimmed text, which has from
    1 to 140 code units. *)
Lemma handleSubmit_Some text t :
  FullscreenTextInput.handleSubmit text = Some t ->
  t = trim text /\ (1 <= length t <= 140)%nat.
Proof.
  unfold FullscreenTextInput.handleSubmit.
  destruct (Nat.eqb_spec (length (trim text)) 0) as [|Hne]; [discriminate|].
  destruct (Nat.ltb_spec 140 (length text)) as [|Hle]; [discriminate|].
  cbn [orb]. intros H; injection H as <-.
  pose proof (trim_length text) as Hl. split; [reflexivity | lia].
Qed.

(** X9.  When [handleSubmit] of the form calls [onSubmit], it passes the
    trimmed text: from 1 to 140 code units, no white space at either end,
    the typed text without a blank prefix and a blank suffix.  That text
    passes the text rule of the handler, and submitting it again would
    submit it unchanged. *)
Theorem handleSubmit_submits_a_tight_text (text t : jsstring) :
  FullscreenTextInput.handleSubmit text = Some t ->
  t = trim text
  /\ (1 <= length t <= 140)%nat
  /\ tight t
  /\ (exists a b, text = a ++ t ++ b /\ blank a /\ blank b)
  /\ Route.text_rule_fails (VStr t) = Ok false
  /\ FullscreenTextInput.handleSubmit t = Some t.
Proof.
  intros H. destruct (handleSubmit_Some text t H) as [-> Hlen].
  split; [reflexivity|]. split; [exact Hlen|].
  split; [apply trim_tight|]. split; [apply trim_split|].
  split; [now apply text_rule_passes|].
  unfold FullscreenTextInput.handleSubmit.
  rewrite (trim_fixed _ (trim_tight text)).
  destruct (Nat.eqb_spec (length (trim text)) 0); [lia|].
  destruct (Nat.ltb_spec 140 (length (trim text))); [lia|reflexivity].
Qed.

Lemma handleSubmit_submits_a_tight_text_witness :
  lit "Hello World" = trim (lit "  Hello World ")
  /\ (1 <= length (lit "Hello World") <= 140)%nat
  /\ tight (lit "Hello World")
  /\ (exists a b, lit "  Hello World " = a ++ lit "Hello World" ++ b /\ blank a /\ blank b)
  /\ Route.text_rule_fails (VStr (lit "Hello World")) = Ok false
  /\ FullscreenTextInput.handleSubmit (lit "Hello World") = Some (lit "Hello World").
Proof.
  apply (handleSubmit_submits_a_tight_text (lit "  Hello World ")). evaluate.
Defined.

(** X10.  [handleSubmit] of the form returns without calling [onSubmit]
    exactly when the typed text is white space only (the empty text
    included) or longer than 140 code units. *)
Theorem handleSubmit_refuses_blank_and_long (text : jsstring) :
  FullscreenTextInput.handleSubmit text = None
  <-> blank text \/ (140 < length text)%nat.
Proof.
  unfold FullscreenTextInput.handleSubmit. rewrite <- trim_empty_iff.
  destruct (Nat.eqb_spec (length (trim text)) 0) as [He|Hne];
    destruct (Nat.ltb_spec 140 (length text)) as [Hl|Hle]; cbn [orb];
    split; intros H; try reflexivity; try discriminate; auto.
  - left. now apply length_zero_iff_nil.
  - destruct H as [H|H]; [rewrite H in Hne; now elim Hne | lia].
Qed.

(** ** The modal: the selection *)

Section Selection.

Import LanguageSelectionModal.

Lemma includes_In l x : includes l x = true <-> In x l.
Proof.
  unfold includes. rewrite existsb_exists. split.
  - intros (y & Hy & E). apply str_eqb_eq in E. now subst.
  - intros H. exists x. split; [exact H | apply str_eqb_refl].
Qed.

Lemma includes_false l x : includes l x = false <-> ~ In x l.
Proof.
  rewrite <- includes_In. destruct (includes l x); split; congruence.
Qed.

Lemma str_eqb_sym a b : str_eqb a b = str_eqb b a.
Proof.
  destruct (str_eqb a b) eqn:E1, (str_eqb b a) eqn:E2; try reflexivity.
  - apply str_eqb_eq in E1. subst. now rewrite str_eqb_refl in E2.
  - apply str_eqb_eq in E2. subst. now rewrite str_eqb_refl in E1.
Qed.

Lemma In_toggleLanguage c l d :
  In d (toggleLanguage c l) <-> (d <> c /\ In d l) \/ (d = c /\ ~ In c l).
Proof.
  unfold toggleLanguage. destruct (includes l c) eqn:E.
  - apply includes_In in E. rewrite filter_In. split.
    + intros [Hd Hn]. left. split; [|exact Hd].
      intros ->. now rewrite str_eqb_refl in Hn.
    + intros [[Hn Hd]|[-> Hn]]; [|contradiction]. split; [exact Hd|].
      destruct (str_eqb d c) eqn:Ed; [apply str_eqb_eq in Ed; contradiction|reflexivity].
  - apply includes_false in E. rewrite in_app_iff. simpl. split.
    + intros [Hd|[<-|[]]]; [|now right].
      left. split; [|exact Hd]. now intros ->.
    + intros [[_ Hd]|[-> _]]; auto.
Qed.

Lemma NoDup_toggleLanguage c l : NoDup l -> NoDup (toggleLanguage c l).
Proof.
  intros Hl. unfold toggleLanguage. destruct (includes l c) eqn:E.
  - now apply NoDup_filter.
  - apply includes_false in E. apply NoDup_app; [exact Hl | repeat constructor; auto |].
    intros x Hx [<-|[]]. contradiction.
Qed.

Lemma filter_out_length c l :
  NoDup l -> In c l ->
  S (length (filter (fun x => negb (str_eqb x c)) l)) = length l.
Proof.
  induction 1 as [|x l Hx Hl IH]; [intros []|]. intros [->|Hc]; simpl.
  - rewrite str_eqb_refl. simpl. f_equal.
    clear IH Hl. induction l as [|y l IHl]; [reflexivity|]. simpl.
    destruct (str_eqb y c) eqn:E.
    + apply str_eqb_eq in E. subst. elim Hx. now left.
    + simpl. f_equal. apply IHl. intros H. apply Hx. now right.
  - destruct (str_eqb x c) eqn:E.
    + apply str_eqb_eq in E. subst. contradiction.
    + simpl. f_equal. now apply IH.
Qed.

Lemma perform_keeps_picker_invariant a s :
  offered a -> picker_invariant s -> picker_invariant (perform a s).
Proof.
  intros Ha (Hnd & Hin & Hcl). destruct s as [o sel]. simpl in *.
  destruct a as [|lang| |]; simpl.
  - split; [exact Hnd|]. split; [exact Hin|]. discriminate.
  - destruct o; simpl; [|repeat split; auto].
    destruct (checkbox_disabled sel (code lang)); simpl; [repeat split; auto; discriminate|].
    split; [now apply NoDup_toggleLanguage|]. split; [|discriminate].
    intros c Hc. apply In_toggleLanguage in Hc as [[_ Hc]|[-> _]]; [now apply Hin|].
    now apply in_map.
  - destruct o; simpl; [|repeat split; auto].
    destruct (submit_disabled sel); simpl; [repeat split; auto; discriminate|].
    unfold handleSubmit. destruct (Nat.eqb (length sel) 3); simpl.
    + repeat split; [constructor | intros c []].
    + repeat split; auto; discriminate.
  - destruct o; simpl; [|repeat split; auto].
    repeat split; [constructor | intros c []].
Qed.

Lemma reachable_picker_invariant s : reachable s -> picker_invariant s.
Proof.
  induction 1 as [|s a _ IH Ha].
  - repeat split; [constructor | intros c []].
  - now apply perform_keeps_picker_invariant.
Qed.

(** X11.  [toggleLanguage(code)] flips whether [code] is selected and leaves
    the membership of every other code as it was. *)
Theorem toggleLanguage_flips_one_membership (c d : jsstring) (l : list jsstring) :
  includes (toggleLanguage c l) d
  = if str_eqb d c then negb (includes l c) else includes l d.
Proof.
  destruct (str_eqb d c) eqn:E.
  - apply str_eqb_eq in E. subst d.
    destruct (includes l c) eqn:Hc; simpl.
    + apply includes_false. rewrite In_toggleLanguage. apply includes_In in Hc. tauto.
    + apply includes_In. rewrite In_toggleLanguage. apply includes_false in Hc. tauto.
  - assert (Hne : d <> c) by (intros ->; now rewrite str_eqb_refl in E).
    destruct (includes l d) eqn:Hd.
    + apply includes_In. rewrite In_toggleLanguage. apply includes_In in Hd. tauto.
    + apply includes_false. rewrite In_toggleLanguage. apply includes_false in Hd. tauto.
Qed.

(** X12.  Toggling a code that is not selected appends it at the end of the
    selection, and toggling it once more gives the selection back as it
    was, in the same order. *)
Theorem toggleLanguage_tick_then_untick (c : jsstring) (l : list jsstring) :
  includes l c = false ->
  toggleLanguage c l = l ++ [c]
  /\ toggleLanguage c (toggleLanguage c l) = l.
Proof.
  intros Hc. assert (H1 : toggleLanguage c l = l ++ [c])
    by (unfold toggleLanguage; now rewrite Hc).
  split; [exact H1|]. rewrite H1. unfold toggleLanguage.
  assert (Hin : includes (l ++ [c]) c = true)
    by (apply includes_In, in_app_iff; right; now left).
  rewrite Hin, filter_app. simpl. rewrite str_eqb_refl. simpl. rewrite app_nil_r.
  apply includes_false in Hc. clear H1 Hin.
  induction l as [|x l IH]; [reflexivity|]. simpl.
  destruct (str_eqb x c) eqn:E.
  - apply str_eqb_eq in E. subst. elim Hc. now left.
  - simpl. f_equal. apply IH. intros H. apply Hc. now right.
Qed.

Lemma toggleLanguage_tick_then_untick_witness :
  LanguageSelectionModal.toggleLanguage (lit "es") [lit "en"] = [lit "en"] ++ [lit "es"]
  /\ LanguageSelectionModal.toggleLanguage (lit "es")
       (LanguageSelectionModal.toggleLanguage (lit "es") [lit "en"]) = [lit "en"].
Proof.
  apply (toggleLanguage_tick_then_untick (lit "es") [lit "en"]). reflexivity.
Defined.

(** X13.  In every state that the modal reaches through its controls, the
    selection has no duplicates, holds codes of [COMMON_LANGUAGES] only,
    and is empty while the modal is closed; so what [handleSubmit] hands
    to [onSelectLanguages] is three distinct codes of the catalogue. *)
Theorem modal_selection_is_distinct_and_from_the_catalogue (s : State) :
  reachable s ->
  NoDup (selectedLanguages s)
  /\ (forall c, In c (selectedLanguages s) -> In c (map code COMMON_LANGUAGES))
  /\ (isOpen s = false -> selectedLanguages s = [])
  /\ (forall l, handleSubmit (selectedLanguages s) = Some l ->
                length l = 3%nat /\ NoDup l
                /\ forall c, In c l -> In c (map code COMMON_LANGUAGES)).
Proof.
  intros Hs. destruct (reachable_picker_invariant s Hs) as (Hnd & Hin & Hcl).
  repeat (split; [assumption|]).
  intros l. unfold handleSubmit.
  destruct (Nat.eqb_spec (length (selectedLanguages s)) 3); [|discriminate].
  intros H; injection H as <-. auto.
Qed.

Lemma modal_selection_is_distinct_and_from_the_catalogue_witness :
  NoDup (selectedLanguages Sample.three_ticked)
  /\ (forall c, In c (selectedLanguages Sample.three_ticked) -> In c (map code COMMON_LANGUAGES))
  /\ (isOpen Sample.three_ticked = false -> selectedLanguages Sample.three_ticked = [])
  /\ (forall l, handleSubmit (selectedLanguages Sample.three_ticked) = Some l ->
                length l = 3%nat /\ NoDup l
                /\ forall c, In c l -> In c (map code COMMON_LANGUAGES)).
Proof.
  apply (modal_selection_is_distinct_and_from_the_catalogue Sample.three_ticked).
  unfold Sample.three_ticked.
  repeat (apply reachable_step; [|simpl; tauto]).
  apply reachable_initial.
Defined.

Lemma reachable_bound s : reachable s -> (length (selectedLanguages s) <= 3)%nat.
Proof.
  induction 1 as [|s a _ IH _]; [simpl; lia | now apply perform_bound].
Qed.

(** X14.  In every reachable state of the open modal, clicking the checkbox of
    a selected language is not blocked by the limit: the language leaves
    the selection, the selection gets shorter by one, and after that no
    checkbox is disabled. *)
Theorem ticked_box_can_be_unticked (s : State) (lang : Language) :
  reachable s ->
  isOpen s = true ->
  includes (selectedLanguages s) (code lang) = true ->
  includes (selectedLanguages (perform (ClickCheckbox lang) s)) (code lang) = false
  /\ S (length (selectedLanguages (perform (ClickCheckbox lang) s)))
     = length (selectedLanguages s)
  /\ (forall c, checkbox_disabled (selectedLanguages (perform (ClickCheckbox lang) s)) c
                = false).
Proof.
  intros Hs Ho Hin.
  destruct (reachable_picker_invariant s Hs) as (Hnd & _ & _).
  pose proof (reachable_bound s Hs) as Hle.
  assert (Hp : selectedLanguages (perform (ClickCheckbox lang) s)
               = filter (fun x => negb (str_eqb x (code lang))) (selectedLanguages s)).
  { unfold perform, checkbox_disabled, toggleLanguage. rewrite Ho, Hin. reflexivity. }
  rewrite Hp.
  pose proof (filter_out_length (code lang) _ Hnd (proj1 (includes_In _ _) Hin)) as Hlen.
  split; [|split; [exact Hlen|]].
  - apply includes_false. rewrite filter_In. intros [_ H].
    now rewrite str_eqb_refl in H.
  - intros c. unfold checkbox_disabled.
    destruct (Nat.leb_spec 3 (length (filter (fun x => negb (str_eqb x (code lang)))
                                        (selectedLanguages s)))); [lia|].
    apply andb_false_r.
Qed.

Lemma ticked_box_can_be_unticked_witness :
  includes (selectedLanguages
              (perform (ClickCheckbox (mk_language (lit "es") (lit "Spanish")))
                 Sample.three_ticked)) (lit "es") = false
  /\ S (length (selectedLanguages
                  (perform (ClickCheckbox (mk_language (lit "es") (lit "Spanish")))
                     Sample.three_ticked)))
     = length (selectedLanguages Sample.three_ticked)
  /\ (forall c, checkbox_disabled
                  (selectedLanguages
                     (perform (ClickCheckbox (mk_language (lit "es") (lit "Spanish")))
                        Sample.three_ticked)) c = false).
Proof.
  apply (ticked_box_can_be_unticked Sample.three_ticked
           (mk_language (lit "es") (lit "Spanish"))).
  - unfold Sample.three_ticked.
    repeat (apply reachable_step; [|simpl; tauto]).
    apply reachable_initial.
  - reflexivity.
  - reflexivity.
Defined.

End Selection.

(** ** JSON.parse after JSON.stringify *)

Lemma lex_cons st c r :
  lex st (c :: r)
  = match lex_step st c with
    | Some (ts, st') => option_map (app ts) (lex st' r)
    | None => None
    end.
Proof. simpl. destruct (lex_step st c) as [[ts st']|]; [|reflexivity].
  destruct (lex st' r); reflexivity. Qed.

Lemma option_map_app_nil (o : option (list token)) : option_map (app []) o = o.
Proof. destruct o; reflexivity. Qed.

(** A code unit that stands for itself inside a JSON string. *)
Lemma lex_plain_unit acc c r :
  (c =? 34)%N = false -> (c =? 92)%N = false -> (c <? 32)%N = false ->
  lex (LString acc) (c :: r) = lex (LString (c :: acc)) r.
Proof.
  intros H1 H2 H3. rewrite lex_cons. unfold lex_step. rewrite H1, H2, H3.
  apply option_map_app_nil.
Qed.

Lemma lex_short_escape acc c x r :
  escape_char c = Some x -> (c =? 117)%N = false ->
  lex (LString acc) (92%N :: c :: r) = lex (LString (x :: acc)) r.
Proof.
  intros Hc Hu. rewrite lex_cons. cbn [lex_step N.eqb Pos.eqb].
  rewrite option_map_app_nil, lex_cons. unfold lex_step. rewrite Hu, Hc.
  apply option_map_app_nil.
Qed.

Lemma hex_value_hex_digit d : (d < 16)%N -> hex_value (hex_digit d) = Some (Z.of_N d).
Proof.
  intros Hd. unfold hex_digit, hex_value, is_digit.
  destruct (N.ltb_spec d 10).
  - replace ((48 <=? 48 + d)%N) with true by (symmetry; apply N.leb_le; lia).
    replace ((48 + d <=? 57)%N) with true by (symmetry; apply N.leb_le; lia).
    cbn [andb]. f_equal. lia.
  - replace ((87 + d <=? 57)%N) with false by (symmetry; apply N.leb_gt; lia).
    rewrite andb_false_r.
    replace ((97 <=? 87 + d)%N) with true by (symmetry; apply N.leb_le; lia).
    replace ((87 + d <=? 102)%N) with true by (symmetry; apply N.leb_le; lia).
    cbn [andb]. f_equal. lia.
Qed.

Lemma lex_unicode_escape acc c r :
  (c < 65536)%N ->
  lex (LString acc) (unicode_escape c ++ r) = lex (LString (c :: acc)) r.
Proof.
  intros Hc. unfold unicode_escape. cbn [app].
  rewrite lex_cons. cbn [lex_step N.eqb Pos.eqb]. rewrite option_map_app_nil.
  rewrite lex_cons. cbn [lex_step N.eqb Pos.eqb]. rewrite option_map_app_nil.
  assert (H3 : (c / 4096 < 16)%N) by (apply N.Div0.div_lt_upper_bound; lia).
  assert (H2 : ((c / 256) mod 16 < 16)%N) by (apply N.mod_lt; lia).
  assert (H1 : ((c / 16) mod 16 < 16)%N) by (apply N.mod_lt; lia).
  assert (H0 : (c mod 16 < 16)%N) by (apply N.mod_lt; lia).
  rewrite lex_cons. unfold lex_step at 1. rewrite (hex_value_hex_digit _ H3), option_map_app_nil.
  rewrite lex_cons. unfold lex_step at 1. rewrite (hex_value_hex_digit _ H2), option_map_app_nil.
  rewrite lex_cons. unfold lex_step at 1. rewrite (hex_value_hex_digit _ H1), option_map_app_nil.
  rewrite lex_cons. unfold lex_step at 1. rewrite (hex_value_hex_digit _ H0), option_map_app_nil.
  do 2 f_equal. f_equal.
  apply N2Z.inj.
  pose proof (N2Z.is_nonneg (c / 4096)). pose proof (N2Z.is_nonneg ((c / 256) mod 16)).
  pose proof (N2Z.is_nonneg ((c / 16) mod 16)). pose proof (N2Z.is_nonneg (c mod 16)).
  rewrite Z2N.id by nia.
  rewrite !N2Z.inj_mod, !N2Z.inj_div. cbn [Z.of_N].
  pose proof (N2Z.is_nonneg c) as Hz. set (z := Z.of_N c) in *.
  assert (Hz' : z < 65536) by (unfold z; lia).
  clearbody z. clear - Hz Hz'.
  change 4096 with (16 * 16 * 16). change 256 with (16 * 16).
  rewrite <- !Z.div_div by lia.
  Z.to_euclidean_division_equations. lia.
Qed.

Lemma lex_quote_unit acc c r :
  lex (LString acc) (quote_unit c ++ r) = lex (LString (c :: acc)) r.
Proof.
  unfold quote_unit.
  destruct (N.eqb_spec c 8) as [->|H8]; [now apply lex_short_escape|].
  destruct (N.eqb_spec c 9) as [->|H9]; [now apply lex_short_escape|].
  destruct (N.eqb_spec c 10) as [->|H10]; [now apply lex_short_escape|].
  destruct (N.eqb_spec c 12) as [->|H12]; [now apply lex_short_escape|].
  destruct (N.eqb_spec c 13) as [->|H13]; [now apply lex_short_escape|].
  destruct (N.eqb_spec c 34) as [->|H34]; [now apply lex_short_escape|].
  destruct (N.eqb_spec c 92) as [->|H92]; [now apply lex_short_escape|].
  destruct ((c <? 32)%N || is_high_surrogate c || is_low_surrogate c) eqn:E.
  - apply lex_unicode_escape.
    apply orb_true_iff in E as [E|E]; [apply orb_true_iff in E as [E|E]|].
    + apply N.ltb_lt in E. lia.
    + unfold is_high_surrogate in E. apply andb_true_iff in E as [_ E].
      apply N.leb_le in E. lia.
    + unfold is_low_surrogate in E. apply andb_true_iff in E as [_ E].
      apply N.leb_le in E. lia.
  - apply orb_false_iff in E as [E _]. apply orb_false_iff in E as [E _].
    cbn [app]. apply lex_plain_unit; [now apply N.eqb_neq | now apply N.eqb_neq | exact E].
Qed.

Lemma lex_surrogate acc c r :
  (55296 <=? c)%N = true -> lex (LString acc) (c :: r) = lex (LString (c :: acc)) r.
Proof.
  intros H. apply N.leb_le in H.
  apply lex_plain_unit; [apply N.eqb_neq | apply N.eqb_neq | apply N.ltb_ge]; lia.
Qed.

Lemma quote_units_two c d r :
  quote_units (c :: d :: r)
  = if is_high_surrogate c && is_low_surrogate d
    then c :: d :: quote_units r
    else quote_unit c ++ quote_units (d :: r).
Proof. reflexivity. Qed.

Lemma lex_quote_units_bounded n :
  forall s acc rest, (length s <= n)%nat ->
  lex (LString acc) (quote_units s ++ dquote :: rest) = lex_after (TString (rev acc ++ s)) rest.
Proof.
  induction n as [|n IH]; intros s acc rest Hn.
  - destruct s; [|simpl in Hn; lia]. simpl quote_units. cbn [app].
    rewrite lex_cons. cbn [lex_step dquote N.eqb Pos.eqb]. now rewrite app_nil_r.
  - destruct s as [|c [|d r]].
    + apply (IH [] acc rest). simpl; lia.
    + cbn [quote_units]. rewrite lex_quote_unit.
      change (dquote :: rest) with (quote_units [] ++ dquote :: rest).
      rewrite (IH [] (c :: acc) rest) by (simpl; lia).
      simpl rev. now rewrite <- app_assoc, app_nil_r.
    + rewrite quote_units_two.
      destruct (is_high_surrogate c && is_low_surrogate d) eqn:E.
      * apply andb_true_iff in E as [Ec Ed].
        unfold is_high_surrogate in Ec. apply andb_true_iff in Ec as [Ec _].
        unfold is_low_surrogate in Ed. apply andb_true_iff in Ed as [Ed _].
        cbn [app]. rewrite (lex_surrogate _ _ _ Ec).
        rewrite lex_surrogate by (apply N.leb_le; apply N.leb_le in Ed; lia).
        rewrite (IH r (d :: c :: acc) rest) by (simpl in *; lia).
        simpl rev. now rewrite <- !app_assoc.
      * rewrite <- app_assoc, lex_quote_unit.
        rewrite (IH (d :: r) (c :: acc) rest) by (simpl in *; lia).
        simpl rev. now rewrite <- app_assoc.
Qed.

(** A quoted string is read back as the string. *)
Lemma lex_QuoteJSONString s rest :
  lex LStart (QuoteJSONString s ++ rest) = lex_after (TString s) rest.
Proof.
  unfold QuoteJSONString. cbn [app]. rewrite <- app_assoc. cbn [app].
  rewrite lex_cons. cbn [lex_step lex_start dquote]. rewrite option_map_app_nil.
  now rewrite (lex_quote_units_bounded (length s) s [] rest (le_n _)).
Qed.

Lemma lex_punctuation c tok rest :
  lex_start c = Some ([tok], LStart) -> lex LStart (c :: rest) = lex_after tok rest.
Proof. intros H. rewrite lex_cons. cbn [lex_step]. now rewrite H. Qed.

Lemma lex_quoted_strings l rest ts :
  lex LStart rest = Some ts ->
  lex LStart (join_strings (lit ",") (map QuoteJSONString l) ++ rest)
  = Some (string_tokens l ++ ts).
Proof.
  intros Hrest. induction l as [|x [|y l] IH].
  - exact Hrest.
  - cbn [map join_strings string_tokens]. rewrite lex_QuoteJSONString.
    unfold lex_after. now rewrite Hrest.
  - change (join_strings (lit ",") (map QuoteJSONString (x :: y :: l)))
      with (QuoteJSONString x ++ lit "," ++ join_strings (lit ",") (map QuoteJSONString (y :: l))).
    rewrite <- (app_assoc (QuoteJSONString x)), <- (app_assoc (lit ",")).
    rewrite lex_QuoteJSONString. unfold lex_after.
    change (lit "," ++ ?r) with (44%N :: r).
    rewrite (lex_punctuation 44 TComma) by reflexivity. unfold lex_after.
    rewrite IH. reflexivity.
Qed.

Lemma parse_string_elements l done stack ts :
  l <> [] ->
  parse_tokens (PValue (FArray done :: stack)) (string_tokens l ++ TRBracket :: ts)
  = parse_tokens (PAfter (VArr (rev done ++ map VStr l)) stack) ts.
Proof.
  revert done. induction l as [|x [|y l] IH]; intros done Hl; [now elim Hl| |].
  - reflexivity.
  - change (string_tokens (x :: y :: l))
      with (TString x :: TComma :: string_tokens (y :: l)).
    cbn [app parse_tokens parse_step parse_value_start].
    rewrite IH by discriminate. simpl rev. now rewrite <- app_assoc.
Qed.

Lemma parse_string_array l stack ts :
  parse_tokens (PArrayFirst stack) (string_tokens l ++ TRBracket :: ts)
  = parse_tokens (PAfter (VArr (map VStr l)) stack) ts.
Proof.
  destruct l as [|x l]; [reflexivity|].
  assert (H : parse_tokens (PArrayFirst stack) (string_tokens (x :: l) ++ TRBracket :: ts)
              = parse_tokens (PValue (FArray [] :: stack))
                  (string_tokens (x :: l) ++ TRBracket :: ts))
    by (destruct l; reflexivity).
  rewrite H. now rewrite parse_string_elements by discriminate.
Qed.

Lemma stringify_string_array l :
  JSON_stringify (VArr (map VStr l))
  = Some (lit "[" ++ join_strings (lit ",") (map QuoteJSONString l) ++ lit "]").
Proof.
  cbn [JSON_stringify]. do 3 f_equal. rewrite map_map. reflexivity.
Qed.

Lemma stringify_two_properties k1 v1 k2 v2 t1 t2 :
  array_index k1 = None -> array_index k2 = None ->
  JSON_stringify v1 = Some t1 -> JSON_stringify v2 = Some t2 ->
  JSON_stringify (VObj [(k1, v1); (k2, v2)])
  = Some (lit "{" ++ (QuoteJSONString k1 ++ lit ":" ++ t1) ++ lit ","
          ++ (QuoteJSONString k2 ++ lit ":" ++ t2) ++ lit "}").
Proof.
  intros Hk1 Hk2 Hv1 Hv2. cbn [JSON_stringify map fst snd]. rewrite Hv1, Hv2.
  unfold enumeration_order. cbn [fold_right filter fst snd]. rewrite Hk1, Hk2.
  cbn [map flat_map app snd fst join_strings]. now rewrite <- app_assoc.
Qed.

Lemma stringify_one_property k v t :
  array_index k = None -> JSON_stringify v = Some t ->
  JSON_stringify (VObj [(k, v)])
  = Some (lit "{" ++ (QuoteJSONString k ++ lit ":" ++ t) ++ lit "}").
Proof.
  intros Hk Hv. cbn [JSON_stringify map fst snd]. rewrite Hv.
  unfold enumeration_order. cbn [fold_right filter fst snd]. rewrite Hk.
  reflexivity.
Qed.

Lemma stringify_request text languages :
  JSON_stringify (VObj [(lit "text", VStr text);
                        (lit "targetLanguages", VArr (map VStr languages))])
  = Some (request_wire text languages).
Proof.
  rewrite (stringify_two_properties _ _ _ _ (QuoteJSONString text)
             (lit "[" ++ join_strings (lit ",") (map QuoteJSONString languages) ++ lit "]"));
    [|reflexivity|reflexivity|reflexivity|apply stringify_string_array].
  unfold request_wire. f_equal. f_equal.
  rewrite <- (app_assoc (QuoteJSONString (lit "text"))). f_equal.
  rewrite <- (app_assoc (lit ":")). f_equal. f_equal. f_equal.
  rewrite <- (app_assoc (QuoteJSONString (lit "targetLanguages"))). f_equal.
  rewrite <- (app_assoc (lit ":")). f_equal.
  rewrite <- (app_assoc (lit "[")). f_equal.
  rewrite <- app_assoc. reflexivity.
Qed.

Lemma parse_request_wire text languages :
  JSON_parse (request_wire text languages)
  = Ok (VObj [(lit "text", VStr text);
              (lit "targetLanguages", VArr (map VStr languages))]).
Proof.
  unfold JSON_parse, request_wire.
  change (lit "{" ++ ?r) with (123%N :: r).
  rewrite (lex_punctuation 123 TLBrace) by reflexivity. unfold lex_after.
  rewrite lex_QuoteJSONString. unfold lex_after.
  change (lit ":" ++ ?r) with (58%N :: r).
  rewrite (lex_punctuation 58 TColon) by reflexivity. unfold lex_after.
  rewrite lex_QuoteJSONString. unfold lex_after.
  change (lit "," ++ ?r) with (44%N :: r).
  rewrite (lex_punctuation 44 TComma) by reflexivity. unfold lex_after.
  rewrite lex_QuoteJSONString. unfold lex_after.
  change (lit ":" ++ ?r) with (58%N :: r).
  rewrite (lex_punctuation 58 TColon) by reflexivity. unfold lex_after.
  change (lit "[" ++ ?r) with (91%N :: r).
  rewrite (lex_punctuation 91 TLBracket) by reflexivity. unfold lex_after.
  rewrite (lex_quoted_strings languages _ [TRBracket; TRBrace]) by reflexivity.
  cbn [option_map]. cbn [parse_tokens parse_step parse_value_start].
  rewrite parse_string_array. reflexivity.
Qed.

(** ** Strings whose surrogates are paired *)

Lemma is_surrogate_below c : (c < 55296)%N -> is_surrogate c = false.
Proof.
  intros H. unfold is_surrogate, is_high_surrogate, is_low_surrogate.
  destruct (N.leb_spec 55296 c); [lia|].
  destruct (N.leb_spec 56320 c); [lia|]. reflexivity.
Qed.

Lemma is_surrogate_high c : is_surrogate c = false -> is_high_surrogate c = false.
Proof. unfold is_surrogate. now intros H%orb_false_iff. Qed.

Lemma to_well_formed_unit c r :
  is_surrogate c = false -> to_well_formed (c :: r) = c :: to_well_formed r.
Proof.
  intros H. pose proof (is_surrogate_high c H) as Hh.
  destruct r as [|d r]; cbn [to_well_formed]; now rewrite ?Hh, H.
Qed.

Lemma to_well_formed_pair c d r :
  is_high_surrogate c = true -> is_low_surrogate d = true ->
  to_well_formed (c :: d :: r) = c :: d :: to_well_formed r.
Proof. intros Hc Hd. cbn [to_well_formed]. now rewrite Hc, Hd. Qed.

Lemma to_well_formed_app a b :
  well_formed a -> to_well_formed (a ++ b) = a ++ to_well_formed b.
Proof.
  induction 1 as [|c s Hc _ IH|c d s Hc Hd _ IH]; [reflexivity| |].
  - cbn [app]. now rewrite (to_well_formed_unit _ _ Hc), IH.
  - cbn [app]. now rewrite (to_well_formed_pair _ _ _ Hc Hd), IH.
Qed.

(** The transport changes nothing in a string whose surrogates are
    paired and which does not start with a byte order mark. *)
Lemma UTF8_text_well_formed c r :
  well_formed (c :: r) -> c <> 65279%N -> UTF8_text (c :: r) = c :: r.
Proof.
  intros Hw Hc. unfold UTF8_text.
  pose proof (to_well_formed_app (c :: r) [] Hw) as H.
  rewrite !app_nil_r in H. rewrite H.
  destruct (N.eqb_spec c 65279); [contradiction | reflexivity].
Qed.

Lemma well_formed_app a b : well_formed a -> well_formed b -> well_formed (a ++ b).
Proof.
  induction 1 as [|c s Hc _ IH|c d s Hc Hd _ IH]; intros Hb; [exact Hb| |].
  - cbn [app]. apply well_formed_unit; auto.
  - cbn [app]. apply well_formed_pair; auto.
Qed.

Lemma well_formed_below s : Forall (fun c => (c < 55296)%N) s -> well_formed s.
Proof.
  induction 1 as [|c s Hc _ IH]; [constructor|].
  apply well_formed_unit; [now apply is_surrogate_below | exact IH].
Qed.

(** ** The UTF-8 coding of a string, byte by byte *)

Ltac euclid := zify; Z.to_euclidean_division_equations; lia.

Lemma to_N_byte_of_N n : (n < 256)%N -> Byte.to_N (byte_of_N n) = n.
Proof.
  intros H. unfold byte_of_N. destruct (Byte.of_N n) as [b|] eqn:E.
  - now apply Byte.to_of_N.
  - apply Byte.of_N_None_iff in E. lia.
Qed.

Lemma utf8_start_one b : (b <= 127)%N -> utf8_start b = ([b], UStart).
Proof. intros H. unfold utf8_start. destruct (N.leb_spec b 127); [reflexivity | lia]. Qed.

Lemma utf8_start_two b :
  (194 <= b <= 223)%N -> utf8_start b = ([], UMore (b mod 32) 0 128 191).
Proof.
  intros H. unfold utf8_start.
  destruct (N.leb_spec b 127); [lia|].
  destruct (N.leb_spec 194 b); [|lia]. destruct (N.leb_spec b 223); [reflexivity | lia].
Qed.

Lemma utf8_start_three b :
  (224 <= b <= 239)%N ->
  utf8_start b = ([], UMore (b mod 16) 1 (if (b =? 224)%N then 160%N else 128%N)
                        (if (b =? 237)%N then 159%N else 191%N)).
Proof.
  intros H. unfold utf8_start.
  destruct (N.leb_spec b 127); [lia|].
  destruct (N.leb_spec 194 b); [|lia]. destruct (N.leb_spec b 223); [lia|].
  destruct (N.leb_spec 224 b); [|lia]. destruct (N.leb_spec b 239); [reflexivity | lia].
Qed.

Lemma utf8_start_four b :
  (240 <= b <= 244)%N ->
  utf8_start b = ([], UMore (b mod 8) 2 (if (b =? 240)%N then 144%N else 128%N)
                        (if (b =? 244)%N then 143%N else 191%N)).
Proof.
  intros H. unfold utf8_start.
  destruct (N.leb_spec b 127); [lia|].
  destruct (N.leb_spec 194 b); [|lia]. destruct (N.leb_spec b 223); [lia|].
  destruct (N.leb_spec 224 b); [|lia]. destruct (N.leb_spec b 239); [lia|].
  destruct (N.leb_spec 240 b); [|lia]. destruct (N.leb_spec b 244); [reflexivity | lia].
Qed.

Lemma utf8_step_more cp needed lower upper b :
  (lower <= b <= upper)%N ->
  utf8_step (UMore cp needed lower upper) b
  = match needed with
    | O => (code_units (cp * 64 + b mod 64), UStart)
    | S k => ([], UMore (cp * 64 + b mod 64) k 128 191)
    end.
Proof.
  intros H. unfold utf8_step.
  destruct (N.leb_spec lower b); [|lia]. destruct (N.leb_spec b upper); [reflexivity | lia].
Qed.

(** The decoder reads the bytes of a scalar value back as its code
    units. *)
Lemma utf8_decode_scalar cp rest :
  (cp < 1114112)%N -> is_surrogate cp = false ->
  utf8_decode_from UStart (utf8_encode_scalar cp ++ rest)
  = code_units cp ++ utf8_decode_from UStart rest.
Proof.
  intros Hmax Hs.
  assert (Hns : (cp < 55296 \/ 57343 < cp)%N).
  { unfold is_surrogate, is_high_surrogate, is_low_surrogate in Hs.
    destruct (N.leb_spec 55296 cp); [|lia].
    destruct (N.leb_spec cp 56319); [discriminate|].
    destruct (N.leb_spec 56320 cp); [|lia].
    destruct (N.leb_spec cp 57343); [discriminate | lia]. }
  unfold utf8_encode_scalar.
  destruct (N.ltb_spec cp 128) as [H1|H1];
    [|destruct (N.ltb_spec cp 2048) as [H2|H2];
      [|destruct (N.ltb_spec cp 65536) as [H3|H3]]];
    cbn [map app utf8_decode_from].
  - rewrite to_N_byte_of_N by lia. cbn [utf8_step].
    rewrite utf8_start_one by lia.
    unfold code_units. destruct (N.ltb_spec cp 65536); [reflexivity | lia].
  - rewrite !to_N_byte_of_N by euclid. cbn [utf8_step].
    rewrite utf8_start_two by euclid. cbn [app].
    rewrite utf8_step_more by euclid. f_equal. f_equal. euclid.
  - rewrite !to_N_byte_of_N by euclid. cbn [utf8_step].
    rewrite utf8_start_three by euclid. cbn [app].
    rewrite utf8_step_more.
    + cbn [app]. rewrite utf8_step_more by euclid. f_equal. f_equal. euclid.
    + destruct (N.eqb_spec (224 + cp / 4096) 224), (N.eqb_spec (224 + cp / 4096) 237); euclid.
  - rewrite !to_N_byte_of_N by euclid. cbn [utf8_step].
    rewrite utf8_start_four by euclid. cbn [app].
    rewrite utf8_step_more.
    + cbn [app]. rewrite utf8_step_more by euclid. cbn [app].
      rewrite utf8_step_more by euclid. f_equal. f_equal. euclid.
    + destruct (N.eqb_spec (240 + cp / 262144) 240), (N.eqb_spec (240 + cp / 262144) 244); euclid.
Qed.

Lemma utf8_decode_scalars svs :
  Forall (fun cp => (cp < 1114112)%N /\ is_surrogate cp = false) svs ->
  utf8_decode_from UStart (flat_map utf8_encode_scalar svs) = flat_map code_units svs.
Proof.
  induction 1 as [|cp svs [Hmax Hs] _ IH]; [reflexivity|].
  cbn [flat_map]. now rewrite utf8_decode_scalar, IH.
Qed.

(** Induction on a string, one or two code units at a time. *)
Lemma jsstring_pair_ind (P : list N -> Prop) :
  P [] -> (forall c, P [c]) ->
  (forall c d r, P r -> P (d :: r) -> P (c :: d :: r)) ->
  forall s : list N, P s.
Proof.
  intros H0 H1 H2 s.
  assert (H : forall n s, (length s <= n)%nat -> P s).
  { induction n as [|n IH]; intros [|c [|d r]] Hn; auto; try (simpl in Hn; lia).
    apply H2; apply IH; simpl in *; lia. }
  exact (H (length s) s (le_n _)).
Qed.

Lemma is_surrogate_range c :
  is_surrogate c = true <-> (55296 <= c <= 57343)%N.
Proof.
  unfold is_surrogate, is_high_surrogate, is_low_surrogate.
  destruct (N.leb_spec 55296 c), (N.leb_spec c 56319), (N.leb_spec 56320 c),
    (N.leb_spec c 57343); cbn; split; intros; try discriminate; try reflexivity; lia.
Qed.

Lemma is_surrogate_outside c :
  is_surrogate c = false <-> (c < 55296 \/ 57343 < c)%N.
Proof.
  pose proof (is_surrogate_range c) as H.
  destruct (is_surrogate c); split; intros; try discriminate; try reflexivity.
  - destruct H as [H _]. specialize (H eq_refl). lia.
  - destruct (N.le_gt_cases 55296 c), (N.le_gt_cases c 57343); try lia.
Qed.

(** The scalar value that stands for one code unit on its own. *)
Lemma lone_unit_scalar c :
  (c < 65536)%N ->
  let cp := if is_surrogate c then 65533%N else c in
  (cp < 1114112)%N /\ is_surrogate cp = false /\ code_units cp = [cp].
Proof.
  intros Hc. cbn zeta. destruct (is_surrogate c) eqn:E.
  - repeat split; reflexivity.
  - split; [lia|]. split; [exact E|]. unfold code_units.
    destruct (N.ltb_spec c 65536); [reflexivity | lia].
Qed.

(** The scalar value of a surrogate pair. *)
Lemma pair_scalar c d :
  is_high_surrogate c = true -> is_low_surrogate d = true ->
  let cp := (65536 + (c - 55296) * 1024 + (d - 56320))%N in
  (cp < 1114112)%N /\ is_surrogate cp = false /\ code_units cp = [c; d].
Proof.
  intros Hc Hd. cbn zeta.
  unfold is_high_surrogate in Hc. apply andb_true_iff in Hc as [Hc1 Hc2].
  unfold is_low_surrogate in Hd. apply andb_true_iff in Hd as [Hd1 Hd2].
  apply N.leb_le in Hc1, Hc2, Hd1, Hd2.
  split; [lia|]. split; [apply is_surrogate_outside; lia|].
  unfold code_units.
  destruct (N.ltb_spec (65536 + (c - 55296) * 1024 + (d - 56320)) 65536); [lia|].
  f_equal; [euclid | f_equal; euclid].
Qed.

Lemma scalar_values_two c d r :
  scalar_values (c :: d :: r)
  = if is_high_surrogate c && is_low_surrogate d
    then (65536 + (c - 55296) * 1024 + (d - 56320))%N :: scalar_values r
    else (if is_surrogate c then 65533%N else c) :: scalar_values (d :: r).
Proof. reflexivity. Qed.

Lemma to_well_formed_two c d r :
  to_well_formed (c :: d :: r)
  = if is_high_surrogate c && is_low_surrogate d
    then c :: d :: to_well_formed r
    else (if is_surrogate c then 65533%N else c) :: to_well_formed (d :: r).
Proof. reflexivity. Qed.

Lemma scalar_values_scalar s :
  Forall (fun c => (c < 65536)%N) s ->
  Forall (fun cp => (cp < 1114112)%N /\ is_surrogate cp = false) (scalar_values s).
Proof.
  induction s as [|c|c d r IHr IHdr] using jsstring_pair_ind; intros Hs.
  - constructor.
  - apply Forall_inv in Hs. destruct (lone_unit_scalar c Hs) as (H1 & H2 & _).
    repeat constructor; assumption.
  - rewrite scalar_values_two. pose proof (Forall_inv Hs) as Hc. apply Forall_inv_tail in Hs.
    destruct (is_high_surrogate c && is_low_surrogate d) eqn:E.
    + apply andb_true_iff in E as [Ec Ed].
      destruct (pair_scalar c d Ec Ed) as (H1 & H2 & _).
      constructor; [split; assumption|]. apply IHr. now apply Forall_inv_tail in Hs.
    + destruct (lone_unit_scalar c Hc) as (H1 & H2 & _).
      constructor; [split; assumption|]. now apply IHdr.
Qed.

Lemma code_units_scalar_values s :
  Forall (fun c => (c < 65536)%N) s ->
  flat_map code_units (scalar_values s) = to_well_formed s.
Proof.
  induction s as [|c|c d r IHr IHdr] using jsstring_pair_ind; intros Hs.
  - reflexivity.
  - apply Forall_inv in Hs. destruct (lone_unit_scalar c Hs) as (_ & _ & H).
    cbn [scalar_values flat_map to_well_formed]. now rewrite H.
  - rewrite scalar_values_two, to_well_formed_two.
    pose proof (Forall_inv Hs) as Hc. apply Forall_inv_tail in Hs.
    destruct (is_high_surrogate c && is_low_surrogate d) eqn:E.
    + apply andb_true_iff in E as [Ec Ed].
      destruct (pair_scalar c d Ec Ed) as (_ & _ & H).
      cbn [flat_map]. rewrite H, IHr; [reflexivity | now apply Forall_inv_tail in Hs].
    + destruct (lone_unit_scalar c Hc) as (_ & _ & H).
      cbn [flat_map]. rewrite H, IHdr; [reflexivity | exact Hs].
Qed.

(** Only U+FEFF is coded as the byte order mark. *)
Lemma UTF8_decode_no_mark cp rest :
  (cp < 1114112)%N -> cp <> 65279%N ->
  UTF8_decode (utf8_encode_scalar cp ++ rest)
  = utf8_decode_from UStart (utf8_encode_scalar cp ++ rest).
Proof.
  intros Hmax Hne. unfold utf8_encode_scalar.
  destruct (N.ltb_spec cp 128) as [H1|H1];
    [|destruct (N.ltb_spec cp 2048) as [H2|H2];
      [|destruct (N.ltb_spec cp 65536) as [H3|H3]]];
    cbn [map app]; unfold UTF8_decode.
  - destruct rest as [|b2 [|b3 r]]; try reflexivity.
    rewrite to_N_byte_of_N by lia.
    destruct (N.eqb_spec cp 239); [lia | reflexivity].
  - destruct rest as [|b3 r]; try reflexivity.
    rewrite !to_N_byte_of_N by euclid.
    destruct (N.eqb_spec (192 + cp / 64) 239); [euclid | reflexivity].
  - rewrite !to_N_byte_of_N by euclid.
    destruct (N.eqb_spec (224 + cp / 4096) 239); [|reflexivity].
    destruct (N.eqb_spec (128 + (cp / 64) mod 64) 187); [|reflexivity].
    destruct (N.eqb_spec (128 + cp mod 64) 191); [|reflexivity].
    exfalso. apply Hne. euclid.
  - rewrite !to_N_byte_of_N by euclid.
    destruct (N.eqb_spec (240 + cp / 262144) 239); [euclid | reflexivity].
Qed.

(** What arrives is what [UTF8_text] says: decoding the bytes that carry
    a string of 16-bit code units gives the string with its lone
    surrogates replaced and without a byte order mark at the start. *)
Lemma UTF8_decode_encode s :
  Forall (fun c => (c < 65536)%N) s ->
  UTF8_decode (UTF8_encode s) = UTF8_text s.
Proof.
  intros Hs. unfold UTF8_text, UTF8_encode.
  rewrite <- (code_units_scalar_values s Hs).
  pose proof (scalar_values_scalar s Hs) as Hsv.
  destruct (scalar_values s) as [|cp svs]; [reflexivity|].
  pose proof (Forall_inv Hsv) as [Hmax Hsur]. apply Forall_inv_tail in Hsv.
  cbn [flat_map]. destruct (N.eq_dec cp 65279) as [->|Hne].
  - cbn. now apply utf8_decode_scalars.
  - rewrite (UTF8_decode_no_mark cp _ Hmax Hne), utf8_decode_scalar by assumption.
    rewrite (utf8_decode_scalars svs Hsv).
    unfold code_units. destruct (N.ltb_spec cp 65536).
    + cbn [app]. destruct (N.eqb_spec cp 65279); [contradiction | reflexivity].
    + cbn [app].
      destruct (N.eqb_spec (55296 + (cp - 65536) / 1024) 65279); [euclid | reflexivity].
Qed.

Lemma decoded_app a b : decoded a -> decoded b -> decoded (a ++ b).
Proof.
  intros [Ha1 Ha2] [Hb1 Hb2]. split; [now apply well_formed_app | now apply Forall_app].
Qed.

Lemma decoded_unit c : (c < 55296 \/ 57343 < c < 65536)%N -> decoded [c].
Proof.
  intros H. split; [|repeat constructor; lia].
  apply well_formed_unit; [apply is_surrogate_outside; lia | constructor].
Qed.

Lemma decoded_code_units cp :
  (cp < 1114112)%N -> is_surrogate cp = false -> decoded (code_units cp).
Proof.
  intros Hmax Hs. apply is_surrogate_outside in Hs. unfold code_units.
  destruct (N.ltb_spec cp 65536); [apply decoded_unit; lia|].
  split; [|repeat constructor; euclid].
  apply well_formed_pair; [| |constructor].
  - unfold is_high_surrogate. apply andb_true_iff. split; apply N.leb_le; euclid.
  - unfold is_low_surrogate. apply andb_true_iff. split; apply N.leb_le; euclid.
Qed.

Lemma utf8_start_other b :
  (127 < b < 194 \/ 244 < b)%N -> utf8_start b = ([65533%N], UStart).
Proof.
  intros H. unfold utf8_start.
  destruct (N.leb_spec b 127); [lia|].
  destruct (N.leb_spec 194 b), (N.leb_spec b 223); cbn [andb]; try lia;
    destruct (N.leb_spec 224 b), (N.leb_spec b 239); cbn [andb]; try lia;
    destruct (N.leb_spec 240 b), (N.leb_spec b 244); cbn [andb]; try lia; reflexivity.
Qed.

Lemma utf8_start_sound b :
  decoded (fst (utf8_start b)) /\ utf8_state_sound (snd (utf8_start b)).
Proof.
  assert (H : (b <= 127 \/ 194 <= b <= 223 \/ 224 <= b <= 239 \/ 240 <= b <= 244
               \/ (127 < b < 194 \/ 244 < b))%N) by lia.
  destruct H as [H|[H|[H|[H|H]]]].
  - rewrite (utf8_start_one b H). split; [apply decoded_unit; lia | exact I].
  - rewrite (utf8_start_two b H). split; [split; constructor|].
    intros x Hx. split; [euclid | apply is_surrogate_outside; euclid].
  - rewrite (utf8_start_three b H). split; [split; constructor|].
    intros x Hx y Hy.
    destruct (N.eqb_spec b 224), (N.eqb_spec b 237);
      (split; [euclid | apply is_surrogate_outside; euclid]).
  - rewrite (utf8_start_four b H). split; [split; constructor|].
    intros x Hx y Hy z Hz.
    destruct (N.eqb_spec b 240), (N.eqb_spec b 244);
      (split; [euclid | apply is_surrogate_outside; euclid]).
  - rewrite (utf8_start_other b H). split; [apply decoded_unit; lia | exact I].
Qed.

Lemma utf8_step_sound st b :
  utf8_state_sound st ->
  decoded (fst (utf8_step st b)) /\ utf8_state_sound (snd (utf8_step st b)).
Proof.
  destruct st as [|cp needed lower upper]; intros Hst; [apply utf8_start_sound|].
  cbn [utf8_step].
  destruct (N.leb_spec lower b), (N.leb_spec b upper); cbn [andb].
  - destruct needed as [|k]; cbn [fst snd utf8_state_sound utf8_pending] in *.
    + destruct (Hst b (conj H H0)). split; [now apply decoded_code_units | exact I].
    + split; [split; constructor | now apply Hst].
  - destruct (utf8_start_sound b) as [H1 H2]. destruct (utf8_start b) as [out st'].
    split; [|exact H2]. apply (decoded_app [65533%N]); [apply decoded_unit; lia | exact H1].
  - destruct (utf8_start_sound b) as [H1 H2]. destruct (utf8_start b) as [out st'].
    split; [|exact H2]. apply (decoded_app [65533%N]); [apply decoded_unit; lia | exact H1].
  - destruct (utf8_start_sound b) as [H1 H2]. destruct (utf8_start b) as [out st'].
    split; [|exact H2]. apply (decoded_app [65533%N]); [apply decoded_unit; lia | exact H1].
Qed.

Lemma utf8_decode_from_decoded bytes :
  forall st, utf8_state_sound st -> decoded (utf8_decode_from st bytes).
Proof.
  induction bytes as [|b r IH]; intros st Hst; cbn [utf8_decode_from].
  - destruct st; [split; constructor | apply decoded_unit; lia].
  - destruct (utf8_step_sound st (Byte.to_N b) Hst) as [H1 H2].
    destruct (utf8_step st (Byte.to_N b)) as [out st']. apply decoded_app; auto.
Qed.

(** Whatever the bytes, what is decoded has its surrogates paired. *)
Lemma UTF8_decode_decoded bytes : decoded (UTF8_decode bytes).
Proof.
  unfold UTF8_decode.
  destruct bytes as [|b1 [|b2 [|b3 r]]]; try (apply utf8_decode_from_decoded; exact I).
  destruct (_ && _); apply utf8_decode_from_decoded; exact I.
Qed.

(** Whatever the bytes of a body, there is a string of 16-bit code
    units whose body is read in the same way: the requests of
    [Route.Request] leave no body out. *)
Lemma every_body_reads_as_a_string (bytes : list Byte.byte) :
  exists s, Forall (fun c => (c < 65536)%N) s
            /\ UTF8_decode (UTF8_encode s) = UTF8_decode bytes
            /\ UTF8_text s = UTF8_decode bytes.
Proof.
  destruct (UTF8_decode_decoded bytes) as [Hw Hb].
  exists (65279%N :: UTF8_decode bytes).
  assert (Hs : Forall (fun c => (c < 65536)%N) (65279%N :: UTF8_decode bytes))
    by (constructor; [lia | exact Hb]).
  assert (Ht : UTF8_text (65279%N :: UTF8_decode bytes) = UTF8_decode bytes).
  { unfold UTF8_text. rewrite (to_well_formed_unit 65279) by reflexivity.
    pose proof (to_well_formed_app _ [] Hw) as H. rewrite !app_nil_r in H.
    now rewrite H. }
  split; [exact Hs|]. split; [|exact Ht]. now rewrite UTF8_decode_encode.
Qed.

Lemma request_json_bytes (request : Route.Request) :
  Forall (fun c => (c < 65536)%N) (Route.request_body request) ->
  Route.request_json request
  = JSON_parse (UTF8_decode (UTF8_encode (Route.request_body request))).
Proof. intros H. unfold Route.request_json. now rewrite UTF8_decode_encode. Qed.

(** ** The request on the wire *)

Lemma hex_digit_below d : (d < 16)%N -> (hex_digit d < 55296)%N.
Proof. intros H. unfold hex_digit. destruct (N.ltb_spec d 10); lia. Qed.

(** What [JSON.stringify] writes for one code unit has no surrogate, or
    is the code unit itself. *)
Lemma well_formed_quote_unit c : well_formed (quote_unit c).
Proof.
  unfold quote_unit.
  repeat match goal with
         | |- context [(c =? ?k)%N] =>
             destruct (N.eqb_spec c k);
             [apply well_formed_below; repeat constructor; lia|]
         end.
  destruct ((c <? 32)%N || is_high_surrogate c || is_low_surrogate c) eqn:E.
  - assert (Hc : (c <= 57343)%N).
    { apply orb_true_iff in E as [E|E]; [apply orb_true_iff in E as [E|E]|].
      - apply N.ltb_lt in E. lia.
      - unfold is_high_surrogate in E. apply andb_true_iff in E as [_ E].
        apply N.leb_le in E. lia.
      - unfold is_low_surrogate in E. apply andb_true_iff in E as [_ E].
        now apply N.leb_le in E. }
    apply well_formed_below. unfold unicode_escape.
    repeat constructor; try lia; apply hex_digit_below.
    + apply N.Div0.div_lt_upper_bound. lia.
    + now apply N.mod_lt.
    + now apply N.mod_lt.
    + now apply N.mod_lt.
  - apply orb_false_iff in E as [E El]. apply orb_false_iff in E as [_ Eh].
    apply well_formed_unit; [|constructor]. unfold is_surrogate. now rewrite Eh, El.
Qed.

Lemma well_formed_quote_units_bounded n :
  forall s, (length s <= n)%nat -> well_formed (quote_units s).
Proof.
  induction n as [|n IH]; intros s Hn.
  - destruct s; [constructor | simpl in Hn; lia].
  - destruct s as [|c [|d r]]; [constructor | apply well_formed_quote_unit |].
    rewrite quote_units_two.
    destruct (is_high_surrogate c && is_low_surrogate d) eqn:E.
    + apply andb_true_iff in E as [Ec Ed]. apply well_formed_pair; auto.
      apply IH. simpl in *; lia.
    + apply well_formed_app; [apply well_formed_quote_unit|].
      apply IH. simpl in *; lia.
Qed.

Lemma well_formed_QuoteJSONString s : well_formed (QuoteJSONString s).
Proof.
  unfold QuoteJSONString. apply well_formed_unit; [reflexivity|].
  apply well_formed_app; [exact (well_formed_quote_units_bounded _ s (le_n _))|].
  apply well_formed_unit; [reflexivity | constructor].
Qed.

Lemma well_formed_join sep l :
  well_formed sep -> Forall well_formed l -> well_formed (join_strings sep l).
Proof.
  intros Hsep. induction 1 as [|x l Hx Hl IH]; [constructor|].
  destruct l as [|y l]; [exact Hx|].
  change (join_strings sep (x :: y :: l)) with (x ++ sep ++ join_strings sep (y :: l)).
  auto using well_formed_app.
Qed.

Lemma well_formed_request_wire text languages :
  well_formed (request_wire text languages).
Proof.
  unfold request_wire.
  repeat (apply well_formed_app;
          [first [apply well_formed_QuoteJSONString
                 | apply well_formed_below; repeat constructor; lia
                 | idtac]|]).
  - apply well_formed_join; [apply well_formed_below; repeat constructor; lia|].
    apply Forall_forall. intros x Hx. apply in_map_iff in Hx as (y & <- & _).
    apply well_formed_QuoteJSONString.
  - apply well_formed_below. repeat constructor; lia.
Qed.

(** [request.json()] gives the handler the object that the page wrote:
    the text that [JSON.stringify] writes starts with a brace and has
    escaped every surrogate without a partner, so that it arrives as it
    was sent. *)
Lemma request_json_wire text languages :
  Route.request_json (Route.mk_request (request_wire text languages))
  = Ok (VObj [(lit "text", VStr text);
              (lit "targetLanguages", VArr (map VStr languages))]).
Proof.
  unfold Route.request_json. cbn [Route.request_body].
  pose proof (well_formed_request_wire text languages) as Hw.
  pose proof (parse_request_wire text languages) as Hp.
  unfold request_wire in *. cbn [lit app] in Hw |- *.
  change (lit "{" ++ ?r) with (123%N :: r) in *.
  rewrite UTF8_text_well_formed; [exact Hp | exact Hw | discriminate].
Qed.

(** X15.  The body that the page sends, [JSON.stringify] of the object with the
    text and the languages, is always a text that [request.json()] of the
    handler parses back to that object, whatever code units the text and
    the languages hold (quotes, backslashes, control characters and lone
    surrogates included). *)
Theorem request_body_round_trip (text : jsstring) (languages : list jsstring) :
  exists wire,
    JSON_stringify (VObj [(lit "text", VStr text);
                          (lit "targetLanguages", VArr (map VStr languages))]) = Some wire
    /\ Route.request_json (Route.mk_request wire)
       = Ok (VObj [(lit "text", VStr text);
                   (lit "targetLanguages", VArr (map VStr languages))]).
Proof.
  exists (request_wire text languages).
  split; [apply stringify_request | apply request_json_wire].
Qed.

(** The texts that are written here have their surrogates paired. *)
Ltac well_formed_text :=
  repeat first
    [ apply well_formed_QuoteJSONString
    | apply well_formed_below; repeat constructor; lia
    | apply well_formed_app
    | apply well_formed_unit; [reflexivity|] ].

Lemma error_body_round_trip message :
  exists wire, JSON_stringify (Route.error_body message) = Some wire
               /\ JSON_parse (UTF8_text wire) = Ok (Route.error_body message).
Proof.
  eexists. split.
  - apply (stringify_one_property _ _ (QuoteJSONString message)); reflexivity.
  - change (lit "{" ++ ?r) with (123%N :: r).
    rewrite UTF8_text_well_formed; [|well_formed_text|discriminate].
    unfold JSON_parse.
    rewrite (lex_punctuation 123 TLBrace) by reflexivity. unfold lex_after.
    rewrite <- (app_assoc (QuoteJSONString (lit "error"))).
    rewrite lex_QuoteJSONString. unfold lex_after.
    rewrite <- (app_assoc (lit ":")).
    change (lit ":" ++ ?r) with (58%N :: r).
    rewrite (lex_punctuation 58 TColon) by reflexivity. unfold lex_after.
    rewrite lex_QuoteJSONString. reflexivity.
Qed.

Lemma deliver_error status message :
  deliver (Route.mk_response status (Route.error_body message))
  = Home.mk_fetch_response ((200 <=? status) && (status <=? 299))
      (Ok (Route.error_body message)).
Proof.
  unfold deliver. cbn [Route.status Route.body].
  destruct (error_body_round_trip message) as (wire & Hs & Hp).
  now rewrite Hs, Hp.
Qed.

(** ** The page and the handler *)

(** However the fetch settles, the page stops loading and the modal
    stays as it is. *)
Lemma handleLanguagesSubmit_finish_flags outcome s :
  Home.isLoading (snd (Home.handleLanguagesSubmit_finish outcome s)) = false
  /\ Home.isModalOpen (snd (Home.handleLanguagesSubmit_finish outcome s))
     = Home.isModalOpen s.
Proof.
  unfold Home.handleLanguagesSubmit_finish, Home.after_fetch, cbind.
  destruct outcome as [response|e]; [|cbn; auto].
  destruct (Home.json response) as [data|e]; [|cbn; auto].
  destruct (Home.ok response); cbn [negb].
  - destruct (Get data (lit "translations")); cbn; auto.
  - destruct (Get data (lit "error")); cbn; auto.
Qed.

(** X16.  However the fetch settles, [handleLanguagesSubmit] leaves the page
    not loading and touches neither the text, nor the modal flag, nor the
    selected languages.  Unless the response was ok, its body parsed and
    the page took [translations] from it, the page ends with an error
    message to show and with the translations it had. *)
Theorem handleLanguagesSubmit_ends_loading_and_reports_failures
  (outcome : completion Home.FetchResponse) (s : Home.State) :
  let s' := snd (Home.handleLanguagesSubmit_finish outcome s) in
  Home.isLoading s' = false
  /\ Home.inputText s' = Home.inputText s
  /\ Home.isModalOpen s' = Home.isModalOpen s
  /\ Home.selectedLanguages s' = Home.selectedLanguages s
  /\ ((Home.shows_error s' = true /\ Home.translations s' = Home.translations s)
      \/ (exists response data,
            outcome = Ok response /\ Home.ok response = true
            /\ Home.json response = Ok data
            /\ Get data (lit "translations") = Ok (Home.translations s')
            /\ Home.error s' = Home.error s)).
Proof.
  unfold Home.handleLanguagesSubmit_finish, Home.after_fetch, cbind.
  destruct outcome as [response|e]; [|cbn; auto 10].
  destruct (Home.json response) as [data|e] eqn:Hjson; [|cbn; auto 10].
  destruct (Home.ok response) eqn:Hok; cbn [negb].
  - destruct (Get data (lit "translations")) as [t|e] eqn:Ht; [|cbn; auto 10].
    cbn. repeat (split; [reflexivity|]). right. exists response, data. auto.
  - destruct (Get data (lit "error")) as [e|e] eqn:He; [|cbn; auto 10].
    cbn. repeat (split; [reflexivity|]). left. split; [|reflexivity].
    unfold Home.shows_error. cbn. destruct (ToBoolean e) eqn:E; [exact E|reflexivity].
Qed.

(** X17.  When the response is ok and the [translations] of its body are
    missing or falsy, the page logs nothing, sets no error, and shows the
    input form again instead of the translations. *)
Theorem ok_response_without_translations_is_silent
  (response : Home.FetchResponse) (data t : value) (s : Home.State) :
  Home.ok response = true ->
  Home.json response = Ok data ->
  Get data (lit "translations") = Ok t ->
  ToBoolean t = false ->
  Home.handleLanguagesSubmit_finish (Ok response) s
  = ([], Home.mk_state (Home.inputText s) (Home.isModalOpen s) (Home.selectedLanguages s)
           t false (Home.error s))
  /\ Home.shows_input (snd (Home.handleLanguagesSubmit_finish (Ok response) s)) = true
  /\ Home.shows_display (snd (Home.handleLanguagesSubmit_finish (Ok response) s)) = false.
Proof.
  intros Hok Hjson Ht Hfalse.
  unfold Home.handleLanguagesSubmit_finish, Home.after_fetch, cbind.
  rewrite Hjson, Hok, Ht. cbn. unfold Home.shows_input, Home.shows_display. cbn.
  rewrite Hfalse. auto.
Qed.

Lemma ok_response_without_translations_is_silent_witness :
  Home.handleLanguagesSubmit_finish (Ok (Home.mk_fetch_response true (Ok (VObj []))))
    (Home.mk_state (lit "Hi") false [lit "es"; lit "fr"; lit "de"] VNull true VNull)
  = ([], Home.mk_state (lit "Hi") false [lit "es"; lit "fr"; lit "de"] VUndefined false VNull)
  /\ Home.shows_input
       (snd (Home.handleLanguagesSubmit_finish
               (Ok (Home.mk_fetch_response true (Ok (VObj []))))
               (Home.mk_state (lit "Hi") false [lit "es"; lit "fr"; lit "de"] VNull true VNull)))
     = true
  /\ Home.shows_display
       (snd (Home.handleLanguagesSubmit_finish
               (Ok (Home.mk_fetch_response true (Ok (VObj []))))
               (Home.mk_state (lit "Hi") false [lit "es"; lit "fr"; lit "de"] VNull true VNull)))
     = false.
Proof.
  apply (ok_response_without_translations_is_silent
           (Home.mk_fetch_response true (Ok (VObj []))) (VObj []) VUndefined
           (Home.mk_state (lit "Hi") false [lit "es"; lit "fr"; lit "de"] VNull true VNull));
    reflexivity.
Defined.

(** X18.  For every response of [POST] with a status other than 200, the body
    is [{ error: message }], and the page that receives this response
    sets [error] to that message, stops loading, logs nothing and leaves
    the translations as they were. *)
Theorem page_shows_the_error_of_the_handler
  (request : Route.Request) (model : Model) (r : Route.Response) (s : Home.State) :
  snd (Route.POST request model) = Ok r ->
  Route.status r <> 200 ->
  exists message,
    Route.body r = VObj [(lit "error", VStr message)]
    /\ Home.handleLanguagesSubmit_finish (Ok (deliver r)) s
       = ([], Home.mk_state (Home.inputText s) (Home.isModalOpen s)
                (Home.selectedLanguages s) (Home.translations s) false (VStr message)).
Proof.
  intros Hr Hs.
  assert (Hcases : r = InvalidText_response \/ r = InvalidLanguageCount_response
                   \/ r = TranslationFailed_response).
  { destruct (POST_follows_a_path request model); cbn [snd] in Hr;
      injection Hr as <-; auto. now elim Hs. }
  destruct Hcases as [-> | [-> | ->]]; eexists; (split; [reflexivity|]);
    unfold InvalidText_response, InvalidLanguageCount_response, TranslationFailed_response;
    rewrite deliver_error; reflexivity.
Qed.

Lemma page_shows_the_error_of_the_handler_witness :
  exists message,
    Route.body InvalidLanguageCount_response = VObj [(lit "error", VStr message)]
    /\ Home.handleLanguagesSubmit_finish (Ok (deliver InvalidLanguageCount_response))
         Home.initial
       = ([], Home.mk_state (Home.inputText Home.initial) (Home.isModalOpen Home.initial)
                (Home.selectedLanguages Home.initial) (Home.translations Home.initial)
                false (VStr message)).
Proof.
  apply (page_shows_the_error_of_the_handler Sample.two_languages Sample.unreachable_model).
  - evaluate.
  - vm_compute. discriminate.
Defined.

Section PageInvariant.

Import LanguageSelectionModal.

Lemma picker_invariant_closed : picker_invariant (mk_state false []).
Proof. split; [constructor|]. split; [intros c []|reflexivity]. Qed.

Lemma page_invariant_intro h d sel :
  (Home.isModalOpen h = true ->
   ToBoolean (Home.translations h) = false /\ Home.isLoading h = false
   /\ tight (Home.inputText h) /\ (1 <= length (Home.inputText h) <= 140)%nat) ->
  (Home.isLoading h = true -> ToBoolean (Home.translations h) = false) ->
  picker_invariant (mk_state (Home.isModalOpen h) sel) ->
  (length sel <= 3)%nat ->
  page_invariant (Page.mk_page h d sel).
Proof. intros H1 H2 H3 H4. exact (conj H1 (conj H2 (conj H3 H4))). Qed.

Lemma page_invariant_closed h d :
  Home.isModalOpen h = false ->
  (Home.isLoading h = true -> ToBoolean (Home.translations h) = false) ->
  page_invariant (Page.mk_page h d []).
Proof.
  intros Ho H2. apply page_invariant_intro; [congruence | exact H2 | | simpl; lia].
  rewrite Ho. apply picker_invariant_closed.
Qed.

Lemma page_invariant_initial : page_invariant Page.initial.
Proof. apply page_invariant_closed; [reflexivity | discriminate]. Qed.

Lemma render_open h d sel :
  Home.isModalOpen h = true -> Page.render h d sel
  = Page.mk_page h (if Home.shows_input h then d else []) sel.
Proof. intros H. unfold Page.render, reset_effect. cbn. now rewrite H. Qed.

Lemma render_closed h d sel :
  Home.isModalOpen h = false -> Page.render h d sel
  = Page.mk_page h (if Home.shows_input h then d else []) [].
Proof. intros H. unfold Page.render, reset_effect. cbn. now rewrite H. Qed.

Lemma step_keeps_page_invariant a p :
  Page.offered a -> page_invariant p -> page_invariant (fst (Page.step a p)).
Proof.
  intros Ha Hinv. pose proof Hinv as (I1 & I2 & I3 & I4). destruct p as [h d sel].
  unfold Page.modal in I3. cbn [Page.home Page.picked Page.draft] in *.
  destruct a as [text| |lang| | |outcome|]; cbn [Page.step Page.home Page.picked Page.draft].
  - (* TypeText *)
    destruct (Home.shows_input h); cbn [fst]; [|exact Hinv].
    now apply page_invariant_intro.
  - (* SubmitText *)
    destruct (Home.shows_input h) eqn:Hin; [|exact Hinv].
    destruct (FullscreenTextInput.handleSubmit d) as [t|] eqn:Hsub; [|exact Hinv].
    cbn [fst]. rewrite render_open by reflexivity.
    destruct (handleSubmit_Some d t Hsub) as [Heq Hlen].
    assert (Htight : tight t) by (rewrite Heq; apply trim_tight).
    unfold Home.shows_input in Hin. apply andb_true_iff in Hin as [Ht Hl].
    apply negb_true_iff in Ht, Hl.
    apply page_invariant_intro; cbn; auto.
    destruct I3 as (Hnd & Hsub' & _). split; [exact Hnd|]. split; [exact Hsub'|discriminate].
  - (* ClickCheckbox *)
    cbn [fst].
    pose proof (perform_keeps_picker_invariant (ClickCheckbox lang) _ Ha I3) as Hp.
    pose proof (perform_bound (ClickCheckbox lang) (mk_state (Home.isModalOpen h) sel) I4) as Hb.
    assert (Hopen : isOpen (perform (ClickCheckbox lang) (mk_state (Home.isModalOpen h) sel))
                    = Home.isModalOpen h).
    { cbn. destruct (Home.isModalOpen h && _); reflexivity. }
    unfold Page.modal. cbn [Page.home Page.picked].
    set (m := perform (ClickCheckbox lang) (mk_state (Home.isModalOpen h) sel)) in *.
    apply page_invariant_intro; auto.
    rewrite <- Hopen. destruct m; exact Hp.
  - (* ClickSubmit *)
    destruct (Home.isModalOpen h && negb (submit_disabled sel)) eqn:Hc; [|exact Hinv].
    destruct (handleSubmit sel) as [l|]; [|exact Hinv].
    apply andb_true_iff in Hc as [Ho _]. destruct (I1 Ho) as (Ht & _).
    cbn [Home.handleLanguagesSubmit_start fst]. rewrite render_closed by reflexivity.
    apply page_invariant_closed; [reflexivity|]. intros _. exact Ht.
  - (* ClickCancel *)
    destruct (Home.isModalOpen h) eqn:Ho; [|exact Hinv].
    cbn [fst]. rewrite render_closed by reflexivity.
    apply page_invariant_closed; [reflexivity | exact I2].
  - (* FetchSettles *)
    destruct (Home.isLoading h) eqn:Hl; [|exact Hinv].
    assert (Ho : Home.isModalOpen h = false).
    { destruct (Home.isModalOpen h) eqn:Ho; [|reflexivity].
      destruct (I1 eq_refl) as (_ & Hl' & _). congruence. }
    pose proof (handleLanguagesSubmit_finish_flags outcome h) as (Hl' & Ho').
    destruct (Home.handleLanguagesSubmit_finish outcome h) as [log h'].
    cbn [snd fst] in *. rewrite render_closed by congruence.
    apply page_invariant_closed; congruence.
  - (* ClickStartOver *)
    destruct (Home.shows_display h) eqn:Hd; [|exact Hinv].
    unfold Home.shows_display in Hd.
    assert (Ho : Home.isModalOpen h = false).
    { destruct (Home.isModalOpen h) eqn:Ho; [|reflexivity].
      destruct (I1 eq_refl) as (Ht & _). congruence. }
    cbn [fst]. rewrite render_closed by (cbn; exact Ho).
    apply page_invariant_closed; [exact Ho | reflexivity].
Qed.

Lemma reachable_page_invariant p : Page.reachable p -> page_invariant p.
Proof.
  induction 1 as [|p a _ IH Ha]; [apply page_invariant_initial|].
  now apply step_keeps_page_invariant.
Qed.

(** X19.  In every state that the page reaches, exactly one of three
    conditions of the JSX that [Home] returns holds: that of the input
    form (line 65), that of the loading notice (line 69) or that of
    [TranslationDisplay] (line 75); and while the modal is open it is
    that of the input form.  This is about the tree that [Home] returns,
    not about what its children make of it: [TranslationDisplay] is not
    embedded, and it throws on a translation that is an object. *)
Theorem home_returns_one_screen_at_a_time (p : Page.State) :
  Page.reachable p ->
  let h := Page.home p in
  ((Home.shows_input h = true /\ Home.shows_loading h = false /\ Home.shows_display h = false)
   \/ (Home.shows_input h = false /\ Home.shows_loading h = true /\ Home.shows_display h = false)
   \/ (Home.shows_input h = false /\ Home.shows_loading h = false /\ Home.shows_display h = true))
  /\ (Home.isModalOpen h = true -> Home.shows_input h = true).
Proof.
  intros Hp. destruct (reachable_page_invariant p Hp) as (I1 & I2 & _).
  cbn zeta. unfold Home.shows_input, Home.shows_loading, Home.shows_display. split.
  - destruct (Home.isLoading (Page.home p)) eqn:Hl.
    + rewrite (I2 eq_refl). cbn. auto.
    + destruct (ToBoolean (Home.translations (Page.home p))); cbn; auto.
  - intros Ho. destruct (I1 Ho) as (-> & -> & _). reflexivity.
Qed.

(** X20.  Every request that the page sends is a POST to [/api/translate]
    whose body parses, in the handler, to the text submitted by the form
    (trimmed, 1 to 140 code units) and three distinct codes of the
    catalogue; so the handler never answers it with 400: it calls
    [translateText] once with these and answers with 200 or 500. *)
Theorem page_requests_pass_the_rules_of_the_handler
  (p : Page.State) (a : Page.action) (request : Home.FetchRequest) :
  Page.reachable p ->
  In request (Page.fetches (snd (Page.step a p))) ->
  exists text languages wire,
    text = Home.inputText (Page.home p)
    /\ languages = Page.picked p
    /\ request = Home.mk_fetch (lit "/api/translate") (lit "POST")
                   (lit "application/json") (Some wire)
    /\ tight text /\ (1 <= length text <= 140)%nat
    /\ length languages = 3%nat /\ NoDup languages
    /\ (forall c, In c languages -> In c (map code COMMON_LANGUAGES))
    /\ Route.request_json (Route.mk_request wire)
       = Ok (VObj [(lit "text", VStr text);
                   (lit "targetLanguages", VArr (map VStr languages))])
    /\ forall model,
         translateText_calls (fst (Route.POST (Route.mk_request wire) model))
         = [(VStr text, VArr (map VStr languages))]
         /\ exists r, snd (Route.POST (Route.mk_request wire) model) = Ok r
                      /\ (Route.status r = 200 \/ Route.status r = 500).
Proof.
  intros Hp Hin. destruct (reachable_page_invariant p Hp) as (I1 & _ & I3 & _).
  destruct p as [h d sel]. unfold Page.modal in I3.
  cbn [Page.home Page.picked Page.draft] in *.
  destruct a as [text| |lang| | |outcome|];
    cbn [Page.step Page.home Page.picked Page.draft] in Hin;
    try (destruct (Home.shows_input h); [|destruct Hin];
         try destruct (FullscreenTextInput.handleSubmit d); destruct Hin);
    try (destruct Hin).
  - (* ClickSubmit *)
    destruct (Home.isModalOpen h && negb (submit_disabled sel)) eqn:Hc; [|destruct Hin].
    unfold handleSubmit in Hin.
    destruct (Nat.eqb_spec (length sel) 3) as [H3|]; [|destruct Hin].
    cbn [Home.handleLanguagesSubmit_start Page.fetches flat_map app snd] in Hin.
    destruct Hin as [<-|[]].
    apply andb_true_iff in Hc as [Ho _].
    destruct (I1 Ho) as (_ & _ & Htight & Hlen). destruct I3 as (Hnd & Hcat & _).
    cbn in Hnd, Hcat.
    exists (Home.inputText h), sel, (request_wire (Home.inputText h) sel).
    assert (Hbody : Route.request_json (Route.mk_request (request_wire (Home.inputText h) sel))
                    = Ok (VObj [(lit "text", VStr (Home.inputText h));
                                (lit "targetLanguages", VArr (map VStr sel))]))
      by apply request_json_wire.
    split; [reflexivity|]. split; [reflexivity|].
    split; [now rewrite stringify_request|].
    repeat (split; [assumption|]).
    intros model.
    assert (H1 : Route.text_rule_fails (VStr (Home.inputText h)) = Ok false)
      by now apply text_rule_passes.
    assert (H2 : Route.language_rule_fails (VArr (map VStr sel)) = Ok false)
      by (rewrite language_rule_array, length_map, H3; reflexivity).
    split.
    + apply (POST_forwards_once _ model _ _ _ Hbody); [reflexivity|reflexivity|exact H1|exact H2].
    + rewrite (POST_forwards _ model _ _ _ Hbody eq_refl eq_refl H1 H2).
      destruct (Gemini.translateText _ _ model) as [t [v|e]]; eexists;
        (split; [reflexivity|]); cbn; auto.
  - (* ClickCancel *)
    destruct (Home.isModalOpen h); destruct Hin.
  - (* FetchSettles *)
    destruct (Home.isLoading h); [|destruct Hin].
    destruct (Home.handleLanguagesSubmit_finish outcome h) as [log h'].
    assert (Hnone : Page.fetches (map Page.Log log) = [])
      by (clear; induction log as [|ev log IH]; [reflexivity | exact IH]).
    cbn [snd] in Hin. rewrite Hnone in Hin. destruct Hin.
  - (* ClickStartOver *)
    destruct (Home.shows_display h); destruct Hin.
Qed.

End PageInvariant.

Lemma ready_page_reachable : Page.reachable Sample.ready_page.
Proof.
  unfold Sample.ready_page. cbn [fold_left].
  repeat (apply Page.reachable_step; [|simpl; tauto]).
  apply Page.reachable_initial.
Qed.

Lemma home_returns_one_screen_at_a_time_witness :
  let h := Page.home Sample.ready_page in
  ((Home.shows_input h = true /\ Home.shows_loading h = false /\ Home.shows_display h = false)
   \/ (Home.shows_input h = false /\ Home.shows_loading h = true /\ Home.shows_display h = false)
   \/ (Home.shows_input h = false /\ Home.shows_loading h = false /\ Home.shows_display h = true))
  /\ (Home.isModalOpen h = true -> Home.shows_input h = true).
Proof.
  apply (home_returns_one_screen_at_a_time Sample.ready_page).
  unfold Sample.ready_page. cbn [fold_left].
  repeat (apply Page.reachable_step; [|simpl; tauto]).
  apply Page.reachable_initial.
Defined.

Lemma page_requests_pass_the_rules_of_the_handler_witness :
  exists text languages wire,
    text = Home.inputText (Page.home Sample.ready_page)
    /\ languages = Page.picked Sample.ready_page
    /\ Home.mk_fetch (lit "/api/translate") (lit "POST") (lit "application/json")
         (Some (request_wire (lit "Hello World") [lit "en"; lit "es"; lit "zh"]))
       = Home.mk_fetch (lit "/api/translate") (lit "POST")
           (lit "application/json") (Some wire)
    /\ tight text /\ (1 <= length text <= 140)%nat
    /\ length languages = 3%nat /\ NoDup languages
    /\ (forall c, In c languages
                  -> In c (map LanguageSelectionModal.code
                             LanguageSelectionModal.COMMON_LANGUAGES))
    /\ Route.request_json (Route.mk_request wire)
       = Ok (VObj [(lit "text", VStr text);
                   (lit "targetLanguages", VArr (map VStr languages))])
    /\ forall model,
         translateText_calls (fst (Route.POST (Route.mk_request wire) model))
         = [(VStr text, VArr (map VStr languages))]
         /\ exists r, snd (Route.POST (Route.mk_request wire) model) = Ok r
                      /\ (Route.status r = 200 \/ Route.status r = 500).
Proof.
  apply (page_requests_pass_the_rules_of_the_handler Sample.ready_page Page.ClickSubmit).
  - unfold Sample.ready_page. cbn [fold_left].
    repeat (apply Page.reachable_step; [|simpl; tauto]).
    apply Page.reachable_initial.
  - vm_compute. left. reflexivity.
Defined.

(** ** A flat mapping from strings to strings on the wire *)

Lemma enumeration_order_named {A} (props : list (jsstring * A)) :
  named_keys props -> enumeration_order props = props.
Proof.
  intros H. unfold enumeration_order.
  assert (H1 : fold_right (fun kv acc => match array_index (fst kv) with
                                         | Some i => insert_by_index i kv acc
                                         | None => acc
                                         end) [] props = []).
  { induction props as [|kv props IH]; [reflexivity|]. simpl.
    rewrite (H kv (or_introl eq_refl)). apply IH. intros x Hx. apply H. now right. }
  rewrite H1. cbn [map app].
  induction props as [|kv props IH]; [reflexivity|]. simpl.
  rewrite (H kv (or_introl eq_refl)). f_equal. apply IH.
  - intros x Hx. apply H. now right.
  - apply (f_equal (@tl _)) in H1. simpl in H1.
    rewrite (H kv (or_introl eq_refl)) in H1.
    clear - H. induction props as [|x props IH]; [reflexivity|]. simpl.
    rewrite (H x (or_intror (or_introl eq_refl))). apply IH.
    intros y [<-|Hy]; apply H; [now left | right; now right].
Qed.

Lemma stringify_string_object pairs :
  named_keys pairs ->
  JSON_stringify (string_object pairs)
  = Some (lit "{" ++ join_strings (lit ",") (map member_text pairs) ++ lit "}").
Proof.
  intros Hn. unfold string_object. cbn [JSON_stringify]. rewrite map_map. cbn [fst snd].
  rewrite enumeration_order_named.
  - do 4 f_equal. clear Hn. induction pairs as [|kv pairs IH]; [reflexivity|].
    cbn [map flat_map fst snd JSON_stringify app]. f_equal. exact IH.
  - intros kv Hkv. apply in_map_iff in Hkv as (x & <- & Hx). cbn. now apply Hn.
Qed.

Lemma lex_members pairs rest ts :
  lex LStart rest = Some ts ->
  lex LStart (join_strings (lit ",") (map member_text pairs) ++ rest)
  = Some (member_tokens pairs ++ ts).
Proof.
  intros Hrest.
  assert (Hone : forall kv r us, lex LStart r = Some us ->
            lex LStart (member_text kv ++ r)
            = Some (TString (fst kv) :: TColon :: TString (snd kv) :: us)).
  { intros kv r us Hr. unfold member_text.
    rewrite <- (app_assoc (QuoteJSONString (fst kv))), lex_QuoteJSONString. unfold lex_after.
    rewrite <- (app_assoc (lit ":")).
    change (lit ":" ++ ?x) with (58%N :: x).
    rewrite (lex_punctuation 58 TColon) by reflexivity. unfold lex_after.
    rewrite lex_QuoteJSONString. unfold lex_after. now rewrite Hr. }
  induction pairs as [|x [|y l] IH].
  - exact Hrest.
  - cbn [map join_strings member_tokens]. now rewrite (Hone x rest ts Hrest).
  - change (join_strings (lit ",") (map member_text (x :: y :: l)))
      with (member_text x ++ lit "," ++ join_strings (lit ",") (map member_text (y :: l))).
    rewrite <- (app_assoc (member_text x)), <- (app_assoc (lit ",")).
    rewrite (Hone x _ (TComma :: member_tokens (y :: l) ++ ts)); [reflexivity|].
    change (lit "," ++ ?r) with (44%N :: r).
    rewrite (lex_punctuation 44 TComma) by reflexivity. unfold lex_after.
    now rewrite IH.
Qed.

Lemma define_property_new done k v :
  ~ In k (map fst done) -> define_property done k v = done ++ [(k, v)].
Proof.
  induction done as [|[k' v'] done IH]; intros Hk; [reflexivity|]. simpl.
  destruct (str_eqb k k') eqn:E.
  - apply str_eqb_eq in E. subst. elim Hk. now left.
  - f_equal. apply IH. intros H. apply Hk. now right.
Qed.

Lemma parse_members pairs done stack ts :
  pairs <> [] ->
  NoDup (map fst done ++ map fst pairs) ->
  parse_tokens (PKey done stack) (member_tokens pairs ++ TRBrace :: ts)
  = parse_tokens
      (PAfter (VObj (done ++ map (fun kv => (fst kv, VStr (snd kv))) pairs)) stack) ts.
Proof.
  revert done. induction pairs as [|[k v] [|y l] IH]; intros done Hne Hnd; [now elim Hne| |].
  - cbn [member_tokens app parse_tokens parse_step parse_value_start fst snd map].
    rewrite define_property_new; [reflexivity|].
    intros H. apply NoDup_remove_2 in Hnd. apply Hnd. apply in_app_iff. now left.
  - change (member_tokens ((k, v) :: y :: l))
      with (TString k :: TColon :: TString v :: TComma :: member_tokens (y :: l)).
    cbn [app parse_tokens parse_step parse_value_start fst snd].
    assert (Hk : ~ In k (map fst done)).
    { intros H. cbn [map fst] in Hnd. apply NoDup_remove_2 in Hnd. apply Hnd.
      apply in_app_iff. now left. }
    rewrite (define_property_new _ _ _ Hk), IH; [|discriminate|].
    + cbn [map fst snd]. now rewrite <- app_assoc.
    + rewrite map_app, <- app_assoc. cbn [map fst app].
      cbn [map fst] in Hnd. exact Hnd.
Qed.

Lemma parse_string_object pairs stack ts :
  NoDup (map fst pairs) ->
  parse_tokens (PObjectFirst stack) (member_tokens pairs ++ TRBrace :: ts)
  = parse_tokens (PAfter (string_object pairs) stack) ts.
Proof.
  intros Hnd. destruct pairs as [|x l]; [reflexivity|].
  assert (H : parse_tokens (PObjectFirst stack) (member_tokens (x :: l) ++ TRBrace :: ts)
              = parse_tokens (PKey [] stack) (member_tokens (x :: l) ++ TRBrace :: ts))
    by (destruct l; reflexivity).
  rewrite H, parse_members; [reflexivity | discriminate | exact Hnd].
Qed.

(** The body [{ translations: m }] of a 200 is read back by the page as
    it is, when [m] is a flat mapping of strings with distinct keys
    none of which is an array index. *)
Lemma deliver_translations pairs :
  NoDup (map fst pairs) -> named_keys pairs ->
  deliver (Route.mk_response 200 (Route.translations_body (string_object pairs)))
  = Home.mk_fetch_response true (Ok (Route.translations_body (string_object pairs))).
Proof.
  intros Hnd Hn. unfold deliver. cbn [Route.status Route.body]. f_equal.
  unfold Route.translations_body.
  rewrite (stringify_one_property (lit "translations") _ _ eq_refl
             (stringify_string_object pairs Hn)).
  change (lit "{" ++ ?r) with (123%N :: r) at 1.
  rewrite UTF8_text_well_formed; [| |discriminate].
  2:{ well_formed_text. apply well_formed_join; [well_formed_text|].
      apply Forall_forall. intros x Hx. apply in_map_iff in Hx as (kv & <- & _).
      unfold member_text. well_formed_text. }
  unfold JSON_parse.
  rewrite (lex_punctuation 123 TLBrace) by reflexivity. unfold lex_after.
  rewrite <- (app_assoc (QuoteJSONString (lit "translations"))).
  rewrite lex_QuoteJSONString. unfold lex_after.
  rewrite <- (app_assoc (lit ":")).
  change (lit ":" ++ ?r) with (58%N :: r).
  rewrite (lex_punctuation 58 TColon) by reflexivity. unfold lex_after.
  rewrite <- (app_assoc (lit "{")).
  change (lit "{" ++ ?r) with (123%N :: r).
  rewrite (lex_punctuation 123 TLBrace) by reflexivity. unfold lex_after.
  rewrite <- (app_assoc (join_strings _ _)).
  rewrite (lex_members pairs _ [TRBrace; TRBrace]) by reflexivity.
  cbn [option_map]. cbn [parse_tokens parse_step parse_value_start].
  rewrite (parse_string_object pairs _ _ Hnd). reflexivity.
Qed.

(** X21.  When the handler answers 200 with translations that are a flat
    mapping from distinct keys, none of them an array index, to strings,
    the page reads back from the wire the very same mapping, sets
    [translations] to it, logs nothing, and renders the translations. *)
Theorem page_displays_the_translations_of_the_handler
  (pairs : list (jsstring * jsstring)) (s : Home.State) :
  NoDup (map fst pairs) ->
  named_keys pairs ->
  Home.handleLanguagesSubmit_finish
    (Ok (deliver (Route.mk_response 200
                    (VObj [(lit "translations", string_object pairs)])))) s
  = ([], Home.mk_state (Home.inputText s) (Home.isModalOpen s) (Home.selectedLanguages s)
           (string_object pairs) false (Home.error s))
  /\ Home.shows_display
       (snd (Home.handleLanguagesSubmit_finish
               (Ok (deliver (Route.mk_response 200
                               (VObj [(lit "translations", string_object pairs)])))) s))
     = true.
Proof.
  intros Hnd Hn.
  change (VObj [(lit "translations", string_object pairs)])
    with (Route.translations_body (string_object pairs)).
  rewrite (deliver_translations pairs Hnd Hn). split; reflexivity.
Qed.

Lemma page_displays_the_translations_of_the_handler_witness :
  Home.handleLanguagesSubmit_finish
    (Ok (deliver (Route.mk_response 200
                    (VObj [(lit "translations",
                            string_object [(lit "es", lit "Hola Mundo");
                                           (lit "fr", lit "Bonjour le monde")])]))))
    Home.initial
  = ([], Home.mk_state (Home.inputText Home.initial) (Home.isModalOpen Home.initial)
           (Home.selectedLanguages Home.initial)
           (string_object [(lit "es", lit "Hola Mundo"); (lit "fr", lit "Bonjour le monde")])
           false (Home.error Home.initial))
  /\ Home.shows_display
       (snd (Home.handleLanguagesSubmit_finish
               (Ok (deliver (Route.mk_response 200
                               (VObj [(lit "translations",
                                       string_object [(lit "es", lit "Hola Mundo");
                                                      (lit "fr", lit "Bonjour le monde")])]))))
               Home.initial))
     = true.
Proof.
  apply (page_displays_the_translations_of_the_handler
           [(lit "es", lit "Hola Mundo"); (lit "fr", lit "Bonjour le monde")] Home.initial).
  - vm_compute. repeat constructor; simpl; intuition discriminate.
  - intros kv [<-|[<-|[]]]; reflexivity.
Defined.

(** ** The page between two requests *)

(** The textarea is empty whenever the form is not rendered. *)
Lemma reachable_draft p :
  Page.reachable p -> Home.shows_input (Page.home p) = false -> Page.draft p = [].
Proof.
  induction 1 as [|p a _ IH _]; [discriminate|].
  destruct p as [h d sel]. cbn [Page.home Page.draft] in IH.
  assert (Hr : forall h' d' sel',
             Home.shows_input (Page.home (Page.render h' d' sel')) = false ->
             Page.draft (Page.render h' d' sel') = []).
  { intros h' d' sel'. unfold Page.render. cbn [Page.home Page.draft].
    now intros ->. }
  destruct a as [text| |lang| | |outcome|]; cbn [Page.step Page.home Page.picked Page.draft].
  - destruct (Home.shows_input h) eqn:Hin; cbn [fst Page.home Page.draft]; rewrite ?Hin;
      [discriminate | exact IH].
  - destruct (Home.shows_input h) eqn:Hin;
      [|cbn [fst Page.home Page.draft]; rewrite ?Hin; exact IH].
    destruct (FullscreenTextInput.handleSubmit d);
      [apply Hr | cbn [fst Page.home Page.draft]; rewrite ?Hin; intros H; discriminate H].
  - exact IH.
  - destruct (Home.isModalOpen h && _); [|exact IH].
    destruct (LanguageSelectionModal.handleSubmit sel); [|exact IH].
    cbn [Home.handleLanguagesSubmit_start fst]. apply Hr.
  - destruct (Home.isModalOpen h); [apply Hr | exact IH].
  - destruct (Home.isLoading h); [|exact IH].
    destruct (Home.handleLanguagesSubmit_finish outcome h) as [log h']. apply Hr.
  - destruct (Home.shows_display h); [apply Hr | exact IH].
Qed.

(** X22.  In every state that the page reaches and in which the
    translations are rendered, Start Over sends nothing and gives the
    page of the first visit: no text, no languages, no translations, no
    error, the modal closed and its selection empty, the textarea
    empty. *)
Theorem start_over_gives_the_initial_page (p : Page.State) :
  Page.reachable p ->
  Home.shows_display (Page.home p) = true ->
  Page.step Page.ClickStartOver p = (Page.initial, []).
Proof.
  intros Hp Hd.
  destruct (reachable_page_invariant p Hp) as (I1 & I2 & _).
  destruct p as [h d sel]. cbn [Page.home] in *.
  cbn [Page.step Page.home Page.draft Page.picked]. rewrite Hd.
  unfold Home.shows_display in Hd.
  assert (Ho : Home.isModalOpen h = false).
  { destruct (Home.isModalOpen h); [|reflexivity].
    destruct (I1 eq_refl) as (Ht & _). congruence. }
  assert (Hl : Home.isLoading h = false).
  { destruct (Home.isLoading h); [|reflexivity]. rewrite (I2 eq_refl) in Hd. discriminate. }
  assert (Hdraft : d = []).
  { apply (reachable_draft _ Hp). unfold Home.shows_input. cbn [Page.home].
    now rewrite Hd. }
  subst d. unfold Home.handleStartOver. rewrite Ho, Hl. reflexivity.
Qed.

(** X23.  The page sends one request at a time: an event sends something
    only when it is Submit in the modal, it then sends exactly one
    request, the page was not loading before, and it is loading, with
    the modal closed, afterwards. *)
Theorem page_sends_one_request_at_a_time (p : Page.State) (a : Page.action) :
  Page.reachable p ->
  Page.fetches (snd (Page.step a p)) <> [] ->
  a = Page.ClickSubmit
  /\ length (Page.fetches (snd (Page.step a p))) = 1%nat
  /\ Home.isLoading (Page.home p) = false
  /\ Home.isLoading (Page.home (fst (Page.step a p))) = true
  /\ Home.isModalOpen (Page.home (fst (Page.step a p))) = false.
Proof.
  intros Hp Hf. destruct (reachable_page_invariant p Hp) as (I1 & _).
  destruct p as [h d sel]. cbn [Page.home] in *.
  assert (Hlog : forall log, Page.fetches (map Page.Log log) = [])
    by (induction log as [|ev log IH]; [reflexivity | exact IH]).
  destruct a as [text| |lang| | |outcome|];
    cbn [Page.step Page.home Page.picked Page.draft] in *.
  - destruct (Home.shows_input h); now elim Hf.
  - destruct (Home.shows_input h); [|now elim Hf].
    destruct (FullscreenTextInput.handleSubmit d); now elim Hf.
  - now elim Hf.
  - destruct (Home.isModalOpen h && negb (LanguageSelectionModal.submit_disabled sel)) eqn:Hc;
      [|now elim Hf].
    destruct (LanguageSelectionModal.handleSubmit sel) as [l|]; [|now elim Hf].
    apply andb_true_iff in Hc as [Ho _]. destruct (I1 Ho) as (_ & Hl & _).
    cbn [Home.handleLanguagesSubmit_start fst snd Page.fetches flat_map app length].
    repeat split. exact Hl.
  - destruct (Home.isModalOpen h); now elim Hf.
  - destruct (Home.isLoading h); [|now elim Hf].
    destruct (Home.handleLanguagesSubmit_finish outcome h) as [log h'].
    cbn [snd] in Hf. now rewrite Hlog in Hf.
  - destruct (Home.shows_display h); now elim Hf.
Qed.

Lemma page_sends_one_request_at_a_time_witness :
  Page.ClickSubmit = Page.ClickSubmit
  /\ length (Page.fetches (snd (Page.step Page.ClickSubmit Sample.ready_page))) = 1%nat
  /\ Home.isLoading (Page.home Sample.ready_page) = false
  /\ Home.isLoading (Page.home (fst (Page.step Page.ClickSubmit Sample.ready_page))) = true
  /\ Home.isModalOpen (Page.home (fst (Page.step Page.ClickSubmit Sample.ready_page))) = false.
Proof.
  apply (page_sends_one_request_at_a_time Sample.ready_page Page.ClickSubmit).
  - unfold Sample.ready_page. cbn [fold_left].
    repeat (apply Page.reachable_step; [|simpl; tauto]).
    apply Page.reachable_initial.
  - vm_compute. discriminate.
Defined.

Lemma start_over_gives_the_initial_page_witness :
  Page.step Page.ClickStartOver Sample.translated_page = (Page.initial, []).
Proof.
  apply (start_over_gives_the_initial_page Sample.translated_page).
  - unfold Sample.translated_page, Sample.ready_page. cbn [fold_left].
    repeat (apply Page.reachable_step; [|simpl; tauto]).
    apply Page.reachable_initial.
  - reflexivity.
Defined.
